(** * ShardX bottleneck analyzer: src/tools/performance/bottleneck_analyzer.py

    A shallow embedding of the analysis pipeline of the bottleneck analyzer
    (input files, profile parsers, scalability analyzers, bottleneck
    detector, charts, JSON report, the fragments the text and HTML reports
    compute, and [main]) together with the properties its specification
    states and further properties of the code.

    Conventions of the embedding.
    - Python numbers read from the benchmark JSON are exact rationals [Q];
      Python's true division [/] is [py_div], which raises
      [ZeroDivisionError] on a zero divisor.  Binary64 rounding is not
      modelled.
    - Python exceptions are the [inr] side of [result]; [None] is [None].
    - The dicts the code builds with a fixed set of keys are records whose
      fields carry the key names; a key that may be absent, or whose value
      may be [None] or an empty dict, is an [option] field.
    - Text is a list of characters with code below 256; a file is given
      by its content, [None] when the path is missing.
    - The regular expressions of the parsers are terms of [regex], matched
      by a backtracking matcher with the priorities of Python's [re].
    - A figure is what it is drawn from; the rendering of numbers in the
      text and HTML reports, and what [main] prints, are not modelled. *)

From Stdlib Require Import QArith Qminmax.
From Stdlib Require Import Ascii.
From stdpp Require Import gmap strings list fin_maps.

Local Open Scope Q_scope.

(** ** Exceptions *)

Inductive py_error : Set :=
| ZeroDivisionError
| ValueError
| IndexError.

Definition result (A : Type) : Type := (A + py_error)%type.

Definition ret {A} (a : A) : result A := inl a.
Definition raise {A} (e : py_error) : result A := inr e.

Definition bind {A B} (f : A → result B) (m : result A) : result B :=
  match m with
  | inl a => f a
  | inr e => inr e
  end.

(** stdpp's [x ← m; k] notation, read in [result]. *)
#[global] Instance result_ret : MRet result := @ret.
#[global] Instance result_bind : MBind result := @bind.

(** [for x in xs: acc.append(body(x))], stopping at the first exception. *)
Fixpoint for_append {A B} (body : A → result B) (xs : list A) : result (list B) :=
  match xs with
  | [] => ret []
  | x :: xs' =>
      y ← body x ;
      ys ← for_append body xs' ;
      ret (y :: ys)
  end.

(** ** Numbers *)

(** [a / b]: the quotient, [ZeroDivisionError] on a zero divisor.  The
    quotient is the exact one: what binary64 adds (a rounded quotient, a
    quotient that underflows to zero, [OverflowError] on integers beyond
    its range) is outside the embedding, and the properties that would
    depend on it are stated for the analyses that return. *)
Definition py_div (a b : Q) : result Q :=
  if Qeq_bool b 0 then raise ZeroDivisionError else ret (a / b).

(** [l[i]] *)
Definition py_index {A} (l : list A) (i : nat) : result A :=
  match l !! i with
  | Some x => ret x
  | None => raise IndexError
  end.

(** [min(l)]: the first smallest item; [ValueError] on an empty list. *)
Definition py_min (l : list Q) : result Q :=
  match l with
  | [] => raise ValueError
  | x :: xs => ret (fold_left (fun m y => if Qlt_le_dec y m then y else m) xs x)
  end.

(** [max(l)]: the first largest item; [ValueError] on an empty list. *)
Definition py_max (l : list Q) : result Q :=
  match l with
  | [] => raise ValueError
  | x :: xs => ret (fold_left (fun m y => if Qlt_le_dec m y then y else m) xs x)
  end.

(** [sum(l)], exact as [py_div] is. *)
Definition py_sum (l : list Q) : Q := fold_left Qplus l 0.

(** [len(l)] as a number *)
Definition py_len {A} (l : list A) : Q := inject_Z (Z.of_nat (length l)).

(** ** Benchmark documents (the output of [parse_benchmark_results])

    [Tx] holds the shapes keyed by ['tx_count'] / ['throughput_tps'] (the
    transaction and the cross-shard series), [Shard] the ones keyed by
    ['shard_count'] / ['throughput_sps']. *)

Module Tx.
Record item : Type := { tx_count : Q; throughput_tps : Q }.

Record scal : Type := {
  tx_count_from : Q;
  tx_count_to : Q;
  tps_from : Q;
  tps_to : Q;
  efficiency : Q
}.

Record throughput_analysis : Type := {
  data : list item;
  scalability : list scal;
  min_tps : Q;
  max_tps : Q;
  avg_tps : Q
}.
End Tx.

Module Shard.
Record item : Type := { shard_count : Q; throughput_sps : Q }.

Record scal : Type := {
  shard_count_from : Q;
  shard_count_to : Q;
  sps_from : Q;
  sps_to : Q;
  efficiency : Q
}.

Record creation_analysis : Type := {
  data : list item;
  scalability : list scal;
  min_sps : Q;
  max_sps : Q;
  avg_sps : Q
}.
End Shard.

(** [benchmark_results['transaction_benchmark']] *)
Record transaction_data : Type := {
  throughput : option (list Tx.item)
}.

(** [benchmark_results['sharding_benchmark']] *)
Record sharding_data : Type := {
  shard_creation : option (list Shard.item);
  cross_shard_transactions : option (list Tx.item)
}.

(** A decoded benchmark file; the empty dict has both keys absent. *)
Record benchmark_results : Type := {
  transaction_benchmark : option transaction_data;
  sharding_benchmark : option sharding_data
}.

(** ** Scalability analyzers *)

(** The body of [for i in range(1, len(counts))], shared by the three
    loops of the source; [mk] builds the dict appended to [scalability]. *)
Definition scalability_step {S} (mk : Q → Q → Q → Q → Q → S)
    (counts values : list Q) (i : nat) : result S :=
  count_to ← py_index counts i;
  count_from ← py_index counts (i - 1);
  count_ratio ← py_div count_to count_from;
  value_to ← py_index values i;
  value_from ← py_index values (i - 1);
  value_ratio ← py_div value_to value_from;
  efficiency ← py_div value_ratio count_ratio;
  ret (mk count_from count_to value_from value_to efficiency).

(** [scalability = []; if len(counts) > 1: for i in range(1, len(counts)): ...] *)
Definition scalability_loop {S} (mk : Q → Q → Q → Q → Q → S)
    (counts values : list Q) : result (list S) :=
  if decide (1 < length counts)%nat
  then for_append (scalability_step mk counts values) (seq 1 (length counts - 1))
  else ret [].

(** The [if 'throughput' in transaction_data:] block; the cross-shard block
    of [analyze_sharding_performance] is the same text. *)
Definition analyze_tx_series (throughput : list Tx.item)
    : result Tx.throughput_analysis :=
  let tx_counts := Tx.tx_count <$> throughput in
  let tps_values := Tx.throughput_tps <$> throughput in
  scalability ← scalability_loop Tx.Build_scal tx_counts tps_values;
  min_tps ← py_min tps_values;
  max_tps ← py_max tps_values;
  avg_tps ← py_div (py_sum tps_values) (py_len tps_values);
  ret {| Tx.data := throughput;
         Tx.scalability := scalability;
         Tx.min_tps := min_tps;
         Tx.max_tps := max_tps;
         Tx.avg_tps := avg_tps |}.

(** The [if 'shard_creation' in sharding_data:] block. *)
Definition analyze_creation_series (creation : list Shard.item)
    : result Shard.creation_analysis :=
  let shard_counts := Shard.shard_count <$> creation in
  let sps_values := Shard.throughput_sps <$> creation in
  scalability ← scalability_loop Shard.Build_scal shard_counts sps_values;
  min_sps ← py_min sps_values;
  max_sps ← py_max sps_values;
  avg_sps ← py_div (py_sum sps_values) (py_len sps_values);
  ret {| Shard.data := creation;
         Shard.scalability := scalability;
         Shard.min_sps := min_sps;
         Shard.max_sps := max_sps;
         Shard.avg_sps := avg_sps |}.

(** [x = None; if key in d: x = f(d[key])] *)
Definition when_present {A B} (o : option A) (f : A → result B)
    : result (option B) :=
  match o with
  | None => ret None
  | Some a => b ← f a; ret (Some b)
  end.

(** The dict returned by [analyze_transaction_performance]. *)
Record transaction_analysis_t : Type := {
  throughput_analysis : option Tx.throughput_analysis
}.

(** The dict returned by [analyze_sharding_performance]. *)
Record sharding_analysis_t : Type := {
  creation_analysis : option Shard.creation_analysis;
  cross_shard_analysis : option Tx.throughput_analysis
}.

Definition analyze_transaction_performance (benchmark : option benchmark_results)
    : result (option transaction_analysis_t) :=
  match benchmark with
  | None => ret None
  | Some b =>
      match transaction_benchmark b with
      | None => ret None
      | Some transaction_data =>
          throughput_analysis ←
            when_present (throughput transaction_data) analyze_tx_series;
          ret (Some {| throughput_analysis := throughput_analysis |})
      end
  end.

Definition analyze_sharding_performance (benchmark : option benchmark_results)
    : result (option sharding_analysis_t) :=
  match benchmark with
  | None => ret None
  | Some b =>
      match sharding_benchmark b with
      | None => ret None
      | Some sharding_data =>
          creation_analysis ←
            when_present (shard_creation sharding_data) analyze_creation_series;
          cross_shard_analysis ←
            when_present (cross_shard_transactions sharding_data) analyze_tx_series;
          ret (Some {| creation_analysis := creation_analysis;
                       cross_shard_analysis := cross_shard_analysis |})
      end
  end.

(** ** Profiles (the output of the profile parsers) *)

(** An entry of [cpu_profile['hotspots']]. *)
Record cpu_hotspot_t : Type := { overhead : Q; function : list ascii }.

Record cpu_profile_t : Type := { hotspots : list cpu_hotspot_t }.

(** [memory_profile['heap_summary']] when the totals line was found.  The
    counts are what [int] returns for a run of digits: naturals. *)
Record heap_summary_t : Type := {
  total_allocs : N;
  total_frees : N;
  total_bytes : N
}.

(** An entry of [memory_profile['memory_hotspots']]. *)
Record memory_hotspot_t : Type := { bytes_lost : N; mfunction : list ascii }.

(** [heap_summary] is [None] for the empty dict the parser leaves when the
    totals line is missing. *)
Record memory_profile_t : Type := {
  heap_summary : option heap_summary_t;
  memory_hotspots : list memory_hotspot_t
}.

(** ** Bottlenecks *)

Inductive bottleneck_type : Set :=
| transaction_scalability
| shard_creation_scalability
| cross_shard_scalability
| cpu_hotspot
| memory_leak
| memory_hotspot.

Inductive severity_t : Set := high | medium | low.

(** The ['description'] f-string, kept as its interpolated values (the
    rendering of numbers by [:.2f] and [:.1f] is not modelled). *)
Inductive description_t : Type :=
| tx_scalability_text (tx_count_from tx_count_to efficiency : Q)
| shard_scalability_text (shard_count_from shard_count_to efficiency : Q)
| cross_shard_scalability_text (tx_count_from tx_count_to efficiency : Q)
| cpu_hotspot_text (overhead : Q) (function : list ascii)
| memory_leak_text (leak_count : Z) (percent : Q)
| memory_hotspot_text (function : list ascii) (bytes_lost : N).

Record bottleneck : Type := {
  type : bottleneck_type;
  severity : severity_t;
  description : description_t;
  recommendation : string
}.

#[global] Instance bottleneck_type_eq_dec : EqDecision bottleneck_type.
Proof. solve_decision. Defined.

#[global] Instance severity_eq_dec : EqDecision severity_t.
Proof. solve_decision. Defined.

(** ** Bottleneck detector *)

(** The dict assembled in [main] before [identify_bottlenecks] is called. *)
Record analysis_results_t : Type := {
  transaction_analysis : option transaction_analysis_t;
  sharding_analysis : option sharding_analysis_t
}.

(** ['high' if efficiency < 0.5 else 'medium'] *)
Definition scalability_severity (efficiency : Q) : severity_t :=
  if Qlt_le_dec efficiency 0.5 then high else medium.

(** [for item in throughput.get('scalability', []): if ...: bottlenecks.append(...)] *)
Definition tx_scalability_rule (threshold : Q) (scalability : list Tx.scal)
    : list bottleneck :=
  item ← scalability;
  if Qlt_le_dec (Tx.efficiency item) (1.0 - threshold / 100) then
    [ {| type := transaction_scalability;
         severity := scalability_severity (Tx.efficiency item);
         description := tx_scalability_text (Tx.tx_count_from item)
                          (Tx.tx_count_to item) (Tx.efficiency item);
         recommendation := "並列処理の最適化、バッチ処理の導入、またはリソース競合の削減を検討してください。" |} ]
  else [].

Definition shard_creation_rule (threshold : Q) (scalability : list Shard.scal)
    : list bottleneck :=
  item ← scalability;
  if Qlt_le_dec (Shard.efficiency item) (1.0 - threshold / 100) then
    [ {| type := shard_creation_scalability;
         severity := scalability_severity (Shard.efficiency item);
         description := shard_scalability_text (Shard.shard_count_from item)
                          (Shard.shard_count_to item) (Shard.efficiency item);
         recommendation := "シャード作成プロセスの並列化、メタデータ管理の最適化を検討してください。" |} ]
  else [].

Definition cross_shard_rule (threshold : Q) (scalability : list Tx.scal)
    : list bottleneck :=
  item ← scalability;
  if Qlt_le_dec (Tx.efficiency item) (1.0 - threshold / 100) then
    [ {| type := cross_shard_scalability;
         severity := scalability_severity (Tx.efficiency item);
         description := cross_shard_scalability_text (Tx.tx_count_from item)
                          (Tx.tx_count_to item) (Tx.efficiency item);
         recommendation := "シャード間通信の最適化、バッチ処理の導入、またはシャード配置アルゴリズムの改善を検討してください。" |} ]
  else [].

(** ['high' if overhead > 30 else ('medium' if overhead > 15 else 'low')] *)
Definition cpu_severity (overhead : Q) : severity_t :=
  if Qlt_le_dec 30 overhead then high
  else if Qlt_le_dec 15 overhead then medium
  else low.

(** [for hotspot in cpu_profile['hotspots'][:5]: if ...: bottlenecks.append(...)] *)
Definition cpu_hotspot_rule (threshold : Q) (hotspots : list cpu_hotspot_t)
    : list bottleneck :=
  hotspot ← take 5 hotspots;
  if Qlt_le_dec threshold (overhead hotspot) then
    [ {| type := cpu_hotspot;
         severity := cpu_severity (overhead hotspot);
         description := cpu_hotspot_text (overhead hotspot) (function hotspot);
         recommendation := "この関数のアルゴリズムの最適化、キャッシュの活用、または並列処理の導入を検討してください。" |} ]
  else [].

(** The memory-leak test.  [and] evaluates its right operand, the one that
    divides, only when [leak_count > 0]; the description divides again. *)
Definition memory_leak_rule (threshold : Q) (heap : heap_summary_t)
    : result (list bottleneck) :=
  let leak_count := (Z.of_N (total_allocs heap) - Z.of_N (total_frees heap))%Z in
  if decide (0 < leak_count)%Z then
    ratio ← py_div (inject_Z leak_count) (inject_Z (Z.of_N (total_allocs heap)));
    if Qlt_le_dec (threshold / 100) ratio then
      shown ← py_div (inject_Z leak_count) (inject_Z (Z.of_N (total_allocs heap)));
      ret [ {| type := memory_leak;
               severity := high;
               description := memory_leak_text leak_count (shown * 100);
               recommendation := "リソース管理を見直し、すべてのメモリが適切に解放されていることを確認してください。" |} ]
    else ret []
  else ret [].

(** [for hotspot in memory_profile['memory_hotspots'][:5]: bottlenecks.append(...)] *)
Definition memory_hotspot_rule (memory_hotspots : list memory_hotspot_t)
    : list bottleneck :=
  hotspot ← take 5 memory_hotspots;
  [ {| type := memory_hotspot;
       severity := medium;
       description := memory_hotspot_text (mfunction hotspot) (bytes_lost hotspot);
       recommendation := "この関数のメモリ管理を見直し、すべてのリソースが適切に解放されていることを確認してください。" |} ].

(** The bottlenecks appended by one guarded block: none when the guard's
    object is absent. *)
Definition if_present {A} (o : option A) (rule : A → list bottleneck)
    : list bottleneck :=
  match o with
  | Some a => rule a
  | None => []
  end.

Definition identify_bottlenecks (analysis_results : analysis_results_t)
    (cpu_profile : option cpu_profile_t) (memory_profile : option memory_profile_t)
    (threshold : Q) : result (list bottleneck) :=
  let bottlenecks := [] in
  let bottlenecks := bottlenecks ++
    if_present (transaction_analysis analysis_results) (fun tx_analysis =>
      if_present (throughput_analysis tx_analysis) (fun throughput =>
        tx_scalability_rule threshold (Tx.scalability throughput))) in
  let bottlenecks := bottlenecks ++
    if_present (sharding_analysis analysis_results) (fun shard_analysis =>
      if_present (creation_analysis shard_analysis) (fun creation =>
        shard_creation_rule threshold (Shard.scalability creation)) ++
      if_present (cross_shard_analysis shard_analysis) (fun cross_shard =>
        cross_shard_rule threshold (Tx.scalability cross_shard))) in
  let bottlenecks := bottlenecks ++
    if_present cpu_profile (fun cpu_profile =>
      cpu_hotspot_rule threshold (hotspots cpu_profile)) in
  match memory_profile with
  | None => ret bottlenecks
  | Some memory_profile =>
      leak ← match heap_summary memory_profile with
             | Some heap => memory_leak_rule threshold heap
             | None => ret []
             end;
      let bottlenecks := bottlenecks ++ leak in
      let bottlenecks := bottlenecks ++
        memory_hotspot_rule (memory_hotspots memory_profile) in
      ret bottlenecks
  end.

(** ** Text and Python's string methods *)

Abbreviation text := (list ascii).

(** A text literal. *)
Definition txt (s : string) : text := String.list_ascii_of_string s.

Definition newline : ascii := ascii_of_nat 10.

Definition code (c : ascii) : nat := nat_of_ascii c.

(** [\d] *)
Definition is_digit (c : ascii) : bool :=
  bool_decide (48 ≤ code c ≤ 57)%nat.

(** [\s], and what [str.strip()] removes: the characters [str.isspace]
    accepts (tab to carriage return, the four separators, the space,
    next-line and the no-break space). *)
Definition is_space (c : ascii) : bool :=
  bool_decide (9 ≤ code c ≤ 13)%nat || bool_decide (28 ≤ code c ≤ 32)%nat
  || bool_decide (code c = 133)%nat || bool_decide (code c = 160)%nat.

(** [.] under [re.DOTALL] *)
Definition any_char (c : ascii) : bool := true.

(** [.] without [re.DOTALL] *)
Definition not_newline (c : ascii) : bool := negb (bool_decide (c = newline)).

(** [[\d,]] *)
Definition digit_or_comma (c : ascii) : bool :=
  is_digit c || bool_decide (c = ","%char).

Fixpoint drop_while (p : ascii → bool) (s : text) : text :=
  match s with
  | c :: s' => if p c then drop_while p s' else s
  | [] => []
  end.

(** [s.strip(chars)], the set of characters given as a predicate. *)
Definition strip_set (p : ascii → bool) (s : text) : text :=
  reverse (drop_while p (reverse (drop_while p s))).

(** [s.strip()] *)
Definition strip (s : text) : text := strip_set is_space s.

(** [s.strip('%')] *)
Definition strip_percent (s : text) : text :=
  strip_set (fun c => bool_decide (c = "%"%char)) s.

(** [s.split(sep)] for a one-character separator. *)
Fixpoint split_on (sep : ascii) (s : text) : list text :=
  match s with
  | [] => [[]]
  | c :: s' =>
      if decide (c = sep) then [] :: split_on sep s'
      else match split_on sep s' with
           | w :: ws => (c :: w) :: ws
           | [] => [[c]]
           end
  end.

(** [s.startswith(c)] for a one-character prefix. *)
Definition startswith (c : ascii) (s : text) : bool :=
  match s with
  | c' :: _ => bool_decide (c' = c)
  | [] => false
  end.

(** [s.replace(c, '')] *)
Definition remove_char (c : ascii) (s : text) : text :=
  filter (fun c' => c' ≠ c) s.

(** The number a text of decimal digits denotes; [None] on the empty text
    and on a text with another character. *)
Definition decimal_digits (s : text) : option N :=
  match s with
  | [] => None
  | _ =>
      foldl (fun acc c =>
               n ← acc;
               if is_digit c then Some (10 * n + N.of_nat (code c - 48))%N
               else None)
            (Some 0%N) s
  end.

(** [int(s)] on a text of decimal digits, the only texts the parser passes
    to it (a [[\d,]+] group with the commas removed): [ValueError], here
    [None], on the empty text and on a text of more than 4300 digits, the
    limit of the interpreter ([sys.int_max_str_digits]) on the conversion
    of a text to an integer. *)
Definition py_int (s : text) : option N :=
  if decide (4300 < length s)%nat then None else decimal_digits s.

(** ** Regular expressions

    The fragment of Python's [re] syntax the parsers use, with the
    matching order of its backtracking matcher: alternatives left to
    right, [+] longest first, [*?] shortest first.  Quantifiers apply to
    character classes only, as in every pattern of the source. *)

Inductive regex : Type :=
| Eps
| Chr (c : ascii)
| Class (p : ascii → bool)
| Plus (p : ascii → bool)
| LazyStar (p : ascii → bool)
| Cat (r1 r2 : regex)
| Alt (r1 r2 : regex)
| Group (n : nat) (r : regex)
| EndZ.

Infix "⊙" := Cat (at level 41, right associativity).

(** A run of literal characters. *)
Fixpoint lit_text (s : text) : regex :=
  match s with
  | [] => Eps
  | c :: s' => Chr c ⊙ lit_text s'
  end.

Definition lit (s : string) : regex := lit_text (txt s).

(** [p*] after the first character of [p+]: as many as possible first. *)
Fixpoint greedy {A} (p : ascii → bool) (s : text) (k : text → option A)
    : option A :=
  match s with
  | c :: s' =>
      if p c then
        match greedy p s' k with
        | Some x => Some x
        | None => k s
        end
      else k s
  | [] => k s
  end.

(** [p*?]: as few as possible first. *)
Fixpoint lazy {A} (p : ascii → bool) (s : text) (k : text → option A)
    : option A :=
  match k s with
  | Some x => Some x
  | None =>
      match s with
      | c :: s' => if p c then lazy p s' k else None
      | [] => None
      end
  end.

(** [rx_match r s g k]: match [r] at the start of [s], then hand the rest
    of the text and the groups to [k]; backtrack when [k] fails. *)
Fixpoint rx_match {A} (r : regex) (s : text) (g : gmap nat text)
    (k : text → gmap nat text → option A) : option A :=
  match r with
  | Eps => k s g
  | Chr c =>
      match s with
      | c' :: s' => if decide (c' = c) then k s' g else None
      | [] => None
      end
  | Class p =>
      match s with
      | c' :: s' => if p c' then k s' g else None
      | [] => None
      end
  | Plus p =>
      match s with
      | c' :: s' => if p c' then greedy p s' (fun s'' => k s'' g) else None
      | [] => None
      end
  | LazyStar p => lazy p s (fun s'' => k s'' g)
  | Cat r1 r2 => rx_match r1 s g (fun s' g' => rx_match r2 s' g' k)
  | Alt r1 r2 =>
      match rx_match r1 s g k with
      | Some x => Some x
      | None => rx_match r2 s g k
      end
  | Group n r =>
      rx_match r s g
        (fun s' g' => k s' (<[n := take (length s - length s') s]> g'))
  | EndZ =>
      match s with
      | [] => k s g
      | _ :: _ => None
      end
  end.

(** A match object: the number of characters before the match, the
    groups, and the text after the match. *)
Record match_obj : Type := {
  m_start : nat;
  m_groups : gmap nat text;
  m_rest : text
}.

(** [m.group(n)] *)
Definition group (n : nat) (m : match_obj) : text :=
  default [] (m_groups m !! n).

(** [re.match(r, s)] *)
Definition re_match (r : regex) (s : text) : option match_obj :=
  rx_match r s ∅
    (fun rest g => Some {| m_start := 0; m_groups := g; m_rest := rest |}).

(** [re.search(r, s)]: the match at the leftmost position that has one. *)
Fixpoint re_search (r : regex) (s : text) : option match_obj :=
  match re_match r s with
  | Some m => Some m
  | None =>
      match s with
      | [] => None
      | _ :: s' =>
          m ← re_search r s';
          Some {| m_start := S (m_start m);
                  m_groups := m_groups m;
                  m_rest := m_rest m |}
      end
  end.

(** [re.finditer(r, s)] for a pattern whose matches are never empty;
    [fuel] bounds the number of matches. *)
Fixpoint finditer_fuel (fuel : nat) (r : regex) (s : text) : list match_obj :=
  match fuel with
  | O => []
  | S fuel' =>
      match re_search r s with
      | None => []
      | Some m =>
          if decide (length (m_rest m) < length s)%nat
          then m :: finditer_fuel fuel' r (m_rest m)
          else [m]
      end
  end.

Definition finditer (r : regex) (s : text) : list match_obj :=
  finditer_fuel (S (length s)) r s.

(** [re.split(r, s, maxsplit)] for a positive [maxsplit] and a pattern
    without groups whose matches are never empty. *)
Fixpoint re_split (r : regex) (s : text) (maxsplit : nat) : list text :=
  match maxsplit with
  | O => [s]
  | S maxsplit' =>
      match re_search r s with
      | Some m => take (m_start m) s :: re_split r (m_rest m) maxsplit'
      | None => [s]
      end
  end.

(** ** The patterns of the profile parsers *)

(** [==\d+==] *)
Definition pid_tag : regex := lit "==" ⊙ Plus is_digit ⊙ lit "==".

(** [# Overhead.*?\n(.*?)(?:\n\n|\Z)], with [re.DOTALL] *)
Definition overhead_re : regex :=
  lit "# Overhead" ⊙ LazyStar any_char ⊙ Chr newline ⊙
  Group 1 (LazyStar any_char) ⊙
  Alt (Chr newline ⊙ Chr newline) EndZ.

(** [\s+] *)
Definition spaces_re : regex := Plus is_space.

(** [==\d+== Heap Summary:.*?\n(.*?)(?:==\d+==\n\n|\Z)], with [re.DOTALL] *)
Definition summary_re : regex :=
  pid_tag ⊙ lit " Heap Summary:" ⊙ LazyStar any_char ⊙ Chr newline ⊙
  Group 1 (LazyStar any_char) ⊙
  Alt (pid_tag ⊙ Chr newline ⊙ Chr newline) EndZ.

(** [==\d+==\s+total heap usage:\s+([\d,]+)\s+allocs,\s+([\d,]+)\s+frees,\s+([\d,]+)\s+bytes allocated] *)
Definition total_re : regex :=
  pid_tag ⊙ Plus is_space ⊙ lit "total heap usage:" ⊙ Plus is_space ⊙
  Group 1 (Plus digit_or_comma) ⊙ Plus is_space ⊙ lit "allocs," ⊙ Plus is_space ⊙
  Group 2 (Plus digit_or_comma) ⊙ Plus is_space ⊙ lit "frees," ⊙ Plus is_space ⊙
  Group 3 (Plus digit_or_comma) ⊙ Plus is_space ⊙ lit "bytes allocated".

(** [==\d+== \d+ bytes in \d+ blocks are definitely lost.*?\n(.*?)(?:==\d+==\n\n|\Z)],
    with [re.DOTALL] *)
Definition detailed_re : regex :=
  pid_tag ⊙ lit " " ⊙ Plus is_digit ⊙ lit " bytes in " ⊙ Plus is_digit ⊙
  lit " blocks are definitely lost" ⊙ LazyStar any_char ⊙ Chr newline ⊙
  Group 1 (LazyStar any_char) ⊙
  Alt (pid_tag ⊙ Chr newline ⊙ Chr newline) EndZ.

(** [==\d+==\s+([\d,]+)\s+bytes.*?\n(.*?)(?:==\d+==\n\n|==\d+==\s+[\d,]+\s+bytes|\Z)],
    with [re.DOTALL] *)
Definition block_re : regex :=
  pid_tag ⊙ Plus is_space ⊙ Group 1 (Plus digit_or_comma) ⊙ Plus is_space ⊙
  lit "bytes" ⊙ LazyStar any_char ⊙ Chr newline ⊙
  Group 2 (LazyStar any_char) ⊙
  Alt (pid_tag ⊙ Chr newline ⊙ Chr newline)
      (Alt (pid_tag ⊙ Plus is_space ⊙ Plus digit_or_comma ⊙ Plus is_space ⊙ lit "bytes")
           EndZ).

(** [==\d+==\s+by\s+\d+:\s+(.*?)(?:\(|\n)] *)
Definition function_re : regex :=
  pid_tag ⊙ Plus is_space ⊙ lit "by" ⊙ Plus is_space ⊙ Plus is_digit ⊙ lit ":" ⊙
  Plus is_space ⊙ Group 1 (LazyStar not_newline) ⊙
  Alt (lit "(") (Chr newline).

(** ** CPU profile parser *)

Section cpu_parser.
(** Python's [float(s)]: [None] stands for [ValueError]. *)
Variable py_float : text → option Q.

(** The body of [for line in lines:]; [None] is a line that appends
    nothing. *)
Definition parse_cpu_line (line : text) : option cpu_hotspot_t :=
  if bool_decide (strip line = []) || startswith "#" line then None
  else
    let parts := re_split spaces_re (strip line) 5 in
    if decide (5 ≤ length parts)%nat then
      match py_float (strip_percent (default [] (head parts))) with
      | Some overhead =>
          Some {| overhead := overhead; function := default [] (last parts) |}
      | None => None
      end
    else None.

(** [file] is the content of the file, [None] when the path is missing. *)
Definition parse_cpu_profile (file : option text) : option cpu_profile_t :=
  content ← file;
  let hotspots :=
    match re_search overhead_re content with
    | Some overhead_section =>
        let lines := split_on newline (strip (group 1 overhead_section)) in
        omap parse_cpu_line lines
    | None => []
    end in
  Some {| hotspots := hotspots |}.
End cpu_parser.

(** [float] on plain decimal literals ([12], [45.00], [-.5]), for running
    the parser on sample reports. *)
Definition float_of_decimal (s : text) : option Q :=
  let '(sign, body) :=
    match s with
    | c :: rest =>
        if decide (c = "-"%char) then ((-1)%Z, rest)
        else if decide (c = "+"%char) then (1%Z, rest)
        else (1%Z, s)
    | [] => (1%Z, s)
    end in
  let digits d := match d with [] => Some 0%N | _ => decimal_digits d end in
  match split_on "."%char body with
  | [i] => n ← decimal_digits i; Some (inject_Z (sign * Z.of_N n))
  | [i; f] =>
      if bool_decide (i = []) && bool_decide (f = []) then None
      else
        n ← digits i;
        m ← digits f;
        Some (inject_Z sign *
              (inject_Z (Z.of_N n) +
               inject_Z (Z.of_N m) / inject_Z (10 ^ Z.of_nat (length f))))
  | _ => None
  end.

(** ** Memory profile parser *)

(** [int(...)] inside the outer [try]: a failure leaves the function
    through [except Exception]. *)
Definition int_or_raise (s : text) : result N :=
  match py_int s with
  | Some n => ret n
  | None => raise ValueError
  end.

(** The body of [for block in re.finditer(...)]; [None] is a block the
    [except] clause skips. *)
Definition parse_memory_block (block : match_obj) : option memory_hotspot_t :=
  bytes_lost ← py_int (remove_char ","%char (group 1 block));
  let allocation_stack := strip (group 2 block) in
  let function_match := re_search function_re allocation_stack in
  let function :=
    match function_match with
    | Some m => strip (group 1 m)
    | None => txt "Unknown"
    end in
  Some {| bytes_lost := bytes_lost; mfunction := function |}.

(** The blocks [re.finditer] yields for a profile: those of the text after
    the first "definitely lost" line. *)
Definition leak_blocks (content : text) : list match_obj :=
  match re_search detailed_re content with
  | Some detailed_match => finditer block_re (group 1 detailed_match)
  | None => []
  end.

Definition parse_heap_summary (content : text) : result (option heap_summary_t) :=
  match re_search summary_re content with
  | Some summary_match =>
      let summary_text := group 1 summary_match in
      match re_search total_re summary_text with
      | Some total_match =>
          total_allocs ← int_or_raise (remove_char ","%char (group 1 total_match));
          total_frees ← int_or_raise (remove_char ","%char (group 2 total_match));
          total_bytes ← int_or_raise (remove_char ","%char (group 3 total_match));
          ret (Some {| total_allocs := total_allocs;
                       total_frees := total_frees;
                       total_bytes := total_bytes |})
      | None => ret None
      end
  | None => ret None
  end.

(** [file] is the content of the file, [None] when the path is missing;
    an exception inside the [try] gives [None]. *)
Definition parse_memory_profile (file : option text) : option memory_profile_t :=
  content ← file;
  match parse_heap_summary content with
  | inl heap_summary =>
      let memory_hotspots := omap parse_memory_block (leak_blocks content) in
      Some {| heap_summary := heap_summary; memory_hotspots := memory_hotspots |}
  | inr _ => None
  end.

(** ** Python values and JSON documents

    [generate_json_report] hands a dict to [json.dump].  A Python value
    is a tree; a dict keeps its items in insertion order and its keys,
    strings in every dict the analyzer builds, are distinct.  A report
    file holds the JSON document [json.dump] writes; the spelling of the
    document as text (number and string literals, indentation) is the
    [json] module's and is not modelled. *)

#[warnings="-register-all"]
Inductive pyval : Type :=
| PyNone
| PyBool (b : bool)
| PyInt (n : Z)
| PyFloat (q : Q)
| PyStr (s : string)
| PyList (items : list pyval)
| PyTuple (items : list pyval)
| PyDict (items : list (string * pyval)).

#[warnings="-register-all"]
Inductive json : Type :=
| JNull
| JBool (b : bool)
| JInt (n : Z)
| JReal (q : Q)
| JString (s : string)
| JArray (items : list json)
| JObject (members : list (string * json)).

(** The conversion table of [json.dump]: dict to object, list and tuple
    to array, str to string, int and float to number, [None] to null. *)
Fixpoint json_dump (v : pyval) : json :=
  match v with
  | PyNone => JNull
  | PyBool b => JBool b
  | PyInt n => JInt n
  | PyFloat q => JReal q
  | PyStr s => JString s
  | PyList items => JArray (json_dump <$> items)
  | PyTuple items => JArray (json_dump <$> items)
  | PyDict items => JObject ((λ kv, (kv.1, json_dump kv.2)) <$> items)
  end.

(** [d[key] = value] on the items of a dict: the value is replaced in
    place when the key is present, the item is appended otherwise. *)
Fixpoint dict_setitem (key : string) (value : pyval)
    (items : list (string * pyval)) : list (string * pyval) :=
  match items with
  | [] => [(key, value)]
  | (k, v) :: items' =>
      if decide (k = key) then (k, value) :: items'
      else (k, v) :: dict_setitem key value items'
  end.

(** [d[key]] *)
Fixpoint dict_get (key : string) (items : list (string * pyval)) : option pyval :=
  match items with
  | [] => None
  | (k, v) :: items' => if decide (k = key) then Some v else dict_get key items'
  end.

(** The dict built from the members of an object, in order. *)
Definition dict_of_pairs (pairs : list (string * pyval)) : list (string * pyval) :=
  foldl (λ d kv, dict_setitem kv.1 kv.2 d) [] pairs.

(** The conversion table of [json.load]: object to dict, array to list,
    string to str, number to int or float, null to [None]. *)
Fixpoint json_load (j : json) : pyval :=
  match j with
  | JNull => PyNone
  | JBool b => PyBool b
  | JInt n => PyInt n
  | JReal q => PyFloat q
  | JString s => PyStr s
  | JArray items => PyList (json_load <$> items)
  | JObject members =>
      PyDict (dict_of_pairs ((λ kv, (kv.1, json_load kv.2)) <$> members))
  end.

(** The values [json] reads back as they were written: no tuple anywhere
    (a tuple comes back as a list), and dicts with distinct keys. *)
Fixpoint json_native (v : pyval) : bool :=
  match v with
  | PyNone | PyBool _ | PyInt _ | PyFloat _ | PyStr _ => true
  | PyList items => forallb json_native items
  | PyTuple _ => false
  | PyDict items =>
      forallb (λ kv, json_native kv.2) items && bool_decide (NoDup items.*1)
  end.

(** ** JSON report *)

(** The dict objects of the interpreter, by address, and the documents of
    the files written. *)
Record world : Type := {
  heap : gmap nat (list (string * pyval));
  files : gmap string json
}.

(** [d.copy()]: a new dict object with the items of [d]. *)
Definition dict_copy (d : nat) (w : world) : option (nat * world) :=
  items ← heap w !! d;
  let new := fresh (dom (heap w)) in
  Some (new, {| heap := <[new := items]> (heap w); files := files w |}).

(** [d[key] = value] on the dict object at [d]. *)
Definition setitem (d : nat) (key : string) (value : pyval) (w : world)
    : option world :=
  items ← heap w !! d;
  Some {| heap := <[d := dict_setitem key value items]> (heap w);
          files := files w |}.

(** [with open(path, 'w') as f: json.dump(d, f, indent=2)] *)
Definition dump_to_file (d : nat) (path : string) (w : world) : option world :=
  items ← heap w !! d;
  Some {| heap := heap w;
          files := <[path := json_dump (PyDict items)]> (files w) |}.

(** [os.path.join(directory, name)] for a relative [name]. *)
Definition path_join (directory name : string) : string :=
  match String.rev directory with
  | EmptyString => name
  | String c _ =>
      if decide (c = "/"%char) then directory +:+ name
      else directory +:+ "/" +:+ name
  end.

(** [analysis_results] is the address of the dict, [now] the text of
    [datetime.now().isoformat()]; [os.makedirs] leaves no trace here. *)
Definition generate_json_report (analysis_results : nat) (output_dir : string)
    (now : string) (w : world) : option (string * world) :=
  let report_path := path_join output_dir "bottleneck_analysis.json" in
  '(report_data, w) ← dict_copy analysis_results w;
  w ← setitem report_data "timestamp" (PyStr now) w;
  w ← dump_to_file report_data report_path w;
  Some (report_path, w).

(** ** The analysis results as Python values

    The dicts of the analysis, spelled out with the keys and in the
    key order of the source. *)

(** An entry of [analysis_results['charts']]. *)
Record chart : Type := {
  title : string;
  path : string;
  chart_description : string
}.

(** What [main] has put in [analysis_results] when the reports are
    written: the two analyses when their benchmark file was found (the
    value is [None] when the file lacks the benchmark), the bottlenecks
    and the charts. *)
Record report_input : Type := {
  ri_transaction : option (option transaction_analysis_t);
  ri_sharding : option (option sharding_analysis_t);
  ri_bottlenecks : list bottleneck;
  ri_charts : list chart
}.

Class ToPy (A : Type) : Type := to_py : A → pyval.

#[global] Instance number_to_py : ToPy Q := PyFloat.

#[global] Instance option_to_py {A} `{ToPy A} : ToPy (option A) :=
  λ o, match o with Some a => to_py a | None => PyNone end.

#[global] Instance list_to_py {A} `{ToPy A} : ToPy (list A) :=
  λ l, PyList (to_py <$> l).

#[global] Instance tx_item_to_py : ToPy Tx.item :=
  λ item, PyDict [ ("tx_count", to_py (Tx.tx_count item));
                   ("throughput_tps", to_py (Tx.throughput_tps item)) ].

#[global] Instance tx_scal_to_py : ToPy Tx.scal :=
  λ item, PyDict [ ("tx_count_from", to_py (Tx.tx_count_from item));
                   ("tx_count_to", to_py (Tx.tx_count_to item));
                   ("tps_from", to_py (Tx.tps_from item));
                   ("tps_to", to_py (Tx.tps_to item));
                   ("efficiency", to_py (Tx.efficiency item)) ].

#[global] Instance tx_analysis_to_py : ToPy Tx.throughput_analysis :=
  λ a, PyDict [ ("data", to_py (Tx.data a));
                ("scalability", to_py (Tx.scalability a));
                ("min_tps", to_py (Tx.min_tps a));
                ("max_tps", to_py (Tx.max_tps a));
                ("avg_tps", to_py (Tx.avg_tps a)) ].

#[global] Instance shard_item_to_py : ToPy Shard.item :=
  λ item, PyDict [ ("shard_count", to_py (Shard.shard_count item));
                   ("throughput_sps", to_py (Shard.throughput_sps item)) ].

#[global] Instance shard_scal_to_py : ToPy Shard.scal :=
  λ item, PyDict [ ("shard_count_from", to_py (Shard.shard_count_from item));
                   ("shard_count_to", to_py (Shard.shard_count_to item));
                   ("sps_from", to_py (Shard.sps_from item));
                   ("sps_to", to_py (Shard.sps_to item));
                   ("efficiency", to_py (Shard.efficiency item)) ].

#[global] Instance creation_analysis_to_py : ToPy Shard.creation_analysis :=
  λ a, PyDict [ ("data", to_py (Shard.data a));
                ("scalability", to_py (Shard.scalability a));
                ("min_sps", to_py (Shard.min_sps a));
                ("max_sps", to_py (Shard.max_sps a));
                ("avg_sps", to_py (Shard.avg_sps a)) ].

#[global] Instance transaction_analysis_to_py : ToPy transaction_analysis_t :=
  λ a, PyDict [ ("throughput_analysis", to_py (throughput_analysis a)) ].

#[global] Instance sharding_analysis_to_py : ToPy sharding_analysis_t :=
  λ a, PyDict [ ("creation_analysis", to_py (creation_analysis a));
                ("cross_shard_analysis", to_py (cross_shard_analysis a)) ].

#[global] Instance chart_to_py : ToPy chart :=
  λ c, PyDict [ ("title", PyStr (title c));
                ("path", PyStr (path c));
                ("description", PyStr (chart_description c)) ].

Definition type_name (t : bottleneck_type) : string :=
  match t with
  | transaction_scalability => "transaction_scalability"
  | shard_creation_scalability => "shard_creation_scalability"
  | cross_shard_scalability => "cross_shard_scalability"
  | cpu_hotspot => "cpu_hotspot"
  | memory_leak => "memory_leak"
  | memory_hotspot => "memory_hotspot"
  end.

Definition severity_name (s : severity_t) : string :=
  match s with
  | high => "high"
  | medium => "medium"
  | low => "low"
  end.

Section analysis_results_value.
(** The text an f-string gives for a description. *)
Variable render : description_t → string.

#[local] Instance bottleneck_to_py : ToPy bottleneck :=
  λ b, PyDict [ ("type", PyStr (type_name (type b)));
                ("severity", PyStr (severity_name (severity b)));
                ("description", PyStr (render (description b)));
                ("recommendation", PyStr (recommendation b)) ].

(** The items of the [analysis_results] dict. *)
Definition analysis_results_items (r : report_input) : list (string * pyval) :=
  match ri_transaction r with
  | Some a => [ ("transaction_analysis", to_py a) ]
  | None => []
  end ++
  match ri_sharding r with
  | Some a => [ ("sharding_analysis", to_py a) ]
  | None => []
  end ++
  [ ("bottlenecks", to_py (ri_bottlenecks r));
    ("charts", to_py (ri_charts r)) ].
End analysis_results_value.

(** ** Charts *)

(** What a figure is drawn from: the arguments of [plt.plot] and of
    [plt.bar].  The bar labels of the scalability chart, the f-strings
    [f"{from}-{to}"], are kept as their interpolated values. *)
Inductive figure : Type :=
| line_plot (xs ys : list Q)
| range_bars (ranges : list (Q * Q)) (heights : list Q)
| type_bars (types : list bottleneck_type) (counts : list nat).

(** [if t in bottleneck_types: bottleneck_types[t] += 1 else: bottleneck_types[t] = 1]
    on the items of the dict, in insertion order. *)
Fixpoint count_type (t : bottleneck_type)
    (bottleneck_types : list (bottleneck_type * nat))
    : list (bottleneck_type * nat) :=
  match bottleneck_types with
  | [] => [(t, 1%nat)]
  | (k, n) :: rest =>
      if decide (k = t) then (k, S n) :: rest
      else (k, n) :: count_type t rest
  end.

(** [bottleneck_types = {}; for bottleneck in bottlenecks: ...] *)
Definition count_types (bottlenecks : list bottleneck)
    : list (bottleneck_type * nat) :=
  foldl (λ bottleneck_types bottleneck,
           count_type (type bottleneck) bottleneck_types) [] bottlenecks.

(** The charts appended by one guarded block: none when the guard's
    object is absent or [None]. *)
Definition charts_if {A B} (o : option A) (body : A → list B) : list B :=
  match o with
  | Some a => body a
  | None => []
  end.

(** [if 'data' in d and d['data']:] and the like: the test of a list. *)
Definition if_nonempty {A B} (l : list A) (body : list B) : list B :=
  match l with
  | [] => []
  | _ :: _ => body
  end.

(** Every chart the function appends, paired with the figure it has saved
    at the chart's path just before.  [bottlenecks] is
    [analysis_results['bottlenecks']], the empty list when the key is
    absent; [os.makedirs] leaves no trace here. *)
Definition generate_charts (analysis_results : analysis_results_t)
    (bottlenecks : list bottleneck) (output_dir : string)
    : list (chart * figure) :=
  let charts := [] in
  let charts := charts ++
    charts_if (transaction_analysis analysis_results) (fun tx_analysis =>
      charts_if (throughput_analysis tx_analysis) (fun throughput =>
        if_nonempty (Tx.data throughput) (
          let tx_counts := Tx.tx_count <$> Tx.data throughput in
          let tps_values := Tx.throughput_tps <$> Tx.data throughput in
          let chart_path := path_join output_dir "transaction_throughput.png" in
          [ ({| title := "トランザクション数とスループットの関係";
                path := chart_path;
                chart_description := "トランザクション数の増加に対するスループットの変化を示します。" |},
             line_plot tx_counts tps_values) ] ++
          if_nonempty (Tx.scalability throughput) (
            let tx_pairs :=
              (λ item, (Tx.tx_count_from item, Tx.tx_count_to item))
                <$> Tx.scalability throughput in
            let efficiency := Tx.efficiency <$> Tx.scalability throughput in
            let chart_path := path_join output_dir "transaction_scalability.png" in
            [ ({| title := "トランザクション処理のスケーラビリティ";
                  path := chart_path;
                  chart_description := "トランザクション数の増加に対するスケーラビリティ効率を示します。効率が1.0に近いほど理想的です。" |},
               range_bars tx_pairs efficiency) ])))) in
  let charts := charts ++
    charts_if (sharding_analysis analysis_results) (fun shard_analysis =>
      charts_if (creation_analysis shard_analysis) (fun creation =>
        if_nonempty (Shard.data creation) (
          let shard_counts := Shard.shard_count <$> Shard.data creation in
          let sps_values := Shard.throughput_sps <$> Shard.data creation in
          let chart_path := path_join output_dir "shard_creation_performance.png" in
          [ ({| title := "シャード作成のパフォーマンス";
                path := chart_path;
                chart_description := "シャード数の増加に対する作成スループットの変化を示します。" |},
             line_plot shard_counts sps_values) ])) ++
      charts_if (cross_shard_analysis shard_analysis) (fun cross_shard =>
        if_nonempty (Tx.data cross_shard) (
          let tx_counts := Tx.tx_count <$> Tx.data cross_shard in
          let tps_values := Tx.throughput_tps <$> Tx.data cross_shard in
          let chart_path := path_join output_dir "cross_shard_performance.png" in
          [ ({| title := "クロスシャードトランザクションのパフォーマンス";
                path := chart_path;
                chart_description := "クロスシャードトランザクション数の増加に対するスループットの変化を示します。" |},
             line_plot tx_counts tps_values) ]))) in
  let charts := charts ++
    if_nonempty bottlenecks (
      let bottleneck_types := count_types bottlenecks in
      if_nonempty bottleneck_types (
        let types := bottleneck_types.*1 in
        let counts := bottleneck_types.*2 in
        let chart_path := path_join output_dir "bottleneck_summary.png" in
        [ ({| title := "ボトルネックの概要";
              path := chart_path;
              chart_description := "検出されたボトルネックのタイプごとの数を示します。" |},
           type_bars types counts) ])) in
  charts.

(** [p[p.rfind('/') + 1:]] when [p] holds a [/]. *)
Fixpoint after_last_slash (p : string) : option string :=
  match p with
  | EmptyString => None
  | String c p' =>
      match after_last_slash p' with
      | Some tail => Some tail
      | None => if decide (c = "/"%char) then Some p' else None
      end
  end.

(** [os.path.basename(p)]: what follows the last [/], all of [p] when it
    holds none. *)
Definition basename (p : string) : string := default p (after_last_slash p).

(** [main]: the entries of [analysis_results['charts']], the charts with
    their paths cut down to the file name. *)
Definition chart_entries (charts : list chart) : list chart :=
  (λ chart, {| title := title chart;
               path := basename (path chart);
               chart_description := chart_description chart |}) <$> charts.

(** ** Report fragments *)

(** The rating of a row of the transaction scalability table, the same in
    [generate_text_report] and [generate_html_report]. *)
Definition evaluation (efficiency : Q) : string :=
  if Qle_bool 0.9 efficiency then "良好"
  else if Qle_bool 0.7 efficiency then "許容範囲"
  else "改善が必要".

(** The lines of the recommendations section, the same in both reports
    and in what [main] prints. *)
Definition recommendations (bottlenecks : list bottleneck) : list string :=
  match bottlenecks with
  | [] => [ "現在のパフォーマンスは良好です。定期的なモニタリングを継続してください。" ]
  | _ :: _ => recommendation <$> bottlenecks
  end.

(** ** Input files *)

(** [max(files, key=os.path.getmtime)] on a list that is not empty, each
    path with its modification time: a later item replaces the best one
    only when it is strictly newer. *)
Definition max_by_mtime (first : string * Q) (rest : list (string * Q))
    : string * Q :=
  foldl (λ best file, if Qlt_le_dec best.2 file.2 then file else best)
        first rest.

(** [files] is what [Path(directory).glob(pattern)] lists, in its order. *)
Definition find_latest_files (files : list (string * Q)) : option string :=
  match files with
  | [] => None
  | first :: rest => Some (max_by_mtime first rest).1
  end.

(** ** The command line and [main] *)

(** The choices of [--type] and of [--format]. *)
Inductive analysis_type : Set :=
| type_transaction | type_sharding | type_storage | type_network | type_all.

Inductive report_format : Set :=
| format_text | format_json | format_html | format_all.

#[global] Instance analysis_type_eq_dec : EqDecision analysis_type.
Proof. solve_decision. Defined.

#[global] Instance report_format_eq_dec : EqDecision report_format.
Proof. solve_decision. Defined.

(** The namespace [parse_args] returns. *)
Record args_t : Type := {
  args_benchmark_dir : string;
  args_profile_dir : string;
  args_output_dir : string;
  args_type : analysis_type;
  args_format : report_format;
  args_threshold : Q
}.

(** What [parse_benchmark_results] returns for a file that decodes: the
    dict, taken to be a JSON object, with the two keys the analyzers read
    and whether it holds any other key. *)
Record benchmark_file : Type := {
  document : benchmark_results;
  other_keys : bool
}.

(** The truth value of the dict: whether it has a key. *)
Definition truthy (file : benchmark_file) : bool :=
  other_keys file
  || bool_decide (is_Some (transaction_benchmark (document file)))
  || bool_decide (is_Some (sharding_benchmark (document file))).

(** What [main] has done when the reports have been written: the
    [analysis_results] dict, the figures saved, and the reports with
    their labels. *)
Record run : Type := {
  analysis : report_input;
  figures : list (chart * figure);
  reports : list (string * string)
}.

Section main.
(** The files [Path(directory).glob(pattern)] lists, each with its
    modification time. *)
Variable glob : string → string → list (string * Q).
(** [parse_benchmark_results] on a path the listing gave: what [json.load]
    decodes, [None] when it raises. *)
Variable parse_benchmark_results : string → option benchmark_file.
(** The content of a text file, [None] when it cannot be read. *)
Variable read_text : string → option text.
Variable py_float : text → option Q.

(** [if args.type in [kind, 'all']: file = find_latest_files(...);
    if file: benchmark_results[kind] = parse_benchmark_results(file)]: the
    outer [None] is the key left out. *)
Definition read_benchmark (args : args_t) (kind : analysis_type)
    (pattern : string) : option (option benchmark_file) :=
  if bool_decide (args_type args ∈ [kind; type_all]) then
    file ← find_latest_files (glob (args_benchmark_dir args) pattern);
    Some (parse_benchmark_results file)
  else None.

(** [if kind in benchmark_results and benchmark_results[kind]:
    analysis_results[key] = analyze(benchmark_results[kind])]: the outer
    [None] is the key left out. *)
Definition analyze_if_read {A} (read : option (option benchmark_file))
    (analyze : option benchmark_results → result (option A))
    : result (option (option A)) :=
  match read with
  | Some (Some file) =>
      if truthy file then
        analysis ← analyze (Some (document file));
        ret (Some analysis)
      else ret None
  | _ => ret None
  end.

(** [reports = []; if args.format in [...]: reports.append((label, generate_..._report(...)))],
    each generator returning the path it has written. *)
Definition report_files (args : args_t) : list (string * string) :=
  let reports := [] in
  let reports := reports ++
    if bool_decide (args_format args ∈ [format_text; format_all])
    then [ ("テキスト", path_join (args_output_dir args) "bottleneck_analysis.txt") ]
    else [] in
  let reports := reports ++
    if bool_decide (args_format args ∈ [format_json; format_all])
    then [ ("JSON", path_join (args_output_dir args) "bottleneck_analysis.json") ]
    else [] in
  let reports := reports ++
    if bool_decide (args_format args ∈ [format_html; format_all])
    then [ ("HTML", path_join (args_output_dir args) "bottleneck_analysis.html") ]
    else [] in
  reports.

(** [main] for the arguments [parse_args] returned.  The storage and the
    network file are read and never used; what is printed is left out. *)
Definition main (args : args_t) : result run :=
  let transaction_read :=
    read_benchmark args type_transaction "transaction_benchmark_*.json" in
  let sharding_read :=
    read_benchmark args type_sharding "sharding_benchmark_*.json" in
  let cpu_profile :=
    cpu_profile_file ← find_latest_files (glob (args_profile_dir args) "cpu_report_*.txt");
    parse_cpu_profile py_float (read_text cpu_profile_file) in
  let memory_profile :=
    memory_profile_file ← find_latest_files (glob (args_profile_dir args) "memory_profile_*.txt");
    parse_memory_profile (read_text memory_profile_file) in
  transaction_analysis ←
    analyze_if_read transaction_read analyze_transaction_performance;
  sharding_analysis ←
    analyze_if_read sharding_read analyze_sharding_performance;
  let analysis_results :=
    {| transaction_analysis := mjoin transaction_analysis;
       sharding_analysis := mjoin sharding_analysis |} in
  bottlenecks ←
    identify_bottlenecks analysis_results cpu_profile memory_profile
      (args_threshold args);
  let charts := generate_charts analysis_results bottlenecks (args_output_dir args) in
  ret {| analysis := {| ri_transaction := transaction_analysis;
                        ri_sharding := sharding_analysis;
                        ri_bottlenecks := bottlenecks;
                        ri_charts := chart_entries charts.*1 |};
         figures := charts;
         reports := report_files args |}.
End main.

(** * Specification vocabulary and sample inputs *)

(** No division of the loop has a zero divisor: every sample that is the
    "from" of a pair has a nonzero size and throughput, and every "to"
    sample a nonzero size (the size ratio is the last divisor). *)
Definition divisors_nonzero {I} (size rate : I → Q) (series : list I) : Prop :=
  ∀ i from to,
    series !! i = Some from → series !! S i = Some to →
    ¬ size from == 0 ∧ ¬ rate from == 0 ∧ ¬ size to == 0.

(** The scalability sequence the specification describes for a series:
    one entry less than samples, the [i]-th entry built from samples
    [i-1] and [i]. *)
Definition adjacent_pairs {I S} (size rate : I → Q) (mk : Q → Q → Q → Q → Q → S)
    (series : list I) (scal : list S) : Prop :=
  length scal = (length series - 1)%nat ∧
  ∀ i, (1 ≤ i ≤ length series - 1)%nat →
    ∃ from to,
      series !! (i - 1)%nat = Some from ∧ series !! i = Some to ∧
      scal !! (i - 1)%nat =
        Some (mk (size from) (size to) (rate from) (rate to)
                 ((rate to / rate from) / (size to / size from))).

(** A benchmark file with a transaction series only. *)
Definition transaction_document (series : list Tx.item) : benchmark_results :=
  {| transaction_benchmark := Some {| throughput := Some series |};
     sharding_benchmark := None |}.

(** A benchmark file with a shard-creation series only. *)
Definition creation_document (series : list Shard.item) : benchmark_results :=
  {| transaction_benchmark := None;
     sharding_benchmark :=
       Some {| shard_creation := Some series;
               cross_shard_transactions := None |} |}.

(** A benchmark file with a cross-shard series only. *)
Definition cross_shard_document (series : list Tx.item) : benchmark_results :=
  {| transaction_benchmark := None;
     sharding_benchmark :=
       Some {| shard_creation := None;
               cross_shard_transactions := Some series |} |}.

(** A benchmark file with the three series. *)
Definition full_document (tx : list Tx.item) (creation : list Shard.item)
    (cross : list Tx.item) : benchmark_results :=
  {| transaction_benchmark := Some {| throughput := Some tx |};
     sharding_benchmark :=
       Some {| shard_creation := Some creation;
               cross_shard_transactions := Some cross |} |}.

(** The series [(100, 1000), (200, 1500), (400, 2000)]. *)
Definition sample_tx_series : list Tx.item :=
  [ {| Tx.tx_count := 100; Tx.throughput_tps := 1000 |};
    {| Tx.tx_count := 200; Tx.throughput_tps := 1500 |};
    {| Tx.tx_count := 400; Tx.throughput_tps := 2000 |} ].

(** The series [(1, 10), (2, 20)] of shard counts. *)
Definition sample_shard_series : list Shard.item :=
  [ {| Shard.shard_count := 1; Shard.throughput_sps := 10 |};
    {| Shard.shard_count := 2; Shard.throughput_sps := 20 |} ].

(** A series whose first sample has workload size 0. *)
Definition zero_size_series : list Tx.item :=
  [ {| Tx.tx_count := 0; Tx.throughput_tps := 50 |};
    {| Tx.tx_count := 100; Tx.throughput_tps := 80 |} ].


#[global] Instance Qlt_decision (x y : Q) : Decision (x < y).
Proof.
  destruct (Qlt_le_dec x y) as [H|H]; [left; exact H|right].
  intros H'. exact (Qlt_not_le _ _ H' H).
Defined.

(** The bottlenecks of one type, in their order in the list. *)
Definition of_type (t : bottleneck_type) (bs : list bottleneck) : list bottleneck :=
  filter (λ b, type b = t) bs.

(** The scalability samples of each facet; none when the facet is absent. *)
Definition transaction_samples (ar : analysis_results_t) : list Tx.scal :=
  match transaction_analysis ar with
  | Some tx_analysis =>
      match throughput_analysis tx_analysis with
      | Some throughput => Tx.scalability throughput
      | None => []
      end
  | None => []
  end.

Definition creation_samples (ar : analysis_results_t) : list Shard.scal :=
  match sharding_analysis ar with
  | Some shard_analysis =>
      match creation_analysis shard_analysis with
      | Some creation => Shard.scalability creation
      | None => []
      end
  | None => []
  end.

Definition cross_shard_samples (ar : analysis_results_t) : list Tx.scal :=
  match sharding_analysis ar with
  | Some shard_analysis =>
      match cross_shard_analysis shard_analysis with
      | Some cross_shard => Tx.scalability cross_shard
      | None => []
      end
  | None => []
  end.

Definition cpu_hotspots_of (cpu_profile : option cpu_profile_t) : list cpu_hotspot_t :=
  match cpu_profile with
  | Some p => hotspots p
  | None => []
  end.

Definition heap_of (memory_profile : option memory_profile_t) : option heap_summary_t :=
  match memory_profile with
  | Some p => heap_summary p
  | None => None
  end.

Definition memory_hotspots_of (memory_profile : option memory_profile_t)
    : list memory_hotspot_t :=
  match memory_profile with
  | Some p => memory_hotspots p
  | None => []
  end.

(** [heap['total_allocs'] - heap['total_frees']] *)
Definition leak_count_of (heap : heap_summary_t) : Z :=
  (Z.of_N (total_allocs heap) - Z.of_N (total_frees heap))%Z.

(** The leak test of the specification: a positive leak count whose share
    of the allocations exceeds [threshold / 100]. *)
Definition leaks (threshold : Q) (heap : heap_summary_t) : Prop :=
  (0 < leak_count_of heap)%Z ∧
  threshold / 100 <
    inject_Z (leak_count_of heap) / inject_Z (Z.of_N (total_allocs heap)).

#[global] Instance leaks_decision threshold heap : Decision (leaks threshold heap).
Proof. unfold leaks. apply and_dec; apply _. Defined.

(** What the leak rule appends for a memory profile. *)
Definition leak_findings (threshold : Q) (memory_profile : option memory_profile_t)
    : list bottleneck :=
  match heap_of memory_profile with
  | Some heap =>
      match memory_leak_rule threshold heap with
      | inl found => found
      | inr _ => []
      end
  | None => []
  end.

(** One bottleneck of type [t] per sample below the cutoff, in the order
    of the samples, [high] exactly for an efficiency below 0.5 and
    [medium] otherwise. *)
Definition scalability_findings {S} (efficiency : S → Q) (t : bottleneck_type)
    (threshold : Q) (samples : list S) (found : list bottleneck) : Prop :=
  Forall2
    (λ item b,
       type b = t ∧
       (severity b = high ↔ efficiency item < 0.5) ∧
       (severity b = medium ↔ ¬ efficiency item < 0.5))
    (filter (λ item, efficiency item < 1.0 - threshold / 100) samples)
    found.

(** One [cpu_hotspot] bottleneck per hotspot among the first five whose
    overhead exceeds the threshold, in the order of the hotspots. *)
Definition cpu_findings (threshold : Q) (hotspots : list cpu_hotspot_t)
    (found : list bottleneck) : Prop :=
  Forall2
    (λ h b,
       type b = cpu_hotspot ∧
       description b = cpu_hotspot_text (overhead h) (function h) ∧
       (severity b = high ↔ 30 < overhead h) ∧
       (severity b = medium ↔ 15 < overhead h ∧ overhead h <= 30) ∧
       (severity b = low ↔ overhead h <= 15))
    (filter (λ h, threshold < overhead h) (take 5 hotspots))
    found.

(** Analysis results whose only content is one scalability sample of the
    given efficiency, in the transaction, shard-creation or cross-shard
    facet. *)
Definition tx_sample (efficiency : Q) : Tx.scal :=
  {| Tx.tx_count_from := 100; Tx.tx_count_to := 200;
     Tx.tps_from := 1000; Tx.tps_to := 2000 * efficiency;
     Tx.efficiency := efficiency |}.

Definition shard_sample (efficiency : Q) : Shard.scal :=
  {| Shard.shard_count_from := 1; Shard.shard_count_to := 2;
     Shard.sps_from := 10; Shard.sps_to := 20 * efficiency;
     Shard.efficiency := efficiency |}.

Definition tx_analysis_of (samples : list Tx.scal) : Tx.throughput_analysis :=
  {| Tx.data := []; Tx.scalability := samples;
     Tx.min_tps := 0; Tx.max_tps := 0; Tx.avg_tps := 0 |}.

Definition creation_analysis_of (samples : list Shard.scal) : Shard.creation_analysis :=
  {| Shard.data := []; Shard.scalability := samples;
     Shard.min_sps := 0; Shard.max_sps := 0; Shard.avg_sps := 0 |}.

Definition transaction_only (efficiency : Q) : analysis_results_t :=
  {| transaction_analysis :=
       Some {| throughput_analysis := Some (tx_analysis_of [tx_sample efficiency]) |};
     sharding_analysis := None |}.

Definition creation_only (efficiency : Q) : analysis_results_t :=
  {| transaction_analysis := None;
     sharding_analysis :=
       Some {| creation_analysis :=
                 Some (creation_analysis_of [shard_sample efficiency]);
               cross_shard_analysis := None |} |}.

Definition cross_shard_only (efficiency : Q) : analysis_results_t :=
  {| transaction_analysis := None;
     sharding_analysis :=
       Some {| creation_analysis := None;
               cross_shard_analysis :=
                 Some (tx_analysis_of [tx_sample efficiency]) |} |}.

Definition no_analysis : analysis_results_t :=
  {| transaction_analysis := None; sharding_analysis := None |}.

(** A memory profile with the given heap totals and no leak block. *)
Definition heap_only (allocs frees : N) : memory_profile_t :=
  {| heap_summary :=
       Some {| total_allocs := allocs; total_frees := frees; total_bytes := 0 |};
     memory_hotspots := [] |}.

(** The function a [cpu_hotspot] bottleneck describes. *)
Definition described_function (b : bottleneck) : text :=
  match description b with
  | cpu_hotspot_text _ f => f
  | memory_hotspot_text f _ => f
  | _ => []
  end.

(** A CPU report with six entries; the largest overhead comes last. *)
Definition six_hotspots_report : text :=
  txt "# Overhead  Command  Shared Object  Symbol" ++ [newline] ++
  txt "    20.00%  shardx  shardx  [.] validate" ++ [newline] ++
  txt "    12.00%  shardx  shardx  [.] route" ++ [newline] ++
  txt "    35.00%  shardx  shardx  [.] hash" ++ [newline] ++
  txt "    11.00%  shardx  shardx  [.] encode" ++ [newline] ++
  txt "    16.00%  shardx  shardx  [.] decode" ++ [newline] ++
  txt "    90.00%  shardx  shardx  [.] commit" ++ [newline].

Fixpoint take_while (p : ascii → bool) (s : text) : text :=
  match s with
  | c :: s' => if p c then c :: take_while p s' else []
  | [] => []
  end.

Definition non_space (c : ascii) : bool := negb (is_space c).

(** The whitespace-separated fields of a line, Python's [line.split()]:
    the maximal runs of characters that are not whitespace. *)
Fixpoint fields (s : text) : list text :=
  match s with
  | [] => []
  | c :: s' =>
      if is_space c then fields s'
      else
        match s' with
        | c' :: _ =>
            if is_space c' then [c] :: fields s'
            else
              match fields s' with
              | w :: ws => (c :: w) :: ws
              | [] => [[c]]
              end
        | [] => [[c]]
        end
  end.

(** A text without whitespace at either end. *)
Definition stripped (s : text) : Prop :=
  (∀ c, head s = Some c → is_space c = false) ∧
  (∀ c, last s = Some c → is_space c = false).



(** A line that is empty or made of whitespace. *)
Definition blank (line : text) : Prop := Forall (λ c, is_space c = true) line.



(** Analysis results with a transaction analysis, a sharding file without
    the benchmark, one bottleneck and one chart. *)
Definition sample_report_input : report_input :=
  {| ri_transaction :=
       Some (Some {| throughput_analysis :=
                       Some (tx_analysis_of [tx_sample 0.4]) |});
     ri_sharding := Some None;
     ri_bottlenecks := tx_scalability_rule 10.0 [tx_sample 0.4];
     ri_charts :=
       [ {| title := "bottlenecks"; path := "bottleneck_summary.png";
            chart_description := "counts by type" |} ] |}.

(** A rendering of descriptions that keeps the type of finding only. *)
Definition sample_render (d : description_t) : string :=
  match d with
  | tx_scalability_text _ _ _ => "transaction scalability"
  | shard_scalability_text _ _ _ => "shard creation scalability"
  | cross_shard_scalability_text _ _ _ => "cross-shard scalability"
  | cpu_hotspot_text _ _ => "cpu hotspot"
  | memory_leak_text _ _ => "memory leak"
  | memory_hotspot_text _ _ => "memory hotspot"
  end.

(** An interpreter state whose dict object 7 is [sample_report_input]. *)
Definition sample_world : world :=
  {| heap := {[ 7%nat := analysis_results_items sample_render sample_report_input ]};
     files := ∅ |}.

(** A memory report with heap totals and three loss records; the second
    record has a frame the function pattern matches. *)
Definition sample_memory_report : text :=
  txt "==123== Heap Summary:" ++ [newline] ++
  txt "==123==     in use at exit: 1,024 bytes in 3 blocks" ++ [newline] ++
  txt "==123==   total heap usage: 1,000 allocs, 700 frees, 65,536 bytes allocated" ++ [newline] ++
  txt "==123==" ++ [newline] ++
  txt "==123== 16 bytes in 1 blocks are definitely lost in loss record 1 of 3" ++ [newline] ++
  txt "==123==    at 0x4C2FB0F: malloc (vg_replace_malloc.c:299)" ++ [newline] ++
  txt "==123==    by 0x4005E1: main (test.c:10)" ++ [newline] ++
  txt "==123==" ++ [newline] ++
  txt "==123== 1,000 bytes in 2 blocks are definitely lost in loss record 2 of 3" ++ [newline] ++
  txt "==123==    at 0x4C2FB0F: malloc (vg_replace_malloc.c:299)" ++ [newline] ++
  txt "==123==    by 12: make_shard (shard.c:10)" ++ [newline] ++
  txt "==123==" ++ [newline] ++
  txt "==123== 8 bytes in 1 blocks are possibly lost in loss record 3 of 3" ++ [newline] ++
  txt "==123==    at 0x4C2FB0F: malloc (vg_replace_malloc.c:299)" ++ [newline] ++
  txt "==123==" ++ [newline] ++ [newline] ++
  txt "==123== LEAK SUMMARY:" ++ [newline].

(** The statistics of a series of values: [lo] and [hi] are values of the
    series that bound all of them, and [avg] is their mean. *)
Definition statistics_of (values : list Q) (lo hi avg : Q) : Prop :=
  lo ∈ values ∧ hi ∈ values ∧
  (∀ v, v ∈ values → lo <= v ∧ v <= hi) ∧
  lo <= avg ∧ avg <= hi ∧
  avg * py_len values == py_sum values.

(** A sharding file whose creation series has a zero size and whose
    cross-shard series is sound. *)
Definition faulty_creation_document : benchmark_results :=
  {| transaction_benchmark := None;
     sharding_benchmark :=
       Some {| shard_creation :=
                 Some [ {| Shard.shard_count := 0; Shard.throughput_sps := 10 |};
                        {| Shard.shard_count := 2; Shard.throughput_sps := 20 |} ];
               cross_shard_transactions := Some sample_tx_series |} |}.

(** The datum a bottleneck reports, for each kind of finding. *)
Definition caused_by (ar : analysis_results_t) (cpu : option cpu_profile_t)
    (mp : option memory_profile_t) (thr : Q) (b : bottleneck) : Prop :=
  match type b with
  | transaction_scalability =>
      ∃ item, item ∈ transaction_samples ar ∧
              Tx.efficiency item < 1.0 - thr / 100 ∧
              severity b = scalability_severity (Tx.efficiency item)
  | shard_creation_scalability =>
      ∃ item, item ∈ creation_samples ar ∧
              Shard.efficiency item < 1.0 - thr / 100 ∧
              severity b = scalability_severity (Shard.efficiency item)
  | cross_shard_scalability =>
      ∃ item, item ∈ cross_shard_samples ar ∧
              Tx.efficiency item < 1.0 - thr / 100 ∧
              severity b = scalability_severity (Tx.efficiency item)
  | cpu_hotspot =>
      ∃ h, h ∈ take 5 (cpu_hotspots_of cpu) ∧ thr < overhead h ∧
           severity b = cpu_severity (overhead h)
  | memory_leak =>
      ∃ heap, heap_of mp = Some heap ∧ leaks thr heap ∧ severity b = high
  | memory_hotspot =>
      ∃ h, h ∈ take 5 (memory_hotspots_of mp) ∧ severity b = medium
  end.

(** The texts a pattern matches, without the priorities of the matcher. *)
Fixpoint lang (r : regex) (w : text) : Prop :=
  match r with
  | Eps => w = []
  | Chr c => w = [c]
  | Class p => ∃ c, w = [c] ∧ p c = true
  | Plus p => w ≠ [] ∧ Forall (λ c, p c = true) w
  | LazyStar p => Forall (λ c, p c = true) w
  | Cat r1 r2 => ∃ w1 w2, w = w1 ++ w2 ∧ lang r1 w1 ∧ lang r2 w2
  | Alt r1 r2 => lang r1 w ∨ lang r2 w
  | Group _ r => lang r w
  | EndZ => w = []
  end.

(** [u in s] for texts. *)
Definition occurs_in (u s : text) : Prop := ∃ pre post, s = pre ++ u ++ post.

Definition headerless_cpu_report : text :=
  txt "    45.00%  node  shardx  [.] process_transaction".

Definition uppercase_memory_report : text :=
  txt "==1== HEAP SUMMARY:" ++ [newline] ++
  txt "==1==   total heap usage: 10 allocs, 9 frees, 1,024 bytes allocated" ++ [newline].

(** The bottleneck types in the order of the detector's blocks. *)
Definition block_order : list bottleneck_type :=
  [ transaction_scalability; shard_creation_scalability;
    cross_shard_scalability; cpu_hotspot; memory_leak; memory_hotspot ].

(** The total of the counts kept under key [t]. *)
Definition count_of (t : bottleneck_type) (d : list (bottleneck_type * nat)) : nat :=
  sum_list (filter (λ kv, kv.1 = t) d).*2.

(** A list of bottlenecks of every type, two of them CPU hotspots. *)
Definition mixed_bottlenecks : list bottleneck :=
  let b t := {| type := t; severity := medium;
                description := memory_leak_text 1 1; recommendation := "" |} in
  [ b cpu_hotspot; b transaction_scalability; b cpu_hotspot; b memory_hotspot ].

(** The file names [generate_charts] saves figures under, in the order of
    its blocks. *)
Definition chart_names : list string :=
  [ "transaction_throughput.png"; "transaction_scalability.png";
    "shard_creation_performance.png"; "cross_shard_performance.png";
    "bottleneck_summary.png" ].

(** The values of [f] on the adjacent samples of a series, pair by pair. *)
Definition pairwise {I A} (f : I → I → A) (series : list I) : list A :=
  zip_with f series (drop 1 series).

(** The series of a decoded benchmark file, when it holds them. *)
Definition tx_series_of (b : option benchmark_results) : option (list Tx.item) :=
  doc ← b; td ← transaction_benchmark doc; throughput td.

Definition creation_series_of (b : option benchmark_results)
    : option (list Shard.item) :=
  doc ← b; sd ← sharding_benchmark doc; shard_creation sd.

Definition cross_series_of (b : option benchmark_results) : option (list Tx.item) :=
  doc ← b; sd ← sharding_benchmark doc; cross_shard_transactions sd.

(** The throughputs of a series against its sizes. *)
Definition tx_line (series : list Tx.item) : figure :=
  line_plot (Tx.tx_count <$> series) (Tx.throughput_tps <$> series).

Definition shard_line (series : list Shard.item) : figure :=
  line_plot (Shard.shard_count <$> series) (Shard.throughput_sps <$> series).

(** One bar per pair of adjacent samples, as high as the ratio of their
    throughputs over the ratio of their sizes. *)
Definition tx_bars (series : list Tx.item) : figure :=
  range_bars
    (pairwise (λ x y, (Tx.tx_count x, Tx.tx_count y)) series)
    (pairwise (λ x y, (Tx.throughput_tps y / Tx.throughput_tps x) /
                      (Tx.tx_count y / Tx.tx_count x)) series).

(** The decoded benchmark file [main] hands to an analyzer: the newest
    file of the pattern, when the type asks for it, it decodes, and the
    dict has a key. *)
Definition analysed_file (glob : string → string → list (string * Q))
    (parse : string → option benchmark_file) (args : args_t)
    (kind : analysis_type) (pattern : string) : option benchmark_results :=
  if decide (args_type args = kind ∨ args_type args = type_all) then
    path ← find_latest_files (glob (args_benchmark_dir args) pattern);
    file ← parse path;
    if truthy file then Some (document file) else None
  else None.

Definition analysed_transaction_file glob parse args : option benchmark_results :=
  analysed_file glob parse args type_transaction "transaction_benchmark_*.json".

Definition analysed_sharding_file glob parse args : option benchmark_results :=
  analysed_file glob parse args type_sharding "sharding_benchmark_*.json".

(** A series, when present, that the scalability analysis accepts. *)
Definition analysable {I} (size rate : I → Q) (series : option (list I)) : Prop :=
  ∀ s, series = Some s → s ≠ [] ∧ divisors_nonzero size rate s.

(** The profiles [main] hands to the detector. *)
Definition latest_cpu_profile (glob : string → string → list (string * Q))
    (read_text : string → option text) (py_float : text → option Q)
    (args : args_t) : option cpu_profile_t :=
  path ← find_latest_files (glob (args_profile_dir args) "cpu_report_*.txt");
  parse_cpu_profile py_float (read_text path).

Definition latest_memory_profile (glob : string → string → list (string * Q))
    (read_text : string → option text) (args : args_t) : option memory_profile_t :=
  path ← find_latest_files (glob (args_profile_dir args) "memory_profile_*.txt");
  parse_memory_profile (read_text path).

(** A directory with two transaction files, the second the newer one, and
    a CPU report. *)
Definition sample_glob (directory pattern : string) : list (string * Q) :=
  if decide (pattern = "transaction_benchmark_*.json") then
    [ ("transaction_benchmark_1.json", 1); ("transaction_benchmark_2.json", 2) ]
  else if decide (pattern = "cpu_report_*.txt") then [ ("cpu_report_1.txt", 1) ]
  else [].

(** The older file holds a series with a zero size, the newer one a sound
    series. *)
Definition sample_parse (path : string) : option benchmark_file :=
  if decide (path = "transaction_benchmark_1.json") then
    Some {| document := transaction_document zero_size_series; other_keys := false |}
  else
    Some {| document := transaction_document sample_tx_series; other_keys := false |}.

Definition sample_read_text (path : string) : option text :=
  Some six_hotspots_report.

Definition sample_args (t : analysis_type) : args_t :=
  {| args_benchmark_dir := "target/benchmark";
     args_profile_dir := "target/profile";
     args_output_dir := "target/analysis";
     args_type := t;
     args_format := format_all;
     args_threshold := 10 |}.

(** The advice the detector attaches to a finding of each type. *)
Definition advice (t : bottleneck_type) : string :=
  match t with
  | transaction_scalability => "並列処理の最適化、バッチ処理の導入、またはリソース競合の削減を検討してください。"
  | shard_creation_scalability => "シャード作成プロセスの並列化、メタデータ管理の最適化を検討してください。"
  | cross_shard_scalability => "シャード間通信の最適化、バッチ処理の導入、またはシャード配置アルゴリズムの改善を検討してください。"
  | cpu_hotspot => "この関数のアルゴリズムの最適化、キャッシュの活用、または並列処理の導入を検討してください。"
  | memory_leak => "リソース管理を見直し、すべてのメモリが適切に解放されていることを確認してください。"
  | memory_hotspot => "この関数のメモリ管理を見直し、すべてのリソースが適切に解放されていることを確認してください。"
  end.

(** The sample directory after the older transaction file was touched. *)
Definition touched_glob (directory pattern : string) : list (string * Q) :=
  if decide (pattern = "transaction_benchmark_*.json") then
    [ ("transaction_benchmark_1.json", 3); ("transaction_benchmark_2.json", 2) ]
  else [].

(** The smallest and the largest of a list of values: both are values of
    the list, and no value is below the one or above the other. *)
Definition extremes_of (values : list Q) (lo hi : Q) : Prop :=
  lo ∈ values ∧ hi ∈ values ∧ ∀ v, v ∈ values → ¬ v < lo ∧ ¬ hi < v.

(** What the leak rule finds for a heap summary: one [high] [memory_leak]
    bottleneck when the summary leaks, nothing otherwise. *)
Definition leak_found (threshold : Q) (heap : option heap_summary_t)
    (found : list bottleneck) : Prop :=
  match heap with
  | Some heap =>
      (leaks threshold heap →
       ∃ b, found = [b] ∧ type b = memory_leak ∧ severity b = high) ∧
      (¬ leaks threshold heap → found = [])
  | None => found = []
  end.

(** One [medium] [memory_hotspot] bottleneck per hotspot among the first
    five, in the order of the hotspots, with the function and the bytes of
    its hotspot. *)
Definition memory_findings (hotspots : list memory_hotspot_t)
    (found : list bottleneck) : Prop :=
  Forall2
    (λ h b, type b = memory_hotspot ∧ severity b = medium ∧
            description b = memory_hotspot_text (mfunction h) (bytes_lost h))
    (take 5 hotspots) found.


(** A bottleneck of type [t] with description [d] is in the list. *)
Definition reported (t : bottleneck_type) (d : description_t)
    (bs : list bottleneck) : Prop :=
  ∃ b, b ∈ bs ∧ type b = t ∧ description b = d.

(** * Properties *)

(** ** The exception monad *)


Lemma for_append_inl {A B} (body : A → result B) (P : A → B → Prop) xs :
  (∀ x, x ∈ xs → ∃ y, body x = inl y ∧ P x y) →
  ∃ ys, for_append body xs = inl ys ∧ Forall2 P xs ys.
Proof.
  induction xs as [|x xs IH]; intros Hall.
  - exists []. by split; [|constructor].
  - destruct (Hall x) as (y & Hy & HP); [by left|].
    destruct IH as (ys & Hys & HF).
    { intros x' Hx'. apply Hall. by right. }
    exists (y :: ys). split; [|by constructor].
    simpl. rewrite Hy. simpl. rewrite Hys. reflexivity.
Qed.

Lemma for_append_inr {A B} (body : A → result B) (e : py_error) xs x :
  x ∈ xs →
  body x = inr e →
  (∀ x' e', x' ∈ xs → body x' = inr e' → e' = e) →
  for_append body xs = inr e.
Proof.
  induction xs as [|x0 xs IH]; intros Hin Hx Hkind.
  - by apply elem_of_nil in Hin.
  - simpl. destruct (body x0) as [y|e0] eqn:Hx0; simpl.
    + apply elem_of_cons in Hin as [->|Hin]; [congruence|].
      rewrite IH; [done..|].
      intros x' e' Hx'. apply Hkind. by right.
    + f_equal. apply (Hkind x0); [by left|done].
Qed.

(** ** Numbers *)

Lemma py_div_ok (a b : Q) : ¬ b == 0 → py_div a b = inl (a / b).
Proof.
  intros Hb. unfold py_div.
  destruct (Qeq_bool b 0) eqn:E; [|done].
  by apply Qeq_bool_iff in E.
Qed.

Lemma py_div_zero (a b : Q) : b == 0 → py_div a b = inr ZeroDivisionError.
Proof.
  intros Hb. unfold py_div.
  by apply Qeq_bool_iff in Hb as ->.
Qed.


Lemma Qdiv_nonzero (a b : Q) : ¬ a == 0 → ¬ b == 0 → ¬ a / b == 0.
Proof.
  intros Ha Hb H. apply Ha.
  rewrite <- (Qmult_div_r a b Hb), H. ring.
Qed.

Lemma py_len_nonzero {A} (l : list A) : l ≠ [] → ¬ py_len l == 0.
Proof.
  destruct l as [|x l]; [done|]. intros _.
  unfold py_len, Qeq. simpl. lia.
Qed.

(** ** Scalability analyzers *)

Section scalability.
Context {I R : Type} (size rate : I → Q) (mk : Q → Q → Q → Q → Q → R).

Lemma scalability_step_ok (series : list I) i from to :
  series !! (i - 1)%nat = Some from → series !! i = Some to →
  ¬ size from == 0 → ¬ rate from == 0 → ¬ size to == 0 →
  scalability_step mk (size <$> series) (rate <$> series) i =
    inl (mk (size from) (size to) (rate from) (rate to)
            ((rate to / rate from) / (size to / size from))).
Proof.
  intros Hfrom Hto Hs Hr Hs'. unfold scalability_step, py_index.
  rewrite !list_lookup_fmap, Hfrom, Hto. simpl.
  rewrite (py_div_ok _ _ Hs). simpl.
  rewrite (py_div_ok _ _ Hr). simpl.
  rewrite py_div_ok; [done|]. by apply Qdiv_nonzero.
Qed.

Lemma scalability_step_zero (series : list I) i from to :
  series !! (i - 1)%nat = Some from → series !! i = Some to →
  size from == 0 ∨ rate from == 0 ∨ size to == 0 →
  scalability_step mk (size <$> series) (rate <$> series) i =
    inr ZeroDivisionError.
Proof.
  intros Hfrom Hto Hz. unfold scalability_step, py_index.
  rewrite !list_lookup_fmap, Hfrom, Hto. simpl.
  destruct (Qeq_dec (size from) 0) as [Hs|Hs].
  { by rewrite (py_div_zero _ _ Hs). }
  rewrite (py_div_ok _ _ Hs). simpl.
  destruct (Qeq_dec (rate from) 0) as [Hr|Hr].
  { by rewrite (py_div_zero _ _ Hr). }
  rewrite (py_div_ok _ _ Hr). simpl.
  destruct Hz as [Hz|[Hz|Hz]]; [done..|].
  rewrite py_div_zero; [done|].
  rewrite Hz. unfold Qdiv. ring.
Qed.

Lemma scalability_step_error (series : list I) i e :
  (1 ≤ i < length series)%nat →
  scalability_step mk (size <$> series) (rate <$> series) i = inr e →
  e = ZeroDivisionError.
Proof.
  intros [Hi1 Hi2] Herr.
  destruct (lookup_lt_is_Some_2 series (i - 1)) as [from Hfrom]; [lia|].
  destruct (lookup_lt_is_Some_2 series i) as [to Hto]; [lia|].
  destruct (Qeq_dec (size from) 0) as [Hs|Hs];
    [rewrite (scalability_step_zero _ _ _ _ Hfrom Hto) in Herr by auto; congruence|].
  destruct (Qeq_dec (rate from) 0) as [Hr|Hr];
    [rewrite (scalability_step_zero _ _ _ _ Hfrom Hto) in Herr by auto; congruence|].
  destruct (Qeq_dec (size to) 0) as [Hs'|Hs'];
    [rewrite (scalability_step_zero _ _ _ _ Hfrom Hto) in Herr by auto; congruence|].
  by rewrite (scalability_step_ok _ _ _ _ Hfrom Hto) in Herr.
Qed.

Lemma scalability_loop_ok (series : list I) :
  divisors_nonzero size rate series →
  ∃ scal,
    scalability_loop mk (size <$> series) (rate <$> series) = inl scal ∧
    adjacent_pairs size rate mk series scal.
Proof.
  intros Hnz. unfold scalability_loop. rewrite length_fmap.
  case_decide as Hlen.
  - set (P := λ (i : nat) (y : R),
      ∃ from to, series !! (i - 1)%nat = Some from ∧ series !! i = Some to ∧
        y = mk (size from) (size to) (rate from) (rate to)
               ((rate to / rate from) / (size to / size from))).
    destruct (for_append_inl
                (scalability_step mk (size <$> series) (rate <$> series)) P
                (seq 1 (length series - 1))) as (scal & Hscal & HF).
    { intros i [Hi1 Hi2]%elem_of_seq.
      destruct (lookup_lt_is_Some_2 series (i - 1)) as [from Hfrom]; [lia|].
      destruct (lookup_lt_is_Some_2 series i) as [to Hto]; [lia|].
      destruct (Hnz (i - 1)%nat from to) as (Hs & Hr & Hs'); [done| |].
      { by replace (S (i - 1))%nat with i by lia. }
      eexists. split; [by apply scalability_step_ok|].
      by exists from, to. }
    exists scal. split; [done|]. split.
    + apply Forall2_length in HF. by rewrite length_seq in HF.
    + intros i Hi.
      destruct (Forall2_lookup_l _ _ _ (i - 1)%nat i HF)
        as (y & Hy & from & to & Hfrom & Hto & ->).
      { apply lookup_seq. lia. }
      by exists from, to.
  - exists []. split; [done|]. split; [simpl; lia|].
    intros i Hi. lia.
Qed.

Lemma scalability_loop_zero (series : list I) i from to :
  series !! i = Some from → series !! S i = Some to →
  size from == 0 ∨ rate from == 0 ∨ size to == 0 →
  scalability_loop mk (size <$> series) (rate <$> series) =
    inr ZeroDivisionError.
Proof.
  intros Hfrom Hto Hz. unfold scalability_loop. rewrite length_fmap.
  pose proof (lookup_lt_Some _ _ _ Hto) as Hlt.
  rewrite decide_True by lia.
  apply (for_append_inr _ _ _ (S i)).
  - apply elem_of_seq. lia.
  - apply (scalability_step_zero _ _ from to); [|done..].
    by replace (S i - 1)%nat with i by lia.
  - intros i' e' [Hi1 Hi2]%elem_of_seq. apply scalability_step_error. lia.
Qed.
End scalability.

Lemma py_min_ok (l : list Q) : l ≠ [] → ∃ m, py_min l = inl m.
Proof. destruct l; [done|]. intros _. by eexists. Qed.

Lemma py_max_ok (l : list Q) : l ≠ [] → ∃ m, py_max l = inl m.
Proof. destruct l; [done|]. intros _. by eexists. Qed.

Lemma analyze_tx_series_ok (series : list Tx.item) :
  series ≠ [] →
  divisors_nonzero Tx.tx_count Tx.throughput_tps series →
  ∃ a, analyze_tx_series series = inl a ∧
       Tx.data a = series ∧
       adjacent_pairs Tx.tx_count Tx.throughput_tps Tx.Build_scal series
         (Tx.scalability a).
Proof.
  intros Hne Hnz. unfold analyze_tx_series.
  destruct (scalability_loop_ok Tx.tx_count Tx.throughput_tps Tx.Build_scal
              series Hnz) as (scal & -> & Hadj).
  assert (Tx.throughput_tps <$> series ≠ []) as Hne'.
  { by destruct series. }
  destruct (py_min_ok _ Hne') as [lo ->].
  destruct (py_max_ok _ Hne') as [hi ->].
  simpl. rewrite (py_div_ok _ _ (py_len_nonzero _ Hne')). simpl.
  eexists. split; [done|]. by split.
Qed.

Lemma analyze_creation_series_ok (series : list Shard.item) :
  series ≠ [] →
  divisors_nonzero Shard.shard_count Shard.throughput_sps series →
  ∃ a, analyze_creation_series series = inl a ∧
       Shard.data a = series ∧
       adjacent_pairs Shard.shard_count Shard.throughput_sps Shard.Build_scal
         series (Shard.scalability a).
Proof.
  intros Hne Hnz. unfold analyze_creation_series.
  destruct (scalability_loop_ok Shard.shard_count Shard.throughput_sps
              Shard.Build_scal series Hnz) as (scal & -> & Hadj).
  assert (Shard.throughput_sps <$> series ≠ []) as Hne'.
  { by destruct series. }
  destruct (py_min_ok _ Hne') as [lo ->].
  destruct (py_max_ok _ Hne') as [hi ->].
  simpl. rewrite (py_div_ok _ _ (py_len_nonzero _ Hne')). simpl.
  eexists. split; [done|]. by split.
Qed.

Lemma analyze_tx_series_zero (series : list Tx.item) i from to :
  series !! i = Some from → series !! S i = Some to →
  Tx.tx_count from == 0 ∨ Tx.throughput_tps from == 0 ∨ Tx.tx_count to == 0 →
  analyze_tx_series series = inr ZeroDivisionError.
Proof.
  intros Hfrom Hto Hz. unfold analyze_tx_series.
  by rewrite (scalability_loop_zero _ _ _ _ _ _ _ Hfrom Hto Hz).
Qed.

Lemma analyze_creation_series_zero (series : list Shard.item) i from to :
  series !! i = Some from → series !! S i = Some to →
  Shard.shard_count from == 0 ∨ Shard.throughput_sps from == 0 ∨
    Shard.shard_count to == 0 →
  analyze_creation_series series = inr ZeroDivisionError.
Proof.
  intros Hfrom Hto Hz. unfold analyze_creation_series.
  by rewrite (scalability_loop_zero _ _ _ _ _ _ _ Hfrom Hto Hz).
Qed.

Lemma length_ge_2_nonempty {A} (l : list A) : (2 ≤ length l)%nat → l ≠ [].
Proof. destruct l; simpl; [lia|done]. Qed.

(** C1 as stated fails: a series of two samples whose first workload size
    is 0 makes the analyzer raise, so no scalability sequence is produced. *)
Lemma scalability_zero_size_raises :
  (2 ≤ length zero_size_series)%nat ∧
  analyze_transaction_performance
    (Some (transaction_document zero_size_series)) = inr ZeroDivisionError.
Proof. split; [simpl; lia|reflexivity]. Qed.




(** C6.  On an empty series the three analyzers raise [ValueError] (from
    [min]); on a series of one sample they return an analysis with an
    empty scalability sequence whose minimum and maximum are the sample's
    throughput and whose average equals it. *)
Theorem short_series :
  analyze_transaction_performance (Some (transaction_document [])) =
    inr ValueError ∧
  analyze_sharding_performance (Some (creation_document [])) = inr ValueError ∧
  analyze_sharding_performance (Some (cross_shard_document [])) =
    inr ValueError ∧
  (∀ item : Tx.item,
     ∃ a, analyze_transaction_performance (Some (transaction_document [item])) =
            inl (Some {| throughput_analysis := Some a |}) ∧
          Tx.scalability a = [] ∧
          Tx.min_tps a = Tx.throughput_tps item ∧
          Tx.max_tps a = Tx.throughput_tps item ∧
          Tx.avg_tps a == Tx.throughput_tps item) ∧
  (∀ item : Shard.item,
     ∃ a, analyze_sharding_performance (Some (creation_document [item])) =
            inl (Some {| creation_analysis := Some a;
                         cross_shard_analysis := None |}) ∧
          Shard.scalability a = [] ∧
          Shard.min_sps a = Shard.throughput_sps item ∧
          Shard.max_sps a = Shard.throughput_sps item ∧
          Shard.avg_sps a == Shard.throughput_sps item) ∧
  (∀ item : Tx.item,
     ∃ a, analyze_sharding_performance (Some (cross_shard_document [item])) =
            inl (Some {| creation_analysis := None;
                         cross_shard_analysis := Some a |}) ∧
          Tx.scalability a = [] ∧
          Tx.min_tps a = Tx.throughput_tps item ∧
          Tx.max_tps a = Tx.throughput_tps item ∧
          Tx.avg_tps a == Tx.throughput_tps item).
Proof.
  split; [reflexivity|]. split; [reflexivity|]. split; [reflexivity|].
  split; [|split]; intros item; eexists; (split; [reflexivity|]); simpl;
    (repeat split; try reflexivity); unfold py_sum, py_len; simpl; field.
Qed.

(** ** Bottleneck detector *)

(** A guarded [append] in a [for] loop is a filter followed by a map. *)
Lemma bind_if_filter {A B} (P Q : A → Prop) `{!∀ x, Decision (P x)}
    (d : ∀ x, {P x} + {Q x}) (g : A → B) (l : list A) :
  (∀ x, Q x → ¬ P x) →
  (l ≫= λ x, if d x then [g x] else []) = g <$> filter P l.
Proof.
  intros HQ. induction l as [|x l IH]; [done|].
  csimpl. rewrite IH. destruct (d x) as [HP|HQx].
  - by rewrite filter_cons_True.
  - rewrite filter_cons_False; [done|]. by apply HQ.
Qed.

Lemma of_type_app t (l1 l2 : list bottleneck) :
  of_type t (l1 ++ l2) = of_type t l1 ++ of_type t l2.
Proof. apply filter_app. Qed.

Lemma of_type_Forall t t' (l : list bottleneck) :
  Forall (λ b, type b = t) l → of_type t' l = if decide (t = t') then l else [].
Proof.
  intros HF. unfold of_type. case_decide as Ht.
  - subst t'. induction HF as [|b l Hb _ IH]; [done|].
    rewrite filter_cons_True by done. by rewrite IH.
  - induction HF as [|b l Hb _ IH]; [done|].
    rewrite filter_cons_False by congruence. done.
Qed.

Lemma scalability_severity_high e : scalability_severity e = high ↔ e < 0.5.
Proof.
  unfold scalability_severity. destruct (Qlt_le_dec e 0.5) as [H|H].
  - done.
  - split; [done|]. intros H'. by apply Qlt_not_le in H'.
Qed.

Lemma scalability_severity_medium e :
  scalability_severity e = medium ↔ ¬ e < 0.5.
Proof.
  unfold scalability_severity. destruct (Qlt_le_dec e 0.5) as [H|H].
  - split; [done|]. intros H'. by destruct H'.
  - split; [|done]. intros _. by apply Qle_not_lt.
Qed.

Lemma cpu_severity_high o : cpu_severity o = high ↔ 30 < o.
Proof.
  unfold cpu_severity.
  destruct (Qlt_le_dec 30 o) as [H|H]; [done|].
  split; [by destruct (Qlt_le_dec 15 o)|].
  intros H'. by apply Qlt_not_le in H'.
Qed.

Lemma cpu_severity_medium o : cpu_severity o = medium ↔ 15 < o ∧ o <= 30.
Proof.
  unfold cpu_severity.
  destruct (Qlt_le_dec 30 o) as [H|H].
  - split; [done|]. intros [_ H']. by apply Qlt_not_le in H.
  - destruct (Qlt_le_dec 15 o) as [H1|H1]; [done|].
    split; [done|]. intros [H' _]. by apply Qlt_not_le in H'.
Qed.

Lemma cpu_severity_low o : cpu_severity o = low ↔ o <= 15.
Proof.
  unfold cpu_severity.
  destruct (Qlt_le_dec 30 o) as [H|H].
  - split; [done|]. intros H'. apply Qlt_not_le in H. destruct H.
    apply (Qle_trans _ 15); [done|]. by unfold Qle.
  - destruct (Qlt_le_dec 15 o) as [H1|H1]; [|done].
    split; [done|]. intros H'. by apply Qlt_not_le in H1.
Qed.

Lemma tx_scalability_rule_findings thr samples :
  scalability_findings Tx.efficiency transaction_scalability thr samples
    (tx_scalability_rule thr samples).
Proof.
  unfold scalability_findings, tx_scalability_rule.
  rewrite (bind_if_filter (λ item, Tx.efficiency item < 1.0 - thr / 100)
             (λ item, 1.0 - thr / 100 <= Tx.efficiency item));
    [|intros x H H'; by apply Qlt_not_le in H'].
  apply Forall2_fmap_r, Forall2_same_length_lookup_2; [done|].
  intros i x y Hx Hy. simplify_eq. simpl.
  split; [done|].
  split; [apply scalability_severity_high|apply scalability_severity_medium].
Qed.

Lemma shard_creation_rule_findings thr samples :
  scalability_findings Shard.efficiency shard_creation_scalability thr samples
    (shard_creation_rule thr samples).
Proof.
  unfold scalability_findings, shard_creation_rule.
  rewrite (bind_if_filter (λ item, Shard.efficiency item < 1.0 - thr / 100)
             (λ item, 1.0 - thr / 100 <= Shard.efficiency item));
    [|intros x H H'; by apply Qlt_not_le in H'].
  apply Forall2_fmap_r, Forall2_same_length_lookup_2; [done|].
  intros i x y Hx Hy. simplify_eq. simpl.
  split; [done|].
  split; [apply scalability_severity_high|apply scalability_severity_medium].
Qed.

Lemma cross_shard_rule_findings thr samples :
  scalability_findings Tx.efficiency cross_shard_scalability thr samples
    (cross_shard_rule thr samples).
Proof.
  unfold scalability_findings, cross_shard_rule.
  rewrite (bind_if_filter (λ item, Tx.efficiency item < 1.0 - thr / 100)
             (λ item, 1.0 - thr / 100 <= Tx.efficiency item));
    [|intros x H H'; by apply Qlt_not_le in H'].
  apply Forall2_fmap_r, Forall2_same_length_lookup_2; [done|].
  intros i x y Hx Hy. simplify_eq. simpl.
  split; [done|].
  split; [apply scalability_severity_high|apply scalability_severity_medium].
Qed.

Lemma cpu_hotspot_rule_findings thr hs :
  cpu_findings thr hs (cpu_hotspot_rule thr hs).
Proof.
  unfold cpu_findings, cpu_hotspot_rule.
  rewrite (bind_if_filter (λ h, thr < overhead h) (λ h, overhead h <= thr));
    [|intros x H H'; by apply Qlt_not_le in H'].
  apply Forall2_fmap_r, Forall2_same_length_lookup_2; [done|].
  intros i x y Hx Hy. simplify_eq. simpl.
  split; [done|]. split; [done|].
  split; [apply cpu_severity_high|].
  split; [apply cpu_severity_medium|apply cpu_severity_low].
Qed.

Lemma findings_type {S} (eff : S → Q) t thr samples found :
  scalability_findings eff t thr samples found → Forall (λ b, type b = t) found.
Proof.
  unfold scalability_findings. intros HF.
  apply Forall_forall. intros b Hb.
  apply list_elem_of_lookup in Hb as [i Hi].
  destruct (Forall2_lookup_r _ _ _ _ _ HF Hi) as (x & _ & Ht & _). done.
Qed.

Lemma cpu_findings_type thr hs found :
  cpu_findings thr hs found → Forall (λ b, type b = cpu_hotspot) found.
Proof.
  unfold cpu_findings. intros HF.
  apply Forall_forall. intros b Hb.
  apply list_elem_of_lookup in Hb as [i Hi].
  destruct (Forall2_lookup_r _ _ _ _ _ HF Hi) as (x & _ & Ht & _). done.
Qed.

Lemma memory_hotspot_rule_type mh :
  Forall (λ b, type b = memory_hotspot) (memory_hotspot_rule mh).
Proof.
  unfold memory_hotspot_rule. generalize (take 5 mh). intros l.
  induction l as [|h l IH]; csimpl; [constructor|]. by constructor.
Qed.

(** The leak rule never raises: a positive leak count of naturals has a
    nonzero number of allocations. *)
Lemma memory_leak_rule_eq thr heap :
  memory_leak_rule thr heap =
    inl (if decide (leaks thr heap) then
           [ {| type := memory_leak;
                severity := high;
                description :=
                  memory_leak_text (leak_count_of heap)
                    (inject_Z (leak_count_of heap) /
                       inject_Z (Z.of_N (total_allocs heap)) * 100);
                recommendation := "リソース管理を見直し、すべてのメモリが適切に解放されていることを確認してください。" |} ]
         else []).
Proof.
  unfold memory_leak_rule. fold (leak_count_of heap).
  case_decide as Hpos.
  - assert (¬ inject_Z (Z.of_N (total_allocs heap)) == 0) as Hnz.
    { unfold leak_count_of in Hpos. unfold Qeq. simpl. lia. }
    rewrite !(py_div_ok _ _ Hnz). simpl.
    destruct (Qlt_le_dec _ _) as [Hlt|Hle].
    + by rewrite decide_True.
    + rewrite decide_False; [done|]. intros [_ H]. by apply Qlt_not_le in H.
  - rewrite decide_False; [done|]. by intros [H _].
Qed.

Lemma memory_leak_rule_ok thr heap :
  ∃ found,
    memory_leak_rule thr heap = inl found ∧
    Forall (λ b, type b = memory_leak ∧ severity b = high) found ∧
    (leaks thr heap → length found = 1%nat) ∧
    (¬ leaks thr heap → found = []).
Proof.
  rewrite memory_leak_rule_eq. eexists. split; [done|].
  case_decide as H.
  - split; [by repeat constructor|]. by split.
  - split; [constructor|]. by split.
Qed.

(** The detector never raises, and its result is the concatenation of what
    the six rules append, in the order of the source. *)
Lemma identify_bottlenecks_segments ar cpu mp thr :
  identify_bottlenecks ar cpu mp thr =
    inl (tx_scalability_rule thr (transaction_samples ar) ++
         shard_creation_rule thr (creation_samples ar) ++
         cross_shard_rule thr (cross_shard_samples ar) ++
         cpu_hotspot_rule thr (cpu_hotspots_of cpu) ++
         leak_findings thr mp ++
         memory_hotspot_rule (memory_hotspots_of mp)).
Proof.
  unfold identify_bottlenecks, transaction_samples, creation_samples,
    cross_shard_samples, cpu_hotspots_of, leak_findings, memory_hotspots_of,
    heap_of, if_present.
  destruct ar as [[[[a|]]|] [[[c|] [x|]]|]]; destruct cpu as [[hs]|];
    destruct mp as [[[heap|] mh]|]; simpl;
    rewrite ?memory_leak_rule_eq; simpl; rewrite ?app_nil_r, <- ?app_assoc;
    reflexivity.
Qed.

Lemma leak_findings_type thr mp :
  Forall (λ b, type b = memory_leak) (leak_findings thr mp).
Proof.
  unfold leak_findings. destruct (heap_of mp) as [heap|]; [|constructor].
  destruct (memory_leak_rule_ok thr heap) as (found & -> & HF & _).
  eapply Forall_impl; [exact HF|]. by intros b [H _].
Qed.

(** The bottlenecks of each type in the detector's result are exactly what
    the rule of that type appends. *)
Lemma identify_bottlenecks_of_type ar cpu mp thr :
  ∃ bs,
    identify_bottlenecks ar cpu mp thr = inl bs ∧
    bs = of_type transaction_scalability bs ++
         of_type shard_creation_scalability bs ++
         of_type cross_shard_scalability bs ++
         of_type cpu_hotspot bs ++
         of_type memory_leak bs ++
         of_type memory_hotspot bs ∧
    of_type transaction_scalability bs =
      tx_scalability_rule thr (transaction_samples ar) ∧
    of_type shard_creation_scalability bs =
      shard_creation_rule thr (creation_samples ar) ∧
    of_type cross_shard_scalability bs =
      cross_shard_rule thr (cross_shard_samples ar) ∧
    of_type cpu_hotspot bs = cpu_hotspot_rule thr (cpu_hotspots_of cpu) ∧
    of_type memory_leak bs = leak_findings thr mp ∧
    of_type memory_hotspot bs = memory_hotspot_rule (memory_hotspots_of mp).
Proof.
  eexists. split; [apply identify_bottlenecks_segments|].
  pose proof (findings_type _ _ _ _ _
                (tx_scalability_rule_findings thr (transaction_samples ar))) as H1.
  pose proof (findings_type _ _ _ _ _
                (shard_creation_rule_findings thr (creation_samples ar))) as H2.
  pose proof (findings_type _ _ _ _ _
                (cross_shard_rule_findings thr (cross_shard_samples ar))) as H3.
  pose proof (cpu_findings_type _ _ _
                (cpu_hotspot_rule_findings thr (cpu_hotspots_of cpu))) as H4.
  pose proof (leak_findings_type thr mp) as H5.
  pose proof (memory_hotspot_rule_type (memory_hotspots_of mp)) as H6.
  assert (∀ t,
    of_type t (tx_scalability_rule thr (transaction_samples ar) ++
               shard_creation_rule thr (creation_samples ar) ++
               cross_shard_rule thr (cross_shard_samples ar) ++
               cpu_hotspot_rule thr (cpu_hotspots_of cpu) ++
               leak_findings thr mp ++
               memory_hotspot_rule (memory_hotspots_of mp)) =
    of_type t (tx_scalability_rule thr (transaction_samples ar)) ++
    of_type t (shard_creation_rule thr (creation_samples ar)) ++
    of_type t (cross_shard_rule thr (cross_shard_samples ar)) ++
    of_type t (cpu_hotspot_rule thr (cpu_hotspots_of cpu)) ++
    of_type t (leak_findings thr mp) ++
    of_type t (memory_hotspot_rule (memory_hotspots_of mp))) as Hsplit.
  { intros t. by rewrite !of_type_app. }
  assert (∀ t,
    of_type t (tx_scalability_rule thr (transaction_samples ar) ++
               shard_creation_rule thr (creation_samples ar) ++
               cross_shard_rule thr (cross_shard_samples ar) ++
               cpu_hotspot_rule thr (cpu_hotspots_of cpu) ++
               leak_findings thr mp ++
               memory_hotspot_rule (memory_hotspots_of mp)) =
    (if decide (transaction_scalability = t)
     then tx_scalability_rule thr (transaction_samples ar) else []) ++
    (if decide (shard_creation_scalability = t)
     then shard_creation_rule thr (creation_samples ar) else []) ++
    (if decide (cross_shard_scalability = t)
     then cross_shard_rule thr (cross_shard_samples ar) else []) ++
    (if decide (cpu_hotspot = t)
     then cpu_hotspot_rule thr (cpu_hotspots_of cpu) else []) ++
    (if decide (memory_leak = t) then leak_findings thr mp else []) ++
    (if decide (memory_hotspot = t)
     then memory_hotspot_rule (memory_hotspots_of mp) else [])) as Hpick.
  { intros t. rewrite Hsplit.
    by rewrite (of_type_Forall _ t _ H1), (of_type_Forall _ t _ H2),
      (of_type_Forall _ t _ H3), (of_type_Forall _ t _ H4),
      (of_type_Forall _ t _ H5), (of_type_Forall _ t _ H6). }
  rewrite !Hpick. simpl. rewrite !app_nil_r. done.
Qed.

(** C3.  The detector returns, and for each facet its [*_scalability]
    bottlenecks are one per scalability sample whose efficiency is below
    [1 - threshold/100], in the order of the samples and none for the other
    samples, with severity [high] exactly when the efficiency is below 0.5
    and [medium] otherwise.  With threshold 10.0 a sample of efficiency 0.4
    gives exactly one [high] bottleneck, 0.85 exactly one [medium] one, and
    0.95 none, in each of the three facets. *)
Theorem scalability_bottlenecks :
  (∀ ar cpu mp thr,
     ∃ bs,
       identify_bottlenecks ar cpu mp thr = inl bs ∧
       scalability_findings Tx.efficiency transaction_scalability thr
         (transaction_samples ar) (of_type transaction_scalability bs) ∧
       scalability_findings Shard.efficiency shard_creation_scalability thr
         (creation_samples ar) (of_type shard_creation_scalability bs) ∧
       scalability_findings Tx.efficiency cross_shard_scalability thr
         (cross_shard_samples ar) (of_type cross_shard_scalability bs)) ∧
  (∀ facet t,
     (facet, t) ∈ [ (transaction_only, transaction_scalability);
                    (creation_only, shard_creation_scalability);
                    (cross_shard_only, cross_shard_scalability) ] →
     (∃ b, identify_bottlenecks (facet 0.4) None None 10.0 = inl [b] ∧
           type b = t ∧ severity b = high) ∧
     (∃ b, identify_bottlenecks (facet 0.85) None None 10.0 = inl [b] ∧
           type b = t ∧ severity b = medium) ∧
     identify_bottlenecks (facet 0.95) None None 10.0 = inl []).
Proof.
  split.
  - intros ar cpu mp thr.
    destruct (identify_bottlenecks_of_type ar cpu mp thr)
      as (bs & Hbs & _ & E1 & E2 & E3 & _).
    exists bs. split; [done|]. rewrite E1, E2, E3.
    split; [apply tx_scalability_rule_findings|].
    split; [apply shard_creation_rule_findings|apply cross_shard_rule_findings].
  - intros facet t Hin.
    repeat (apply elem_of_cons in Hin as [[= -> ->]|Hin]);
      [| | |by apply elem_of_nil in Hin];
      (split; [eexists; split; [vm_compute; reflexivity|by split]|]);
      (split; [eexists; split; [vm_compute; reflexivity|by split]|]);
      vm_compute; reflexivity.
Qed.

(** C4.  With a heap summary present the detector returns, and it emits a
    [memory_leak] bottleneck exactly when the leak count
    [total_allocs - total_frees] is positive and its share of the
    allocations exceeds [threshold/100]; it is then the only one and its
    severity is [high].  With [total_allocs = 0] the test that guards the
    division is false, so nothing is divided and nothing is emitted.  With
    threshold 10.0, 1000 allocations and 700 frees give exactly one [high]
    [memory_leak] bottleneck, 1000 allocations and 950 frees give none. *)
Theorem memory_leak_bottleneck :
  (∀ ar cpu heap mh thr,
     ∃ bs,
       identify_bottlenecks ar cpu
         (Some {| heap_summary := Some heap; memory_hotspots := mh |}) thr =
         inl bs ∧
       (leaks thr heap →
        ∃ b, of_type memory_leak bs = [b] ∧ severity b = high) ∧
       (¬ leaks thr heap → of_type memory_leak bs = []) ∧
       (total_allocs heap = 0%N →
        ¬ (0 < leak_count_of heap)%Z ∧ of_type memory_leak bs = [])) ∧
  (∃ b, identify_bottlenecks no_analysis None (Some (heap_only 1000 700)) 10.0 =
          inl [b] ∧
        type b = memory_leak ∧ severity b = high) ∧
  identify_bottlenecks no_analysis None (Some (heap_only 1000 950)) 10.0 = inl [].
Proof.
  split; [|split; [eexists; split; [vm_compute; reflexivity|by split]|
                   vm_compute; reflexivity]].
  intros ar cpu heap mh thr.
  destruct (identify_bottlenecks_of_type ar cpu
              (Some {| heap_summary := Some heap; memory_hotspots := mh |}) thr)
    as (bs & Hbs & _ & _ & _ & _ & _ & E5 & _).
  exists bs. split; [done|]. rewrite E5.
  unfold leak_findings. simpl.
  destruct (memory_leak_rule_ok thr heap) as (found & -> & HF & Hyes & Hno).
  split; [|split].
  - intros Hleak. specialize (Hyes Hleak).
    destruct found as [|b [|b' found]]; simpl in Hyes; try lia.
    exists b. split; [done|].
    apply Forall_cons_1 in HF as [[_ Hsev] _]. done.
  - done.
  - intros Hzero.
    assert (¬ (0 < leak_count_of heap)%Z) as Hguard.
    { unfold leak_count_of. rewrite Hzero. lia. }
    split; [done|]. apply Hno. by intros [H _].
Qed.

(** C5.  The detector returns, and its [cpu_hotspot] bottlenecks are one
    per hotspot among the first five, in the order of the hotspot list,
    whose overhead exceeds the threshold: [high] above 30, [medium] above
    15 up to 30, [low] otherwise.  They are the findings for the first five
    hotspots alone: hotspots after the fifth change nothing.  The hotspot list is in the order of the lines of the report:
    on a report of six entries whose last one has the largest overhead,
    the five findings are the first five lines in file order. *)
Theorem cpu_hotspot_bottlenecks :
  (∀ ar hs mp thr,
     ∃ bs,
       identify_bottlenecks ar (Some {| hotspots := hs |}) mp thr = inl bs ∧
       cpu_findings thr hs (of_type cpu_hotspot bs) ∧
       ∃ bs',
         identify_bottlenecks ar (Some {| hotspots := take 5 hs |}) mp thr =
           inl bs' ∧
         of_type cpu_hotspot bs' = of_type cpu_hotspot bs) ∧
  (∃ p bs,
     parse_cpu_profile float_of_decimal (Some six_hotspots_report) = Some p ∧
     function <$> hotspots p =
       [txt "validate"; txt "route"; txt "hash"; txt "encode"; txt "decode";
        txt "commit"] ∧
     identify_bottlenecks no_analysis (Some p) None 10.0 = inl bs ∧
     described_function <$> bs =
       [txt "validate"; txt "route"; txt "hash"; txt "encode"; txt "decode"] ∧
     severity <$> bs = [medium; low; high; low; medium]).
Proof.
  split.
  - intros ar hs mp thr.
    destruct (identify_bottlenecks_of_type ar (Some {| hotspots := hs |}) mp thr)
      as (bs & Hbs & _ & _ & _ & _ & E4 & _).
    exists bs. split; [done|]. rewrite E4. simpl.
    split; [apply cpu_hotspot_rule_findings|].
    destruct (identify_bottlenecks_of_type ar
                (Some {| hotspots := take 5 hs |}) mp thr)
      as (bs' & Hbs' & _ & _ & _ & _ & E4' & _).
    exists bs'. split; [done|]. rewrite E4'. simpl.
    unfold cpu_hotspot_rule. by rewrite take_take.
  - eexists _, _. split; [vm_compute; reflexivity|].
    split; [vm_compute; reflexivity|].
    split; [vm_compute; reflexivity|].
    split; vm_compute; reflexivity.
Qed.

(** ** Text *)

Lemma take_while_cons p c s :
  take_while p (c :: s) = if p c then c :: take_while p s else [].
Proof. reflexivity. Qed.

Lemma drop_while_cons p c s :
  drop_while p (c :: s) = if p c then drop_while p s else c :: s.
Proof. reflexivity. Qed.

Lemma take_drop_while p s : take_while p s ++ drop_while p s = s.
Proof.
  induction s as [|c s IH]; [done|]. simpl.
  destruct (p c); simpl; [by rewrite IH|done].
Qed.

Lemma take_while_Forall p s : Forall (λ c, p c = true) (take_while p s).
Proof.
  induction s as [|c s IH]; [constructor|]. simpl.
  destruct (p c) eqn:E; [by constructor|constructor].
Qed.

Lemma drop_while_head p s c : head (drop_while p s) = Some c → p c = false.
Proof.
  induction s as [|c' s IH]; [done|]. simpl.
  destruct (p c') eqn:E; [done|]. simpl. by intros [= <-].
Qed.




Lemma take_length_take_while p s : take (length (take_while p s)) s = take_while p s.
Proof.
  rewrite <- (take_drop_while p s) at 2. by rewrite take_app_length.
Qed.

Lemma last_drop_while p s c :
  last s = Some c → p c = false → last (drop_while p s) = Some c.
Proof.
  intros Hlast Hc. induction s as [|c' s IH]; [done|]. simpl.
  destruct (p c') eqn:E; [|done].
  destruct s as [|c'' s]; [simpl in Hlast; congruence|].
  apply IH. by rewrite last_cons_cons in Hlast.
Qed.

(** [strip] cuts a run of whitespace from each end. *)
Lemma strip_set_decompose p s :
  ∃ lead trail,
    s = lead ++ strip_set p s ++ trail ∧
    Forall (λ c, p c = true) lead ∧ Forall (λ c, p c = true) trail.
Proof.
  exists (take_while p s),
         (reverse (take_while p (reverse (drop_while p s)))).
  split; [|split].
  - unfold strip_set. rewrite <- reverse_app, take_drop_while, reverse_involutive.
    by rewrite take_drop_while.
  - apply take_while_Forall.
  - apply Forall_reverse, take_while_Forall.
Qed.

Lemma head_reverse {A} (l : list A) : head (reverse l) = last l.
Proof.
  induction l as [|x l IH] using rev_ind; [done|].
  by rewrite reverse_snoc, last_snoc.
Qed.

Lemma last_reverse {A} (l : list A) : last (reverse l) = head l.
Proof. by rewrite <- head_reverse, reverse_involutive. Qed.

Lemma strip_stripped s : stripped (strip s).
Proof.
  unfold stripped, strip, strip_set. split; intros c Hc.
  - rewrite head_reverse in Hc.
    destruct (last (reverse (drop_while is_space s))) as [c'|] eqn:Hlast.
    + rewrite last_reverse in Hlast.
      pose proof (drop_while_head _ _ _ Hlast) as Hc'.
      rewrite <- last_reverse in Hlast.
      rewrite (last_drop_while _ _ _ Hlast Hc') in Hc. by simplify_eq.
    + apply last_None in Hlast. rewrite Hlast in Hc. done.
  - rewrite last_reverse in Hc. by apply drop_while_head in Hc.
Qed.


(** ** Fields *)

Lemma fields_cons_space c s : is_space c = true → fields (c :: s) = fields s.
Proof. intros H. simpl. by rewrite H. Qed.

Lemma fields_cons_cons c c' s :
  fields (c :: c' :: s) =
    if is_space c then fields (c' :: s)
    else if is_space c' then [c] :: fields (c' :: s)
    else match fields (c' :: s) with
         | w :: ws => (c :: w) :: ws
         | [] => [[c]]
         end.
Proof. reflexivity. Qed.

Lemma fields_spaces s : Forall (λ c, is_space c = true) s → fields s = [].
Proof.
  induction 1 as [|c s Hc _ IH]; [done|]. by rewrite fields_cons_space.
Qed.

Lemma fields_unfold c s :
  is_space c = false →
  fields (c :: s) =
    take_while non_space (c :: s) :: fields (drop_while non_space (c :: s)).
Proof.
  revert c. induction s as [|c' s IH]; intros c Hc.
  - simpl. unfold non_space. by rewrite Hc.
  - rewrite fields_cons_cons, Hc.
    change (take_while non_space (c :: c' :: s)) with
      (if non_space c then c :: take_while non_space (c' :: s) else []).
    change (drop_while non_space (c :: c' :: s)) with
      (if non_space c then drop_while non_space (c' :: s) else c :: c' :: s).
    unfold non_space at 1 3. rewrite Hc. simpl negb. cbv iota.
    destruct (is_space c') eqn:Hc'.
    + rewrite (fields_cons_space c' s Hc'). simpl. unfold non_space.
      rewrite Hc'. simpl. by rewrite Hc'.
    + by rewrite (IH c' Hc').
Qed.

Lemma fields_drop_spaces s : fields (drop_while is_space s) = fields s.
Proof.
  induction s as [|c s IH]; [done|].
  change (drop_while is_space (c :: s)) with
    (if is_space c then drop_while is_space s else c :: s).
  destruct (is_space c) eqn:Hc; [|done].
  by rewrite fields_cons_space.
Qed.

Lemma fields_lead_spaces lead s :
  Forall (λ c, is_space c = true) lead → fields (lead ++ s) = fields s.
Proof.
  induction 1 as [|c lead Hc _ IH]; [done|].
  rewrite <- app_comm_cons. by rewrite fields_cons_space.
Qed.

Lemma fields_trail_spaces s trail :
  Forall (λ c, is_space c = true) trail → fields (s ++ trail) = fields s.
Proof.
  intros Ht. induction s as [|c s IH]; [by apply fields_spaces|].
  destruct (is_space c) eqn:Hc.
  - rewrite <- app_comm_cons, !fields_cons_space by done. done.
  - destruct s as [|c' s].
    + simpl app. destruct trail as [|t trail]; [done|].
      rewrite fields_cons_cons, Hc.
      rewrite (fields_spaces (t :: trail) Ht).
      apply Forall_cons_1 in Ht as [-> _]. simpl. by rewrite Hc.
    + rewrite <- !app_comm_cons, !fields_cons_cons.
      rewrite app_comm_cons, IH. done.
Qed.

Lemma fields_strip s : fields (strip s) = fields s.
Proof.
  destruct (strip_set_decompose is_space s) as (lead & trail & Hs & Hl & Ht).
  fold (strip s) in Hs. rewrite Hs at 2.
  by rewrite fields_lead_spaces, fields_trail_spaces.
Qed.

Lemma fields_nil_spaces s : fields s = [] → Forall (λ c, is_space c = true) s.
Proof.
  induction s as [|c s IH]; [constructor|].
  destruct (is_space c) eqn:Hc.
  - rewrite fields_cons_space by done. intros H. constructor; auto.
  - by rewrite fields_unfold.
Qed.

(** ** The whitespace pattern *)

Lemma greedy_total {A} p s (f : text → A) :
  greedy p s (λ s', Some (f s')) = Some (f (drop_while p s)).
Proof.
  induction s as [|c s IH]; [done|]. simpl.
  destruct (p c); [by rewrite IH|done].
Qed.

Lemma re_match_spaces s :
  re_match spaces_re s =
    match s with
    | c :: s' =>
        if is_space c
        then Some {| m_start := 0; m_groups := ∅;
                     m_rest := drop_while is_space s' |}
        else None
    | [] => None
    end.
Proof.
  destruct s as [|c s]; [done|]. unfold re_match, spaces_re. simpl.
  destruct (is_space c); [|done].
  apply (greedy_total is_space s
           (λ rest, {| m_start := 0; m_groups := ∅; m_rest := rest |})).
Qed.

(** [re.search(r'\s+', s)] finds the first run of whitespace. *)
Lemma re_search_spaces s :
  re_search spaces_re s =
    match drop_while non_space s with
    | [] => None
    | _ :: _ =>
        Some {| m_start := length (take_while non_space s);
                m_groups := ∅;
                m_rest := drop_while is_space (drop_while non_space s) |}
    end.
Proof.
  induction s as [|c s IH]; [done|].
  change (re_search spaces_re (c :: s)) with
    (match re_match spaces_re (c :: s) with
     | Some m => Some m
     | None =>
         m ← re_search spaces_re s;
         Some {| m_start := S (m_start m); m_groups := m_groups m;
                 m_rest := m_rest m |}
     end).
  rewrite re_match_spaces, take_while_cons, drop_while_cons.
  destruct (is_space c) eqn:Hc.
  - assert (non_space c = false) as -> by (unfold non_space; by rewrite Hc).
    by rewrite drop_while_cons, Hc.
  - assert (non_space c = true) as -> by (unfold non_space; by rewrite Hc).
    rewrite IH. by destruct (drop_while non_space s).
Qed.

Lemma last_app_nonempty {A} (l1 l2 : list A) :
  l2 ≠ [] → last (l1 ++ l2) = last l2.
Proof.
  intros Hne. destruct l2 as [|x l2 _] using rev_ind; [done|].
  by rewrite app_assoc, !last_snoc.
Qed.


(** In a stripped text what follows the first field is empty or holds a
    further field. *)
Lemma stripped_tail_cases s :
  stripped s →
  drop_while non_space s = [] ∨
  (drop_while is_space (drop_while non_space s) ≠ [] ∧
   stripped (drop_while is_space (drop_while non_space s))).
Proof.
  intros [_ Hlast].
  destruct (drop_while non_space s) as [|c r] eqn:Hr; [by left|right].
  assert (last s = last (c :: r)) as Hls.
  { rewrite <- (take_drop_while non_space s), Hr.
    by apply last_app_nonempty. }
  destruct (last (c :: r)) as [z|] eqn:Hz; [|by apply last_None in Hz].
  pose proof (Hlast z Hls) as Hzs.
  pose proof (last_drop_while is_space (c :: r) z Hz Hzs) as Hlast'.
  split.
  - intros Hnil. by rewrite Hnil in Hlast'.
  - split.
    + apply drop_while_head.
    + intros z' Hz'. rewrite Hlast' in Hz'. by simplify_eq.
Qed.

Lemma re_split_S r s n :
  re_split r s (S n) =
    match re_search r s with
    | Some m => take (m_start m) s :: re_split r (m_rest m) n
    | None => [s]
    end.
Proof. reflexivity. Qed.

(** [re.split(r'\s+', s, maxsplit=n)] on a stripped text: the fields of
    the text when there are at most [n + 1]; otherwise the first [n]
    fields followed by the rest of the text, which holds the others. *)
Lemma re_split_fields n s :
  stripped s → s ≠ [] →
  (length (fields s) ≤ S n → re_split spaces_re s n = fields s)%nat ∧
  (S n < length (fields s) →
   ∃ rest, re_split spaces_re s n = take n (fields s) ++ [rest] ∧
           fields rest = drop n (fields s))%nat.
Proof.
  revert s. induction n as [|n IH]; intros s Hs Hne.
  - destruct s as [|c s]; [done|].
    assert (is_space c = false) as Hc by (by apply (proj1 Hs)).
    rewrite (fields_unfold c s Hc), length_cons. split.
    + intros Hlen.
      destruct (stripped_tail_cases _ Hs) as [Hnil|[Hne' Hs']].
      * rewrite Hnil. simpl.
        rewrite <- (take_drop_while non_space (c :: s)) at 1.
        by rewrite Hnil, app_nil_r.
      * rewrite <- (fields_drop_spaces (drop_while non_space (c :: s))) in Hlen.
        set (t := drop_while is_space (drop_while non_space (c :: s))) in *.
        destruct (fields t) eqn:Hf; [|simpl in Hlen; lia].
        apply fields_nil_spaces in Hf.
        destruct t as [|z t']; [done|].
        apply Forall_cons_1 in Hf as [Hz _].
        by rewrite (proj1 Hs' z eq_refl) in Hz.
    + intros _. exists (c :: s). split; [done|].
      by rewrite (fields_unfold c s Hc).
  - destruct s as [|c s]; [done|].
    assert (is_space c = false) as Hc by (by apply (proj1 Hs)).
    rewrite re_split_S, re_search_spaces.
    rewrite (fields_unfold c s Hc).
    destruct (stripped_tail_cases _ Hs) as [Hnil|[Hne' Hs']].
    + rewrite Hnil. change (fields []) with (@nil text).
      split; [|rewrite length_cons; simpl; lia]. intros _.
      rewrite <- (take_drop_while non_space (c :: s)) at 1.
      by rewrite Hnil, app_nil_r.
    + destruct (drop_while non_space (c :: s)) as [|z r] eqn:Hr; [done|].
      rewrite <- Hr in Hne', Hs' |- *. cbn [m_start m_rest].
      rewrite take_length_take_while.
      rewrite <- (fields_drop_spaces (drop_while non_space (c :: s))).
      destruct (IH _ Hs' Hne') as [IH1 IH2]. rewrite length_cons. split.
      * intros Hlen. rewrite IH1; [done|lia].
      * intros Hlen. destruct IH2 as (rest & Hsplit & Hrest); [lia|].
        exists rest. split; [|done]. by rewrite Hsplit.
Qed.

(** ** CPU profile parser *)

(** The parts [re.split(r'\s+', line.strip(), maxsplit=5)] returns, in
    terms of the fields of the line. *)
Lemma cpu_line_parts line :
  strip line ≠ [] →
  let parts := re_split spaces_re (strip line) 5 in
  head parts = head (fields line) ∧
  ((5 ≤ length parts)%nat ↔ (5 ≤ length (fields line))%nat) ∧
  ((length (fields line) ≤ 6)%nat → parts = fields line) ∧
  ((6 < length (fields line))%nat →
   ∃ rest, last parts = Some rest ∧ fields rest = drop 5 (fields line)).
Proof.
  intros Hne parts.
  destruct (re_split_fields 5 (strip line) (strip_stripped line) Hne)
    as [Hfew Hmany].
  rewrite fields_strip in Hfew, Hmany. fold parts in Hfew, Hmany.
  destruct (decide (length (fields line) ≤ 6)%nat) as [Hlen|Hlen].
  - rewrite (Hfew Hlen). split; [done|]. split; [done|]. split; [done|lia].
  - destruct Hmany as (rest & Hparts & Hrest); [lia|].
    rewrite Hparts.
    assert (length (take 5 (fields line)) = 5%nat) as Htake.
    { rewrite length_take. lia. }
    split; [|split; [|split]].
    + destruct (fields line) as [|f fs]; [simpl in Hlen; lia|done].
    + rewrite length_app, Htake. simpl. lia.
    + lia.
    + intros _. exists rest. by rewrite last_snoc.
Qed.



Lemma parse_cpu_line_eq py_float line :
  strip line ≠ [] → startswith "#" line = false →
  parse_cpu_line py_float line =
    if decide (5 ≤ length (re_split spaces_re (strip line) 5))%nat then
      match py_float (strip_percent
                        (default [] (head (re_split spaces_re (strip line) 5)))) with
      | Some overhead =>
          Some {| overhead := overhead;
                  function := default [] (last (re_split spaces_re (strip line) 5)) |}
      | None => None
      end
    else None.
Proof.
  intros Hstrip Hhash. unfold parse_cpu_line.
  by rewrite bool_decide_eq_false_2, Hhash.
Qed.





(** ** Memory profile parser *)

(** [finditer] is not cut short by its bound: any larger bound gives the
    same matches. *)
Lemma finditer_fuel_enough r fuel fuel' s :
  (length s < fuel)%nat → (length s < fuel')%nat →
  finditer_fuel fuel r s = finditer_fuel fuel' r s.
Proof.
  revert fuel' s. induction fuel as [|fuel IH]; intros fuel' s Hf Hf'; [lia|].
  destruct fuel' as [|fuel']; [lia|]. simpl.
  destruct (re_search r s) as [m|]; [|done].
  case_decide as Hlt; [|done].
  f_equal. apply IH; lia.
Qed.




(** ** JSON report *)

Lemma pyval_nested_ind (P : pyval → Prop) :
  P PyNone →
  (∀ b, P (PyBool b)) →
  (∀ n, P (PyInt n)) →
  (∀ q, P (PyFloat q)) →
  (∀ s, P (PyStr s)) →
  (∀ items, Forall P items → P (PyList items)) →
  (∀ items, Forall P items → P (PyTuple items)) →
  (∀ items, Forall (λ kv, P kv.2) items → P (PyDict items)) →
  ∀ v, P v.
Proof.
  intros HNone HBool HInt HFloat HStr HList HTuple HDict.
  fix IH 1.
  intros [|b|n|q|s|items|items|items];
    [exact HNone|apply HBool|apply HInt|apply HFloat|apply HStr| | |].
  - apply HList.
    induction items as [|v items IHitems]; constructor; [apply IH|exact IHitems].
  - apply HTuple.
    induction items as [|v items IHitems]; constructor; [apply IH|exact IHitems].
  - apply HDict.
    induction items as [|[k v] items IHitems]; constructor;
      [apply IH|exact IHitems].
Qed.

Lemma dict_setitem_fresh key value items :
  key ∉ items.*1 → dict_setitem key value items = items ++ [(key, value)].
Proof.
  induction items as [|[k v] items IH]; [done|]. simpl.
  intros Hnotin. apply not_elem_of_cons in Hnotin as [Hne Hnotin].
  rewrite decide_False by done. by rewrite IH.
Qed.

Lemma dict_of_pairs_from acc pairs :
  NoDup (acc.*1 ++ pairs.*1) →
  foldl (λ d kv, dict_setitem kv.1 kv.2 d) acc pairs = acc ++ pairs.
Proof.
  revert acc. induction pairs as [|[k v] pairs IH]; intros acc Hnd.
  - by rewrite app_nil_r.
  - simpl. simpl in Hnd.
    rewrite dict_setitem_fresh.
    + rewrite IH; [by rewrite <- app_assoc|].
      rewrite fmap_app. simpl. rewrite <- app_assoc. done.
    + apply NoDup_app in Hnd as (_ & Hdisj & _).
      intros Hin. apply (Hdisj k Hin). by left.
Qed.

(** Building a dict from members with distinct keys keeps them as they are. *)
Lemma dict_of_pairs_nodup pairs : NoDup pairs.*1 → dict_of_pairs pairs = pairs.
Proof. intros Hnd. by apply (dict_of_pairs_from [] pairs). Qed.

Lemma fmap_round_trip {A B} (f : A → B) (g : B → A) (ok : A → bool) l :
  Forall (λ x, ok x = true → g (f x) = x) l →
  forallb ok l = true →
  g <$> (f <$> l) = l.
Proof.
  induction 1 as [|x l Hx _ IH]; [done|]. rewrite !fmap_cons. simpl forallb.
  intros [Hok Hall]%andb_true_iff. by rewrite Hx, IH.
Qed.

(** [json.load] undoes [json.dump] on the values of [json_native]. *)
Lemma json_round_trip v : json_native v = true → json_load (json_dump v) = v.
Proof.
  induction v as [| | | | |items IH|items IH|items IH] using pyval_nested_ind;
    simpl; try done.
  - intros Hnative. f_equal. by apply (fmap_round_trip _ _ json_native).
  - intros [Hnative Hnd%bool_decide_eq_true]%andb_true_iff. f_equal.
    rewrite (fmap_round_trip _ _ (λ kv, json_native kv.2)); [|..|done].
    + by apply dict_of_pairs_nodup.
    + eapply Forall_impl; [exact IH|]. intros [k v] Hkv Hok. simpl in *.
      by rewrite Hkv.
Qed.

(** Every value the analysis puts in [analysis_results] is one [json]
    reads back as written. *)
Lemma native_list {A} `{ToPy A} (l : list A) :
  (∀ a, json_native (to_py a) = true) → json_native (to_py l) = true.
Proof.
  intros Hall. unfold to_py, list_to_py. simpl.
  induction l as [|a l IH]; [done|]. rewrite fmap_cons. simpl.
  by rewrite Hall, IH.
Qed.

Lemma native_option {A} `{ToPy A} (o : option A) :
  (∀ a, json_native (to_py a) = true) → json_native (to_py o) = true.
Proof. intros Hall. destruct o as [a|]; [apply Hall|done]. Qed.

Lemma native_tx_item (item : Tx.item) : json_native (to_py item) = true.
Proof. reflexivity. Qed.

Lemma native_tx_scal (item : Tx.scal) : json_native (to_py item) = true.
Proof. reflexivity. Qed.

Lemma native_shard_item (item : Shard.item) : json_native (to_py item) = true.
Proof. reflexivity. Qed.

Lemma native_shard_scal (item : Shard.scal) : json_native (to_py item) = true.
Proof. reflexivity. Qed.

Lemma native_chart (c : chart) : json_native (to_py c) = true.
Proof. reflexivity. Qed.

Lemma native_bottleneck render (b : bottleneck) :
  json_native (bottleneck_to_py render b) = true.
Proof. reflexivity. Qed.

Lemma native_tx_analysis (a : Tx.throughput_analysis) :
  json_native (to_py a) = true.
Proof.
  unfold to_py, tx_analysis_to_py.
  change (json_native (to_py (Tx.data a)) &&
          (json_native (to_py (Tx.scalability a)) && true) &&
          true = true).
  rewrite (native_list (Tx.data a) native_tx_item).
  by rewrite (native_list (Tx.scalability a) native_tx_scal).
Qed.

Lemma native_creation_analysis (a : Shard.creation_analysis) :
  json_native (to_py a) = true.
Proof.
  unfold to_py, creation_analysis_to_py.
  change (json_native (to_py (Shard.data a)) &&
          (json_native (to_py (Shard.scalability a)) && true) &&
          true = true).
  rewrite (native_list (Shard.data a) native_shard_item).
  by rewrite (native_list (Shard.scalability a) native_shard_scal).
Qed.

Lemma native_transaction_analysis (a : transaction_analysis_t) :
  json_native (to_py a) = true.
Proof.
  unfold to_py, transaction_analysis_to_py.
  change (json_native (to_py (throughput_analysis a)) && true && true = true).
  by rewrite (native_option _ native_tx_analysis).
Qed.

Lemma native_sharding_analysis (a : sharding_analysis_t) :
  json_native (to_py a) = true.
Proof.
  unfold to_py, sharding_analysis_to_py.
  change (json_native (to_py (creation_analysis a)) &&
          (json_native (to_py (cross_shard_analysis a)) && true) &&
          true = true).
  rewrite (native_option _ native_creation_analysis).
  by rewrite (native_option _ native_tx_analysis).
Qed.

Lemma json_native_dict items :
  json_native (PyDict items) = true ↔
  Forall (λ kv, json_native kv.2 = true) items ∧ NoDup items.*1.
Proof.
  simpl. rewrite andb_true_iff, bool_decide_eq_true.
  rewrite forallb_forall, Forall_forall.
  split; intros [Hall Hnd]; (split; [|done]); intros kv Hkv; apply Hall.
  - by apply list_elem_of_In.
  - by apply list_elem_of_In.
Qed.

Lemma analysis_results_native render (r : report_input) :
  json_native (PyDict (analysis_results_items render r)) = true ∧
  "timestamp" ∉ (analysis_results_items render r).*1.
Proof.
  pose proof (native_list (H := bottleneck_to_py render) (ri_bottlenecks r)
                (native_bottleneck render)) as Hb.
  pose proof (native_list (ri_charts r) native_chart) as Hc.
  pose proof (λ t, native_option t native_transaction_analysis) as Ht.
  pose proof (λ s, native_option s native_sharding_analysis) as Hs.
  rewrite json_native_dict. unfold analysis_results_items.
  destruct (ri_transaction r) as [t|], (ri_sharding r) as [s|];
    (split; [split|]);
    try (repeat apply Forall_cons_2; try apply Forall_nil_2; cbn [snd]; auto);
    try (apply (bool_decide_unpack _); vm_compute; exact I).
Qed.

Lemma fresh_address_unused (w : world) : heap w !! fresh (dom (heap w)) = None.
Proof. apply not_elem_of_dom, is_fresh. Qed.

(** The report of a dict of native values without a [timestamp] key: the
    file holds the dict's items followed by the timestamp, and every dict
    object is as it was. *)
Lemma generate_json_report_native w analysis_results items output_dir now :
  heap w !! analysis_results = Some items →
  json_native (PyDict items) = true →
  "timestamp" ∉ items.*1 →
  ∃ w' document,
    generate_json_report analysis_results output_dir now w =
      Some (path_join output_dir "bottleneck_analysis.json", w') ∧
    files w' !! path_join output_dir "bottleneck_analysis.json" = Some document ∧
    json_load document = PyDict (items ++ [("timestamp", PyStr now)]) ∧
    (∀ d its, heap w !! d = Some its → heap w' !! d = Some its).
Proof.
  intros Hdict Hnative Hfresh.
  pose proof (fresh_address_unused w) as Hnew.
  set (new := fresh (dom (heap w))) in *.
  set (report := items ++ [("timestamp", PyStr now)]).
  assert (json_native (PyDict report) = true) as Hreport.
  { apply json_native_dict in Hnative as [Hall Hnd].
    apply json_native_dict. unfold report. split.
    - apply Forall_app. split; [done|]. by repeat constructor.
    - rewrite fmap_app. apply NoDup_app. split; [done|]. split.
      + intros k Hk [->|[]%elem_of_nil]%elem_of_cons. done.
      + apply NoDup_singleton. }
  eexists _, (json_dump (PyDict report)).
  split; [|split; [|split]].
  - unfold generate_json_report, dict_copy, setitem, dump_to_file.
    rewrite Hdict. simpl. fold new.
    rewrite lookup_insert_eq. simpl. rewrite lookup_insert_eq. simpl.
    rewrite (dict_setitem_fresh _ _ _ Hfresh). fold report. reflexivity.
  - simpl. apply lookup_insert_eq.
  - by apply json_round_trip.
  - intros d its Hd. simpl.
    assert (d ≠ new) as Hne by congruence.
    by rewrite insert_insert_eq, lookup_insert_ne.
Qed.

Lemma dict_get_app_other key items k v :
  key ≠ k → dict_get key (items ++ [(k, v)]) = dict_get key items.
Proof.
  intros Hne. induction items as [|[k' v'] items IH]; simpl.
  - by rewrite decide_False.
  - case_decide; [done|]. apply IH.
Qed.

(** C8.  For every analysis result held in the [analysis_results] dict,
    the document [generate_json_report] writes, read back by [json.load],
    is the dict's items as they were followed by one [timestamp] item;
    every key other than [timestamp] has the value it had; and no dict
    object, the [analysis_results] one included, is modified. *)
Theorem json_report_round_trip
    (render : description_t → string) (r : report_input)
    (output_dir now : string) (w : world) (analysis_results : nat)
    (Hdict : heap w !! analysis_results = Some (analysis_results_items render r)) :
  ∃ report_path w' document loaded,
    generate_json_report analysis_results output_dir now w =
      Some (report_path, w') ∧
    files w' !! report_path = Some document ∧
    json_load document = PyDict loaded ∧
    loaded = analysis_results_items render r ++ [("timestamp", PyStr now)] ∧
    (∀ key, key ≠ "timestamp" →
       dict_get key loaded = dict_get key (analysis_results_items render r)) ∧
    heap w' !! analysis_results = Some (analysis_results_items render r) ∧
    (∀ d items, heap w !! d = Some items → heap w' !! d = Some items).
Proof.
  destruct (analysis_results_native render r) as [Hnative Hfresh].
  destruct (generate_json_report_native w analysis_results _ output_dir now
              Hdict Hnative Hfresh) as (w' & document & Hrun & Hfile & Hload & Hheap).
  eexists _, w', document, _. split; [exact Hrun|].
  split; [exact Hfile|]. split; [exact Hload|]. split; [reflexivity|].
  split; [|split; [by apply Hheap|exact Hheap]].
  intros key Hkey. by apply dict_get_app_other.
Qed.

Lemma json_report_round_trip_witness :
  heap sample_world !! 7%nat =
    Some (analysis_results_items sample_render sample_report_input) ∧
  ∃ report_path w' document loaded,
    generate_json_report 7 "target/analysis" "2025-01-01T00:00:00" sample_world =
      Some (report_path, w') ∧
    files w' !! report_path = Some document ∧
    json_load document = PyDict loaded ∧
    loaded = analysis_results_items sample_render sample_report_input ++
             [("timestamp", PyStr "2025-01-01T00:00:00")] ∧
    (∀ key, key ≠ "timestamp" →
       dict_get key loaded =
         dict_get key (analysis_results_items sample_render sample_report_input)) ∧
    heap w' !! 7%nat =
      Some (analysis_results_items sample_render sample_report_input) ∧
    (∀ d items, heap sample_world !! d = Some items → heap w' !! d = Some items).
Proof.
  assert (heap sample_world !! 7%nat =
            Some (analysis_results_items sample_render sample_report_input)) as H
    by apply lookup_singleton_eq.
  split; [exact H|].
  exact (json_report_round_trip sample_render sample_report_input
           "target/analysis" "2025-01-01T00:00:00" sample_world 7 H).
Defined.

(** A block is recorded exactly when [int] accepts its byte count,
    whatever its call stack holds. *)
Lemma parse_memory_block_recorded block :
  is_Some (parse_memory_block block) ↔
  is_Some (py_int (remove_char ","%char (group 1 block))).
Proof.
  unfold parse_memory_block.
  destruct (py_int _) as [n|]; simpl; [|done].
  split; intros _; by eexists.
Qed.

(** The analyzer of a series returns exactly on the non-empty series
    without a zero divisor. *)
Lemma analyze_tx_series_returns series :
  (∃ a, analyze_tx_series series = inl a) ↔
  series ≠ [] ∧ divisors_nonzero Tx.tx_count Tx.throughput_tps series.
Proof.
  split.
  - intros [a Ha]. split.
    + intros ->. discriminate Ha.
    + intros i from to Hfrom Hto.
      destruct (Qeq_dec (Tx.tx_count from) 0) as [H1|H1];
        [rewrite (analyze_tx_series_zero series i from to) in Ha by auto;
         discriminate Ha|].
      destruct (Qeq_dec (Tx.throughput_tps from) 0) as [H2|H2];
        [rewrite (analyze_tx_series_zero series i from to) in Ha by auto;
         discriminate Ha|].
      destruct (Qeq_dec (Tx.tx_count to) 0) as [H3|H3];
        [rewrite (analyze_tx_series_zero series i from to) in Ha by auto;
         discriminate Ha|].
      done.
  - intros [Hne Hnz].
    destruct (analyze_tx_series_ok series Hne Hnz) as (a & Ha & _). by exists a.
Qed.

(** ** The pipeline on sample inputs *)

(** The memory parser on a report with heap totals: the first loss record
    opens the detail text, the second is the block found, the third is
    consumed as its end mark. *)
Example memory_report_parsed :
  parse_memory_profile (Some sample_memory_report) =
    Some {| heap_summary :=
              Some {| total_allocs := 1000; total_frees := 700;
                      total_bytes := 65536 |};
            memory_hotspots :=
              [ {| bytes_lost := 1000; mfunction := txt "make_shard" |} ] |} ∧
  ∃ bs,
    identify_bottlenecks no_analysis None
      (parse_memory_profile (Some sample_memory_report)) 10.0 = inl bs ∧
    type <$> bs = [memory_leak; memory_hotspot] ∧
    severity <$> bs = [high; medium].
Proof.
  split; [vm_compute; reflexivity|].
  eexists. split; [vm_compute; reflexivity|]. by split.
Qed.


(** The series [(100, 1000), (200, 1500), (400, 2000)] has efficiencies
    3/4 and 2/3; with threshold 10.0 both samples give a
    [transaction_scalability] bottleneck of severity [medium]. *)
Example end_to_end :
  ∃ a bs,
    analyze_transaction_performance (Some (transaction_document sample_tx_series)) =
      inl (Some {| throughput_analysis := Some a |}) ∧
    Forall2 Qeq (Tx.efficiency <$> Tx.scalability a) [3 # 4; 2 # 3] ∧
    identify_bottlenecks
      {| transaction_analysis := Some {| throughput_analysis := Some a |};
         sharding_analysis := None |} None None 10.0 = inl bs ∧
    type <$> bs = [transaction_scalability; transaction_scalability] ∧
    severity <$> bs = [medium; medium].
Proof.
  eexists _, _. split; [vm_compute; reflexivity|].
  split; [by repeat constructor|].
  split; [vm_compute; reflexivity|]. by split.
Qed.

(** * Further properties of the analyzers *)

Lemma py_min_spec x xs :
  ∃ m, py_min (x :: xs) = inl m ∧ m ∈ x :: xs ∧ ∀ v, v ∈ x :: xs → m <= v.
Proof.
  unfold py_min. eexists. split; [reflexivity|].
  revert x. induction xs as [|y xs IH]; intros x; simpl.
  - split; [by left|]. intros v ->%list_elem_of_singleton. apply Qle_refl.
  - destruct (Qlt_le_dec y x) as [Hlt|Hle].
    + destruct (IH y) as [Hin Hle]. split.
      * apply elem_of_cons in Hin as [->|Hin]; [right; by left|by do 2 right].
      * intros v [->|Hv]%elem_of_cons; [|by apply Hle].
        apply (Qle_trans _ y); [apply Hle; by left|by apply Qlt_le_weak].
    + destruct (IH x) as [Hin Hle']. split.
      * apply elem_of_cons in Hin as [->|Hin]; [by left|by do 2 right].
      * intros v [->|[->|Hv]%elem_of_cons]%elem_of_cons.
        -- apply Hle'. by left.
        -- apply (Qle_trans _ x); [apply Hle'; by left|done].
        -- apply Hle'. by right.
Qed.

Lemma py_max_spec x xs :
  ∃ m, py_max (x :: xs) = inl m ∧ m ∈ x :: xs ∧ ∀ v, v ∈ x :: xs → v <= m.
Proof.
  unfold py_max. eexists. split; [reflexivity|].
  revert x. induction xs as [|y xs IH]; intros x; simpl.
  - split; [by left|]. intros v ->%list_elem_of_singleton. apply Qle_refl.
  - destruct (Qlt_le_dec x y) as [Hlt|Hle].
    + destruct (IH y) as [Hin Hle]. split.
      * apply elem_of_cons in Hin as [->|Hin]; [right; by left|by do 2 right].
      * intros v [->|Hv]%elem_of_cons; [|by apply Hle].
        apply (Qle_trans _ y); [by apply Qlt_le_weak|apply Hle; by left].
    + destruct (IH x) as [Hin Hle']. split.
      * apply elem_of_cons in Hin as [->|Hin]; [by left|by do 2 right].
      * intros v [->|[->|Hv]%elem_of_cons]%elem_of_cons.
        -- apply Hle'. by left.
        -- apply (Qle_trans _ x); [done|apply Hle'; by left].
        -- apply Hle'. by right.
Qed.

Lemma py_sum_from (l : list Q) (acc : Q) :
  fold_left Qplus l acc == acc + py_sum l.
Proof.
  unfold py_sum. revert acc. induction l as [|x l IH]; intros acc; simpl.
  - ring.
  - rewrite (IH (acc + x)), (IH (0 + x)). ring.
Qed.

Lemma py_sum_cons (x : Q) (l : list Q) : py_sum (x :: l) == x + py_sum l.
Proof. unfold py_sum at 1. simpl. rewrite py_sum_from. ring. Qed.

Lemma py_len_cons {A} (x : A) (l : list A) : py_len (x :: l) == 1 + py_len l.
Proof.
  unfold py_len. rewrite length_cons, Nat2Z.inj_succ, <- Z.add_1_l.
  by rewrite inject_Z_plus.
Qed.

Lemma py_sum_bounds (l : list Q) (lo hi : Q) :
  (∀ v, v ∈ l → lo <= v ∧ v <= hi) →
  lo * py_len l <= py_sum l ∧ py_sum l <= hi * py_len l.
Proof.
  induction l as [|x l IH]; intros Hb.
  - unfold py_sum, py_len. simpl. split; rewrite Qmult_0_r; apply Qle_refl.
  - destruct (Hb x) as [Hlo Hhi]; [by left|].
    destruct IH as [IHlo IHhi]; [intros v Hv; apply Hb; by right|].
    rewrite py_sum_cons, py_len_cons. split.
    + assert (lo * (1 + py_len l) == lo + lo * py_len l) as -> by ring.
      by apply Qplus_le_compat.
    + assert (hi * (1 + py_len l) == hi + hi * py_len l) as -> by ring.
      by apply Qplus_le_compat.
Qed.

Lemma py_len_pos {A} (l : list A) : l ≠ [] → 0 < py_len l.
Proof.
  destruct l as [|x l]; [done|]. intros _.
  unfold py_len, Qlt. simpl. lia.
Qed.

(** [min], [max] and [sum / len] of a non-empty list. *)
Lemma statistics_of_values (values : list Q) :
  values ≠ [] →
  ∃ lo hi,
    py_min values = inl lo ∧ py_max values = inl hi ∧
    py_div (py_sum values) (py_len values) = inl (py_sum values / py_len values) ∧
    statistics_of values lo hi (py_sum values / py_len values).
Proof.
  intros Hne. destruct values as [|x xs]; [done|].
  destruct (py_min_spec x xs) as (lo & Hmin & Hlo_in & Hlo).
  destruct (py_max_spec x xs) as (hi & Hmax & Hhi_in & Hhi).
  pose proof (py_len_pos (x :: xs) Hne) as Hpos.
  assert (¬ py_len (x :: xs) == 0) as Hnz.
  { intros H. rewrite H in Hpos. by apply Qlt_irrefl in Hpos. }
  destruct (py_sum_bounds (x :: xs) lo hi) as [Hsum_lo Hsum_hi].
  { intros v Hv. split; [by apply Hlo|by apply Hhi]. }
  exists lo, hi. split; [done|]. split; [done|].
  split; [by apply py_div_ok|].
  split; [done|]. split; [done|].
  split; [intros v Hv; split; [by apply Hlo|by apply Hhi]|].
  split; [by apply Qle_shift_div_l|].
  split; [by apply Qle_shift_div_r|].
  field. done.
Qed.

Lemma analyze_tx_series_inv series a :
  analyze_tx_series series = inl a →
  series ≠ [] ∧
  divisors_nonzero Tx.tx_count Tx.throughput_tps series ∧
  Tx.data a = series ∧
  adjacent_pairs Tx.tx_count Tx.throughput_tps Tx.Build_scal series
    (Tx.scalability a) ∧
  statistics_of (Tx.throughput_tps <$> series)
    (Tx.min_tps a) (Tx.max_tps a) (Tx.avg_tps a).
Proof.
  intros Ha.
  destruct (proj1 (analyze_tx_series_returns series)) as [Hne Hnz]; [by exists a|].
  split; [done|]. split; [done|].
  unfold analyze_tx_series in Ha.
  destruct (scalability_loop_ok Tx.tx_count Tx.throughput_tps Tx.Build_scal
              series Hnz) as (scal & Hscal & Hadj).
  destruct (statistics_of_values (Tx.throughput_tps <$> series))
    as (lo & hi & Hmin & Hmax & Hdiv & Hstat).
  { by destruct series. }
  rewrite Hscal, Hmin, Hmax in Ha. simpl in Ha. rewrite Hdiv in Ha.
  simpl in Ha. injection Ha as <-. simpl. done.
Qed.

Lemma analyze_creation_series_returns series :
  (∃ a, analyze_creation_series series = inl a) ↔
  series ≠ [] ∧ divisors_nonzero Shard.shard_count Shard.throughput_sps series.
Proof.
  split.
  - intros [a Ha]. split.
    + intros ->. discriminate Ha.
    + intros i from to Hfrom Hto.
      destruct (Qeq_dec (Shard.shard_count from) 0) as [H1|H1];
        [rewrite (analyze_creation_series_zero series i from to) in Ha by auto;
         discriminate Ha|].
      destruct (Qeq_dec (Shard.throughput_sps from) 0) as [H2|H2];
        [rewrite (analyze_creation_series_zero series i from to) in Ha by auto;
         discriminate Ha|].
      destruct (Qeq_dec (Shard.shard_count to) 0) as [H3|H3];
        [rewrite (analyze_creation_series_zero series i from to) in Ha by auto;
         discriminate Ha|].
      done.
  - intros [Hne Hnz].
    destruct (analyze_creation_series_ok series Hne Hnz) as (a & Ha & _).
    by exists a.
Qed.

Lemma analyze_creation_series_inv series a :
  analyze_creation_series series = inl a →
  series ≠ [] ∧
  divisors_nonzero Shard.shard_count Shard.throughput_sps series ∧
  Shard.data a = series ∧
  adjacent_pairs Shard.shard_count Shard.throughput_sps Shard.Build_scal series
    (Shard.scalability a) ∧
  statistics_of (Shard.throughput_sps <$> series)
    (Shard.min_sps a) (Shard.max_sps a) (Shard.avg_sps a).
Proof.
  intros Ha.
  destruct (proj1 (analyze_creation_series_returns series)) as [Hne Hnz];
    [by exists a|].
  split; [done|]. split; [done|].
  unfold analyze_creation_series in Ha.
  destruct (scalability_loop_ok Shard.shard_count Shard.throughput_sps
              Shard.Build_scal series Hnz) as (scal & Hscal & Hadj).
  destruct (statistics_of_values (Shard.throughput_sps <$> series))
    as (lo & hi & Hmin & Hmax & Hdiv & Hstat).
  { by destruct series. }
  rewrite Hscal, Hmin, Hmax in Ha. simpl in Ha. rewrite Hdiv in Ha.
  simpl in Ha. injection Ha as <-. simpl. done.
Qed.

(** What the analyzers return, in terms of the series analysed. *)
Lemma analyze_transaction_performance_inv b r :
  analyze_transaction_performance b = inl (Some r) →
  ∃ doc td,
    b = Some doc ∧ transaction_benchmark doc = Some td ∧
    match throughput td with
    | Some series =>
        ∃ a, throughput_analysis r = Some a ∧ analyze_tx_series series = inl a
    | None => throughput_analysis r = None
    end.
Proof.
  unfold analyze_transaction_performance. intros H.
  destruct b as [doc|]; [|discriminate H].
  destruct (transaction_benchmark doc) as [td|] eqn:Htd; [|discriminate H].
  exists doc, td. split; [done|]. split; [done|].
  destruct (throughput td) as [series|]; simpl in H.
  - destruct (analyze_tx_series series) as [a|e]; simpl in H; [|discriminate H].
    injection H as <-. by exists a.
  - by injection H as <-.
Qed.

Lemma analyze_sharding_performance_inv b r :
  analyze_sharding_performance b = inl (Some r) →
  ∃ doc sd,
    b = Some doc ∧ sharding_benchmark doc = Some sd ∧
    match shard_creation sd with
    | Some series =>
        ∃ a, creation_analysis r = Some a ∧ analyze_creation_series series = inl a
    | None => creation_analysis r = None
    end ∧
    match cross_shard_transactions sd with
    | Some series =>
        ∃ a, cross_shard_analysis r = Some a ∧ analyze_tx_series series = inl a
    | None => cross_shard_analysis r = None
    end.
Proof.
  unfold analyze_sharding_performance. intros H.
  destruct b as [doc|]; [|discriminate H].
  destruct (sharding_benchmark doc) as [sd|] eqn:Hsd; [|discriminate H].
  exists doc, sd. split; [done|]. split; [done|].
  destruct (shard_creation sd) as [creation|]; simpl in H.
  - destruct (analyze_creation_series creation) as [c|e]; simpl in H; [|discriminate H].
    destruct (cross_shard_transactions sd) as [cross|]; simpl in H.
    + destruct (analyze_tx_series cross) as [x|e]; simpl in H; [|discriminate H].
      injection H as <-. split; [by exists c|by exists x].
    + injection H as <-. split; [by exists c|done].
  - destruct (cross_shard_transactions sd) as [cross|]; simpl in H.
    + destruct (analyze_tx_series cross) as [x|e]; simpl in H; [|discriminate H].
      injection H as <-. split; [done|by exists x].
    + by injection H as <-.
Qed.

(** X1.  Every analysis an analyzer returns carries the extremes of its
    series: the minimum and the maximum are throughputs of samples of the
    series kept in [data], and no throughput of the series is below the
    minimum or above the maximum. *)
Theorem analysis_statistics :
  (∀ b r a,
     analyze_transaction_performance b = inl (Some r) →
     throughput_analysis r = Some a →
     extremes_of (Tx.throughput_tps <$> Tx.data a) (Tx.min_tps a) (Tx.max_tps a)) ∧
  (∀ b r,
     analyze_sharding_performance b = inl (Some r) →
     (∀ a, creation_analysis r = Some a →
           extremes_of (Shard.throughput_sps <$> Shard.data a)
             (Shard.min_sps a) (Shard.max_sps a)) ∧
     (∀ a, cross_shard_analysis r = Some a →
           extremes_of (Tx.throughput_tps <$> Tx.data a)
             (Tx.min_tps a) (Tx.max_tps a))).
Proof.
  assert (∀ values lo hi avg,
            statistics_of values lo hi avg → extremes_of values lo hi) as Hext.
  { intros values lo hi avg (H1 & H2 & H3 & _). split; [done|]. split; [done|].
    intros v Hv. destruct (H3 v Hv) as [Hlo Hhi].
    split; by apply Qle_not_lt. }
  split.
  - intros b r a Hr Ha.
    destruct (analyze_transaction_performance_inv b r Hr)
      as (doc & td & _ & _ & Hseries).
    destruct (throughput td) as [series|]; [|congruence].
    destruct Hseries as (a' & Ha' & Hrun). simplify_eq.
    destruct (analyze_tx_series_inv _ _ Hrun) as (_ & _ & -> & _ & Hstat).
    eapply Hext. exact Hstat.
  - intros b r Hr.
    destruct (analyze_sharding_performance_inv b r Hr)
      as (doc & sd & _ & _ & Hcreation & Hcross).
    split; intros a Ha.
    + destruct (shard_creation sd) as [series|]; [|congruence].
      destruct Hcreation as (a' & Ha' & Hrun). simplify_eq.
      destruct (analyze_creation_series_inv _ _ Hrun) as (_ & _ & -> & _ & Hstat).
      eapply Hext. exact Hstat.
    + destruct (cross_shard_transactions sd) as [series|]; [|congruence].
      destruct Hcross as (a' & Ha' & Hrun). simplify_eq.
      destruct (analyze_tx_series_inv _ _ Hrun) as (_ & _ & -> & _ & Hstat).
      eapply Hext. exact Hstat.
Qed.

Lemma Qdiv_one_iff (x d : Q) : ¬ d == 0 → (x / d == 1 ↔ x == d).
Proof.
  intros Hd. split; intros H.
  - rewrite <- (Qmult_div_r x d Hd), H. ring.
  - rewrite H. by field.
Qed.

(** Every entry of the scalability sequence comes from a pair of adjacent
    samples without a zero divisor. *)
Lemma adjacent_pairs_entry {I R} (size rate : I → Q) (mk : Q → Q → Q → Q → Q → R)
    (series : list I) (scal : list R) (j : nat) (e : R) :
  divisors_nonzero size rate series →
  adjacent_pairs size rate mk series scal →
  scal !! j = Some e →
  ∃ from to,
    series !! j = Some from ∧ series !! S j = Some to ∧
    ¬ size from == 0 ∧ ¬ rate from == 0 ∧ ¬ size to == 0 ∧
    e = mk (size from) (size to) (rate from) (rate to)
           ((rate to / rate from) / (size to / size from)).
Proof.
  intros Hnz [Hlen Hadj] He.
  pose proof (lookup_lt_Some _ _ _ He) as Hj.
  destruct (Hadj (S j)) as (from & to & Hfrom & Hto & Hentry); [lia|].
  replace (S j - 1)%nat with j in Hfrom, Hentry by lia.
  destruct (Hnz j from to Hfrom Hto) as (H1 & H2 & H3).
  exists from, to. repeat (split; [done|]). congruence.
Qed.

(** X2.  In every analysis returned, the efficiency of a scalability entry
    is the throughput ratio of the entry divided by its size ratio, none
    of the divisors being zero, and it equals 1 exactly when the two
    ratios are equal. *)
Theorem efficiency_is_ratio_of_ratios :
  (∀ series a e,
     analyze_tx_series series = inl a → e ∈ Tx.scalability a →
     ¬ Tx.tx_count_from e == 0 ∧ ¬ Tx.tps_from e == 0 ∧ ¬ Tx.tx_count_to e == 0 ∧
     Tx.efficiency e =
       (Tx.tps_to e / Tx.tps_from e) / (Tx.tx_count_to e / Tx.tx_count_from e) ∧
     (Tx.efficiency e == 1 ↔
      Tx.tps_to e / Tx.tps_from e == Tx.tx_count_to e / Tx.tx_count_from e)) ∧
  (∀ series a e,
     analyze_creation_series series = inl a → e ∈ Shard.scalability a →
     ¬ Shard.shard_count_from e == 0 ∧ ¬ Shard.sps_from e == 0 ∧
     ¬ Shard.shard_count_to e == 0 ∧
     Shard.efficiency e =
       (Shard.sps_to e / Shard.sps_from e) /
       (Shard.shard_count_to e / Shard.shard_count_from e) ∧
     (Shard.efficiency e == 1 ↔
      Shard.sps_to e / Shard.sps_from e ==
      Shard.shard_count_to e / Shard.shard_count_from e)).
Proof.
  split; intros series a e Ha [j Hj]%list_elem_of_lookup.
  - destruct (analyze_tx_series_inv _ _ Ha) as (_ & Hnz & _ & Hadj & _).
    destruct (adjacent_pairs_entry _ _ _ _ _ _ _ Hnz Hadj Hj)
      as (from & to & _ & _ & H1 & H2 & H3 & ->). simpl.
    repeat (split; [done|]).
    apply Qdiv_one_iff. by apply Qdiv_nonzero.
  - destruct (analyze_creation_series_inv _ _ Ha) as (_ & Hnz & _ & Hadj & _).
    destruct (adjacent_pairs_entry _ _ _ _ _ _ _ Hnz Hadj Hj)
      as (from & to & _ & _ & H1 & H2 & H3 & ->). simpl.
    repeat (split; [done|]).
    apply Qdiv_one_iff. by apply Qdiv_nonzero.
Qed.

(** X3.  The scalability sequence of an analysis is a chain over the
    series: the first entry starts at the first sample, each entry starts
    at the sample the previous one ends at, and the last entry ends at
    the last sample. *)
Theorem scalability_is_a_chain (series : list Tx.item) (a : Tx.throughput_analysis)
    (Ha : analyze_tx_series series = inl a) :
  (∀ e first, head (Tx.scalability a) = Some e → head series = Some first →
     Tx.tx_count_from e = Tx.tx_count first ∧
     Tx.tps_from e = Tx.throughput_tps first) ∧
  (∀ j e e', Tx.scalability a !! j = Some e → Tx.scalability a !! S j = Some e' →
     Tx.tx_count_to e = Tx.tx_count_from e' ∧ Tx.tps_to e = Tx.tps_from e') ∧
  (∀ e final, last (Tx.scalability a) = Some e → last series = Some final →
     Tx.tx_count_to e = Tx.tx_count final ∧
     Tx.tps_to e = Tx.throughput_tps final).
Proof.
  destruct (analyze_tx_series_inv _ _ Ha) as (_ & Hnz & _ & Hadj & _).
  split; [|split].
  - intros e first He Hfirst. rewrite head_lookup in He.
    rewrite head_lookup in Hfirst.
    destruct (adjacent_pairs_entry _ _ _ _ _ _ _ Hnz Hadj He)
      as (from & to & Hfrom & _ & _ & _ & _ & ->). by simplify_eq.
  - intros j e e' He He'.
    destruct (adjacent_pairs_entry _ _ _ _ _ _ _ Hnz Hadj He)
      as (from & to & _ & Hto & _ & _ & _ & ->).
    destruct (adjacent_pairs_entry _ _ _ _ _ _ _ Hnz Hadj He')
      as (from' & to' & Hfrom' & _ & _ & _ & _ & ->). by simplify_eq.
  - intros e final He Hfinal. rewrite last_lookup in He.
    rewrite last_lookup in Hfinal.
    destruct (adjacent_pairs_entry _ _ _ _ _ _ _ Hnz Hadj He)
      as (from & to & _ & Hto & _ & _ & _ & ->).
    destruct Hadj as [Hlen _]. rewrite Hlen in Hto.
    pose proof (lookup_lt_Some _ _ _ He) as Hlt. rewrite Hlen in Hlt.
    replace (S (pred (length series - 1))) with (pred (length series)) in Hto
      by lia.
    by simplify_eq.
Qed.

Lemma scalability_is_a_chain_witness :
  ∃ a, analyze_tx_series sample_tx_series = inl a ∧
       ∀ j e e', Tx.scalability a !! j = Some e →
                 Tx.scalability a !! S j = Some e' →
                 Tx.tx_count_to e = Tx.tx_count_from e' ∧
                 Tx.tps_to e = Tx.tps_from e'.
Proof.
  eexists. split; [vm_compute; reflexivity|].
  apply (scalability_is_a_chain sample_tx_series). vm_compute. reflexivity.
Defined.

Lemma for_append_inr_inv {A B} (body : A → result B) xs e :
  for_append body xs = inr e → ∃ x, x ∈ xs ∧ body x = inr e.
Proof.
  induction xs as [|x xs IH]; [done|]. simpl.
  destruct (body x) as [y|e'] eqn:Hx; simpl.
  - destruct (for_append body xs) as [ys|e'']; simpl; [done|].
    intros [= ->]. destruct IH as (x' & Hin & Hx'); [done|].
    exists x'. split; [by right|done].
  - intros [= ->]. exists x. split; [by left|done].
Qed.

(** X5.  [analyze_sharding_performance] gives an analysis only when every
    series present is analysable: an error in the shard-creation series is
    the result whatever the cross-shard series holds, and an error in the
    cross-shard series is the result when the creation series is absent
    or analysable, so one faulty series loses the analysis of the other. *)
Theorem sharding_errors_propagate (doc : benchmark_results) (sd : sharding_data)
    (Hsd : sharding_benchmark doc = Some sd) :
  (∀ creation e,
     shard_creation sd = Some creation →
     analyze_creation_series creation = inr e →
     analyze_sharding_performance (Some doc) = inr e) ∧
  (∀ cross e,
     cross_shard_transactions sd = Some cross →
     analyze_tx_series cross = inr e →
     (∀ creation, shard_creation sd = Some creation →
                  ∃ c, analyze_creation_series creation = inl c) →
     analyze_sharding_performance (Some doc) = inr e).
Proof.
  unfold analyze_sharding_performance. rewrite Hsd. split.
  - intros creation e -> Hrun. simpl. by rewrite Hrun.
  - intros cross e -> Hrun Hcreation.
    destruct (shard_creation sd) as [creation|]; simpl.
    + destruct (Hcreation creation eq_refl) as [c ->]. simpl. by rewrite Hrun.
    + by rewrite Hrun.
Qed.

Lemma sharding_errors_propagate_witness :
  analyze_tx_series sample_tx_series ≠ inr ZeroDivisionError ∧
  analyze_sharding_performance (Some faulty_creation_document) =
    inr ZeroDivisionError.
Proof.
  split; [vm_compute; discriminate|].
  refine (proj1 (sharding_errors_propagate faulty_creation_document _ eq_refl)
            _ ZeroDivisionError eq_refl _).
  vm_compute. reflexivity.
Defined.

Lemma scalability_severity_proper e e' :
  e == e' → scalability_severity e = scalability_severity e'.
Proof.
  intros He. unfold scalability_severity.
  destruct (Qlt_le_dec e 0.5) as [H|H], (Qlt_le_dec e' 0.5) as [H'|H']; try done.
  - rewrite He in H. by apply Qlt_not_le in H.
  - rewrite He in H. by apply Qlt_not_le in H'.
Qed.

(** Samples of equal efficiencies are flagged alike. *)
Lemma tx_scalability_rule_proper thr (l l' : list Tx.scal) :
  Forall2 (λ e e', Tx.efficiency e == Tx.efficiency e') l l' →
  severity <$> tx_scalability_rule thr l = severity <$> tx_scalability_rule thr l'.
Proof.
  unfold tx_scalability_rule.
  induction 1 as [|e e' l l' He _ IH]; [done|]. csimpl.
  rewrite !fmap_app, IH. f_equal.
  destruct (Qlt_le_dec (Tx.efficiency e) _) as [H|H],
           (Qlt_le_dec (Tx.efficiency e') _) as [H'|H']; simpl.
  - f_equal. by apply scalability_severity_proper.
  - rewrite He in H. by apply Qlt_not_le in H.
  - rewrite He in H. by apply Qlt_not_le in H'.
  - done.
Qed.

(** * Further properties of the detector *)

Lemma filter_sublist_mono {A} (P1 P2 : A → Prop)
    `{!∀ x, Decision (P1 x)} `{!∀ x, Decision (P2 x)} (l : list A) :
  (∀ x, P2 x → P1 x) → filter P2 l `sublist_of` filter P1 l.
Proof.
  intros Himp. induction l as [|x l IH]; [done|].
  destruct (decide (P2 x)) as [H2|H2].
  - rewrite (filter_cons_True P2), (filter_cons_True P1) by auto.
    by apply sublist_skip.
  - rewrite (filter_cons_False P2) by done.
    destruct (decide (P1 x)) as [H1|H1].
    + rewrite (filter_cons_True P1) by done. by apply sublist_cons.
    + by rewrite (filter_cons_False P1).
Qed.

Lemma tx_scalability_rule_filter thr l :
  tx_scalability_rule thr l =
    (λ item, {| type := transaction_scalability;
                severity := scalability_severity (Tx.efficiency item);
                description := tx_scalability_text (Tx.tx_count_from item)
                                 (Tx.tx_count_to item) (Tx.efficiency item);
                recommendation := "並列処理の最適化、バッチ処理の導入、またはリソース競合の削減を検討してください。" |})
    <$> filter (λ item, Tx.efficiency item < 1.0 - thr / 100) l.
Proof.
  unfold tx_scalability_rule.
  apply (bind_if_filter (λ item, Tx.efficiency item < 1.0 - thr / 100)
           (λ item, 1.0 - thr / 100 <= Tx.efficiency item)).
  intros x H H'. by apply Qlt_not_le in H'.
Qed.

Lemma shard_creation_rule_filter thr l :
  shard_creation_rule thr l =
    (λ item, {| type := shard_creation_scalability;
                severity := scalability_severity (Shard.efficiency item);
                description := shard_scalability_text (Shard.shard_count_from item)
                                 (Shard.shard_count_to item) (Shard.efficiency item);
                recommendation := "シャード作成プロセスの並列化、メタデータ管理の最適化を検討してください。" |})
    <$> filter (λ item, Shard.efficiency item < 1.0 - thr / 100) l.
Proof.
  unfold shard_creation_rule.
  apply (bind_if_filter (λ item, Shard.efficiency item < 1.0 - thr / 100)
           (λ item, 1.0 - thr / 100 <= Shard.efficiency item)).
  intros x H H'. by apply Qlt_not_le in H'.
Qed.

Lemma cross_shard_rule_filter thr l :
  cross_shard_rule thr l =
    (λ item, {| type := cross_shard_scalability;
                severity := scalability_severity (Tx.efficiency item);
                description := cross_shard_scalability_text (Tx.tx_count_from item)
                                 (Tx.tx_count_to item) (Tx.efficiency item);
                recommendation := "シャード間通信の最適化、バッチ処理の導入、またはシャード配置アルゴリズムの改善を検討してください。" |})
    <$> filter (λ item, Tx.efficiency item < 1.0 - thr / 100) l.
Proof.
  unfold cross_shard_rule.
  apply (bind_if_filter (λ item, Tx.efficiency item < 1.0 - thr / 100)
           (λ item, 1.0 - thr / 100 <= Tx.efficiency item)).
  intros x H H'. by apply Qlt_not_le in H'.
Qed.

Lemma cpu_hotspot_rule_filter thr hs :
  cpu_hotspot_rule thr hs =
    (λ hotspot, {| type := cpu_hotspot;
                   severity := cpu_severity (overhead hotspot);
                   description := cpu_hotspot_text (overhead hotspot) (function hotspot);
                   recommendation := "この関数のアルゴリズムの最適化、キャッシュの活用、または並列処理の導入を検討してください。" |})
    <$> filter (λ hotspot, thr < overhead hotspot) (take 5 hs).
Proof.
  unfold cpu_hotspot_rule.
  apply (bind_if_filter (λ h, thr < overhead h) (λ h, overhead h <= thr)).
  intros x H H'. by apply Qlt_not_le in H'.
Qed.

Lemma memory_hotspot_rule_map mh :
  memory_hotspot_rule mh =
    (λ hotspot, {| type := memory_hotspot;
                   severity := medium;
                   description := memory_hotspot_text (mfunction hotspot)
                                    (bytes_lost hotspot);
                   recommendation := "この関数のメモリ管理を見直し、すべてのリソースが適切に解放されていることを確認してください。" |})
    <$> take 5 mh.
Proof.
  unfold memory_hotspot_rule. generalize (take 5 mh). intros l.
  induction l as [|h l IH]; [done|]. csimpl. by rewrite IH.
Qed.

Lemma cutoff_antitone thr1 thr2 : thr1 <= thr2 → 1.0 - thr2 / 100 <= 1.0 - thr1 / 100.
Proof.
  intros H. apply Qplus_le_r, Qopp_le_compat.
  apply Qmult_le_compat_r; [done|]. by unfold Qle.
Qed.

Lemma leaks_antitone thr1 thr2 heap : thr1 <= thr2 → leaks thr2 heap → leaks thr1 heap.
Proof.
  intros H [Hpos Hratio]. split; [done|].
  eapply Qle_lt_trans; [|exact Hratio].
  apply Qmult_le_compat_r; [done|]. by unfold Qle.
Qed.

(** X7.  Raising the threshold only removes findings: the bottlenecks found
    at a threshold are a sublist, in the same order and with the same
    content, of those found at any lower threshold. *)
Theorem threshold_only_removes ar cpu mp (thr1 thr2 : Q) (Hle : thr1 <= thr2) :
  ∃ bs1 bs2,
    identify_bottlenecks ar cpu mp thr1 = inl bs1 ∧
    identify_bottlenecks ar cpu mp thr2 = inl bs2 ∧
    bs2 `sublist_of` bs1.
Proof.
  eexists _, _. split; [apply identify_bottlenecks_segments|].
  split; [apply identify_bottlenecks_segments|].
  pose proof (cutoff_antitone _ _ Hle) as Hcut.
  repeat apply sublist_app.
  - rewrite !tx_scalability_rule_filter. apply fmap_sublist.
    apply filter_sublist_mono. intros x Hx. by eapply Qlt_le_trans.
  - rewrite !shard_creation_rule_filter. apply fmap_sublist.
    apply filter_sublist_mono. intros x Hx. by eapply Qlt_le_trans.
  - rewrite !cross_shard_rule_filter. apply fmap_sublist.
    apply filter_sublist_mono. intros x Hx. by eapply Qlt_le_trans.
  - rewrite !cpu_hotspot_rule_filter. apply fmap_sublist.
    apply filter_sublist_mono. intros x Hx. by eapply Qle_lt_trans.
  - unfold leak_findings. destruct (heap_of mp) as [heap|]; [|done].
    rewrite !memory_leak_rule_eq.
    destruct (decide (leaks thr2 heap)) as [H2|H2].
    + by rewrite decide_True by by eapply leaks_antitone.
    + apply sublist_nil_l.
  - done.
Qed.

Lemma threshold_only_removes_witness :
  ∃ bs1 bs2,
    identify_bottlenecks (transaction_only 0.85) None
      (Some (heap_only 1000 700)) 10.0 = inl bs1 ∧
    identify_bottlenecks (transaction_only 0.85) None
      (Some (heap_only 1000 700)) 20.0 = inl bs2 ∧
    bs2 `sublist_of` bs1.
Proof.
  apply (threshold_only_removes (transaction_only 0.85) None
           (Some (heap_only 1000 700)) 10.0 20.0).
  by unfold Qle.
Defined.

Lemma length_filter_le {A} (P : A → Prop) `{!∀ x, Decision (P x)} (l : list A) :
  (length (filter P l) ≤ length l)%nat.
Proof. apply sublist_length, sublist_filter. Qed.

(** X8.  The detector returns at most one bottleneck per scalability
    sample, five CPU findings, one leak finding and five memory findings:
    with the profiles absent the bound is the number of samples, and with
    them it is eleven more at most. *)
Theorem bottleneck_count_bound ar cpu mp thr :
  ∃ bs,
    identify_bottlenecks ar cpu mp thr = inl bs ∧
    (length bs ≤
       length (transaction_samples ar) + length (creation_samples ar) +
       length (cross_shard_samples ar) +
       (length (cpu_hotspots_of cpu) `min` 5) + 1 +
       (length (memory_hotspots_of mp) `min` 5))%nat ∧
    (cpu = None → mp = None →
     length bs ≤ length (transaction_samples ar) + length (creation_samples ar) +
                 length (cross_shard_samples ar))%nat.
Proof.
  eexists. split; [apply identify_bottlenecks_segments|].
  rewrite !length_app.
  rewrite tx_scalability_rule_filter, shard_creation_rule_filter,
    cross_shard_rule_filter, cpu_hotspot_rule_filter, memory_hotspot_rule_map.
  rewrite !length_fmap.
  pose proof (length_filter_le (λ item, Tx.efficiency item < 1.0 - thr / 100)
                (transaction_samples ar)) as H1.
  pose proof (length_filter_le (λ item, Shard.efficiency item < 1.0 - thr / 100)
                (creation_samples ar)) as H2.
  pose proof (length_filter_le (λ item, Tx.efficiency item < 1.0 - thr / 100)
                (cross_shard_samples ar)) as H3.
  pose proof (length_filter_le (λ h, thr < overhead h)
                (take 5 (cpu_hotspots_of cpu))) as H4.
  rewrite length_take in H4. rewrite length_take.
  assert (length (leak_findings thr mp) ≤ 1)%nat as H5.
  { unfold leak_findings. destruct (heap_of mp) as [heap|]; [|simpl; lia].
    rewrite memory_leak_rule_eq. case_decide; simpl; lia. }
  split; [lia|].
  intros -> ->. simpl in *. lia.
Qed.

(** X10.  The memory hotspots are reported whatever the threshold: the
    [memory_hotspot] bottlenecks are the first five memory hotspots of the
    profile, in order, each of severity [medium] and carrying the
    function and the bytes of its hotspot. *)
Theorem memory_hotspots_unconditional ar cpu (heap : option heap_summary_t)
    (mh : list memory_hotspot_t) thr :
  ∃ bs,
    identify_bottlenecks ar cpu
      (Some {| heap_summary := heap; memory_hotspots := mh |}) thr = inl bs ∧
    length (of_type memory_hotspot bs) = (length mh `min` 5)%nat ∧
    Forall2
      (λ h b, type b = memory_hotspot ∧ severity b = medium ∧
              description b = memory_hotspot_text (mfunction h) (bytes_lost h))
      (take 5 mh) (of_type memory_hotspot bs).
Proof.
  destruct (identify_bottlenecks_of_type ar cpu
              (Some {| heap_summary := heap; memory_hotspots := mh |}) thr)
    as (bs & Hbs & _ & _ & _ & _ & _ & _ & E6).
  exists bs. split; [done|]. rewrite E6, memory_hotspot_rule_map. simpl.
  split; [by rewrite length_fmap, length_take; lia|].
  apply Forall2_fmap_r, Forall2_same_length_lookup_2; [done|].
  intros i x y Hx Hy. by simplify_eq.
Qed.

Lemma bottleneck_origin ar cpu mp thr bs b :
  identify_bottlenecks ar cpu mp thr = inl bs → b ∈ bs →
  caused_by ar cpu mp thr b.
Proof.
  rewrite identify_bottlenecks_segments. intros [= <-].
  rewrite !elem_of_app,
    tx_scalability_rule_filter, shard_creation_rule_filter,
    cross_shard_rule_filter, cpu_hotspot_rule_filter, memory_hotspot_rule_map.
  rewrite !list_elem_of_fmap. unfold caused_by.
  intros [(x & -> & [Hx Hin]%list_elem_of_filter)
         |[(x & -> & [Hx Hin]%list_elem_of_filter)
         |[(x & -> & [Hx Hin]%list_elem_of_filter)
         |[(x & -> & [Hx Hin]%list_elem_of_filter)
         |[Hleak|(x & -> & Hin)]]]]]; simpl; eauto.
  unfold leak_findings in Hleak.
  destruct (heap_of mp) as [heap|]; [|by apply elem_of_nil in Hleak].
  rewrite memory_leak_rule_eq in Hleak.
  case_decide as Hl; [|by apply elem_of_nil in Hleak].
  apply list_elem_of_singleton in Hleak as ->. simpl. eauto.
Qed.

(** X9.  No finding is spurious: every bottleneck the detector returns is
    caused by a datum of its input, a scalability sample of its facet
    below the cutoff, one of the first five CPU hotspots above the
    threshold, a heap summary that leaks, or one of the first five memory
    hotspots, and its severity is the one of that datum. *)
Theorem findings_have_causes ar cpu mp thr :
  ∃ bs, identify_bottlenecks ar cpu mp thr = inl bs ∧
        ∀ b, b ∈ bs → caused_by ar cpu mp thr b.
Proof.
  eexists. split; [apply identify_bottlenecks_segments|].
  intros b Hb. eapply bottleneck_origin; [apply identify_bottlenecks_segments|done].
Qed.

Lemma Qle_lt_false (x y : Q) : x <= y → y < x → False.
Proof. intros H H'. by apply Qlt_not_le in H'. Qed.

(** X11.  Severity against the threshold: only [cpu_hotspot] findings can
    be [low]; from threshold 15 on nothing is [low]; from threshold 30 on
    every CPU finding is [high]; from threshold 50 on every scalability
    finding is [high]; leak findings are always [high] and memory hotspot
    findings always [medium]. *)
Theorem severity_by_threshold ar cpu mp thr :
  ∃ bs, identify_bottlenecks ar cpu mp thr = inl bs ∧
        ∀ b, b ∈ bs →
          (severity b = low → type b = cpu_hotspot) ∧
          (15 <= thr → severity b ≠ low) ∧
          (30 <= thr → type b = cpu_hotspot → severity b = high) ∧
          (50 <= thr →
           type b ∈ [transaction_scalability; shard_creation_scalability;
                     cross_shard_scalability] →
           severity b = high) ∧
          (type b = memory_leak → severity b = high) ∧
          (type b = memory_hotspot → severity b = medium).
Proof.
  eexists. split; [apply identify_bottlenecks_segments|].
  intros b Hb.
  pose proof (bottleneck_origin ar cpu mp thr _ b
                (identify_bottlenecks_segments ar cpu mp thr) Hb) as Hcause.
  unfold caused_by in Hcause.
  assert (∀ e, 50 <= thr → e < 1.0 - thr / 100 → scalability_severity e = high)
    as Hscal.
  { intros e H50 He. apply scalability_severity_high.
    eapply Qlt_le_trans; [exact He|].
    apply (Qle_trans _ (1.0 - 50 / 100)); [by apply cutoff_antitone|].
    by unfold Qle. }
  assert (∀ e, scalability_severity e ≠ low) as Hnolow.
  { intros e. unfold scalability_severity. by destruct (Qlt_le_dec e 0.5). }
  assert (∀ t : bottleneck_type,
            t ∈ [transaction_scalability; shard_creation_scalability;
                 cross_shard_scalability] →
            t ≠ cpu_hotspot ∧ t ≠ memory_leak ∧ t ≠ memory_hotspot) as Hkinds.
  { intros t Hin. repeat (apply elem_of_cons in Hin as [->|Hin]; [done|]).
    by apply elem_of_nil in Hin. }
  destruct (type b) eqn:Ht;
    [destruct Hcause as (item & _ & Hlt & ->)
    |destruct Hcause as (item & _ & Hlt & ->)
    |destruct Hcause as (item & _ & Hlt & ->)
    |destruct Hcause as (h & _ & Hlt & ->)
    |destruct Hcause as (heap & _ & _ & ->)
    |destruct Hcause as (h & _ & ->)];
    (split; [|split; [|split; [|split; [|split]]]]).
  all: try done.
  all: try (intros H; by apply Hnolow in H).
  all: try (intros _; by apply Hnolow).
  all: try (intros H50 _; by apply Hscal).
  all: try (intros _ Hin; destruct (Hkinds _ Hin) as (? & ? & ?); done).
  - intros H15 Hlow%cpu_severity_low.
    apply (Qle_lt_false (overhead h) 15); [done|]. by eapply Qle_lt_trans.
  - intros H30 _. apply cpu_severity_high. by eapply Qle_lt_trans.
Qed.

Lemma filter_none {A} (P : A → Prop) `{!∀ x, Decision (P x)} (l : list A) :
  Forall (λ x, ¬ P x) l → filter P l = [].
Proof.
  induction 1 as [|x l Hx _ IH]; [done|]. by rewrite filter_cons_False.
Qed.

(** X12.  With a threshold that is not negative, ideal and super-linear
    scaling is never flagged: facets whose samples all have an efficiency
    of 1 or more give no scalability bottleneck.  A threshold of -1 or
    less moves the cutoff to 1.01 or more, and then a sample of efficiency
    exactly 1 is flagged, with severity [medium]. *)
Theorem ideal_scaling_not_flagged :
  (∀ ar cpu mp thr,
     0 <= thr →
     Forall (λ item, 1 <= Tx.efficiency item) (transaction_samples ar) →
     Forall (λ item, 1 <= Shard.efficiency item) (creation_samples ar) →
     Forall (λ item, 1 <= Tx.efficiency item) (cross_shard_samples ar) →
     ∃ bs,
       identify_bottlenecks ar cpu mp thr = inl bs ∧
       of_type transaction_scalability bs = [] ∧
       of_type shard_creation_scalability bs = [] ∧
       of_type cross_shard_scalability bs = []) ∧
  (∀ thr, thr <= -1 →
     ∃ b, identify_bottlenecks (transaction_only 1) None None thr = inl [b] ∧
          type b = transaction_scalability ∧ severity b = medium).
Proof.
  split.
  - intros ar cpu mp thr Hthr Htx Hcreation Hcross.
    assert (1.0 - thr / 100 <= 1) as Hcut.
    { apply (Qle_trans _ (1.0 - 0 / 100)); [by apply cutoff_antitone|].
      by unfold Qle. }
    destruct (identify_bottlenecks_of_type ar cpu mp thr)
      as (bs & Hbs & _ & E1 & E2 & E3 & _).
    exists bs. split; [done|]. rewrite E1, E2, E3.
    rewrite tx_scalability_rule_filter, shard_creation_rule_filter,
      cross_shard_rule_filter.
    rewrite !filter_none; [done|..].
    + eapply Forall_impl; [exact Hcross|]. intros x Hx Hlt.
      apply (Qle_lt_false 1 (Tx.efficiency x)); [done|]. by eapply Qlt_le_trans.
    + eapply Forall_impl; [exact Hcreation|]. intros x Hx Hlt.
      apply (Qle_lt_false 1 (Shard.efficiency x)); [done|].
      by eapply Qlt_le_trans.
    + eapply Forall_impl; [exact Htx|]. intros x Hx Hlt.
      apply (Qle_lt_false 1 (Tx.efficiency x)); [done|]. by eapply Qlt_le_trans.
  - intros thr Hthr.
    assert (thr < 0) as Hneg by (eapply Qle_lt_trans; [exact Hthr|reflexivity]).
    assert (1 < 1.0 - thr / 100) as Hcut.
    { assert (1.0 - thr / 100 == 1 + (- thr) * (1 # 100)) as -> by field.
      rewrite <- (Qplus_0_r 1) at 1. apply Qplus_lt_r.
      apply Qmult_lt_0_compat; [|done].
      apply (Qopp_lt_compat thr 0) in Hneg. exact Hneg. }
    eexists. rewrite identify_bottlenecks_segments. simpl.
    unfold tx_scalability_rule. csimpl.
    destruct (Qlt_le_dec 1 (1.0 - thr / 100)) as [_|Hle];
      [|by apply Qlt_not_le in Hcut].
    split; [reflexivity|]. split; [done|]. simpl.
    apply scalability_severity_medium. intros H. by vm_compute in H.
Qed.

(** * The matcher against the language of a pattern *)

Lemma greedy_sound {A} p s (k : text → option A) x :
  greedy p s k = Some x →
  ∃ w s', s = w ++ s' ∧ Forall (λ c, p c = true) w ∧ k s' = Some x.
Proof.
  revert x. induction s as [|c s IH]; intros x; simpl.
  - intros H. by exists [], [].
  - destruct (p c) eqn:Hc; [|intros H; by exists [], (c :: s)].
    destruct (greedy p s k) as [y|] eqn:Hg.
    + intros [= ->]. destruct (IH x eq_refl) as (w & s' & -> & Hw & Hk).
      exists (c :: w), s'. split; [done|]. split; [by constructor|done].
    + intros H. by exists [], (c :: s).
Qed.

Lemma lazy_sound {A} p s (k : text → option A) x :
  lazy p s k = Some x →
  ∃ w s', s = w ++ s' ∧ Forall (λ c, p c = true) w ∧ k s' = Some x.
Proof.
  revert x. induction s as [|c s IH]; intros x; simpl.
  - destruct (k []) as [y|] eqn:Hk; [|done]. intros [= ->]. by exists [], [].
  - destruct (k (c :: s)) as [y|] eqn:Hk.
    + intros [= ->]. by exists [], (c :: s).
    + destruct (p c) eqn:Hc; [|done]. intros H.
      destruct (IH x H) as (w & s' & -> & Hw & Hk').
      exists (c :: w), s'. split; [done|]. split; [by constructor|done].
Qed.

(** A successful match consumed a text of the language of the pattern. *)
Lemma rx_match_sound {A} r s g (k : text → gmap nat text → option A) x :
  rx_match r s g k = Some x →
  ∃ w s' g', s = w ++ s' ∧ lang r w ∧ k s' g' = Some x.
Proof.
  revert s g k x.
  induction r as [|c|p|p|p|r1 IH1 r2 IH2|r1 IH1 r2 IH2|n r IH|];
    intros s g k x; simpl.
  - intros H. by exists [], s, g.
  - destruct s as [|c' s]; [done|]. case_decide as Hc; [|done]. subst c'.
    intros H. by exists [c], s, g.
  - destruct s as [|c' s]; [done|]. destruct (p c') eqn:Hc; [|done].
    intros H. exists [c'], s, g. split; [done|]. split; [by exists c'|done].
  - destruct s as [|c' s]; [done|]. destruct (p c') eqn:Hc; [|done].
    intros (w & s' & -> & Hw & Hk)%greedy_sound.
    exists (c' :: w), s', g. split; [done|]. split; [|done].
    split; [done|by constructor].
  - intros (w & s' & -> & Hw & Hk)%lazy_sound. by exists w, s', g.
  - intros (w1 & s1 & g1 & -> & Hw1 & H2)%IH1.
    apply IH2 in H2 as (w2 & s2 & g2 & -> & Hw2 & Hk).
    exists (w1 ++ w2), s2, g2. rewrite <- app_assoc. split; [done|].
    split; [by exists w1, w2|done].
  - destruct (rx_match r1 s g k) as [y|] eqn:H1.
    + intros [= ->]. apply IH1 in H1 as (w & s' & g' & -> & Hw & Hk).
      exists w, s', g'. split; [done|]. split; [by left|done].
    + intros (w & s' & g' & -> & Hw & Hk)%IH2.
      exists w, s', g'. split; [done|]. split; [by right|done].
  - intros (w & s' & g' & -> & Hw & Hk)%IH. by eexists w, s', _.
  - destruct s as [|c s]; [|done]. intros H. by exists [], [], g.
Qed.

Lemma re_match_sound r s m :
  re_match r s = Some m →
  ∃ w, s = w ++ m_rest m ∧ lang r w ∧ m_start m = 0%nat.
Proof.
  unfold re_match.
  intros (w & s' & g' & -> & Hw & [= <-])%rx_match_sound. by exists w.
Qed.

(** [re.search] finds an occurrence of a text of the language. *)
Lemma re_search_sound r s m :
  re_search r s = Some m →
  ∃ pre w, s = pre ++ w ++ m_rest m ∧ length pre = m_start m ∧ lang r w.
Proof.
  revert m. induction s as [|c s IH]; intros m; simpl.
  - destruct (re_match r []) as [m'|] eqn:Hm; [|done]. intros [= ->].
    apply re_match_sound in Hm as (w & Hs & Hw & H0). by exists [], w.
  - destruct (re_match r (c :: s)) as [m'|] eqn:Hm.
    + intros [= ->]. apply re_match_sound in Hm as (w & Hs & Hw & H0).
      by exists [], w.
    + destruct (re_search r s) as [m'|] eqn:Hs; [|done]. simpl.
      intros [= <-]. destruct (IH m' eq_refl) as (pre & w & Heq & Hlen & Hw).
      exists (c :: pre), w. simpl. split; [by rewrite Heq at 1|].
      split; [by rewrite Hlen|done].
Qed.

Lemma lang_lit_text u w : lang (lit_text u) w → w = u.
Proof.
  revert w. induction u as [|c u IH]; intros w; simpl; [done|].
  intros (w1 & w2 & -> & -> & Hw2). by rewrite (IH w2 Hw2).
Qed.

(** A match of a pattern that begins with a literal text holds the text. *)
Lemma lang_lit_prefix u r w : lang (lit u ⊙ r) w → ∃ post, w = txt u ++ post.
Proof.
  simpl. intros (w1 & w2 & -> & ->%lang_lit_text & _). by exists w2.
Qed.

(** A match of a pattern with a literal text in second place holds the text. *)
Lemma lang_lit_second r1 u r2 w : lang (r1 ⊙ lit u ⊙ r2) w → occurs_in (txt u) w.
Proof.
  simpl. intros (w1 & w' & -> & _ & w2 & w3 & -> & ->%lang_lit_text & _).
  by exists w1, w3.
Qed.

Lemma occurs_in_app u pre s post : occurs_in u s → occurs_in u (pre ++ s ++ post).
Proof.
  intros (a & b & ->). exists (pre ++ a), (b ++ post).
  by rewrite <- !app_assoc.
Qed.

Lemma re_search_occurs r s m u :
  (∀ w, lang r w → occurs_in u w) →
  re_search r s = Some m → occurs_in u s.
Proof.
  intros Hlang (pre & w & -> & _ & Hw)%re_search_sound.
  by apply occurs_in_app, Hlang.
Qed.

Lemma lang_cat_occurs r1 r2 u w :
  (∀ w', lang r2 w' → occurs_in u w') → lang (r1 ⊙ r2) w → occurs_in u w.
Proof.
  intros H2 (w1 & w2 & -> & _ & Hw2). destruct (H2 w2 Hw2) as (a & b & ->).
  exists (w1 ++ a), b. by rewrite <- app_assoc.
Qed.

Lemma lang_lit_occurs u r w : lang (lit u ⊙ r) w → occurs_in (txt u) w.
Proof. intros [post ->]%lang_lit_prefix. by exists [], post. Qed.

Lemma overhead_re_header w :
  lang overhead_re w → occurs_in (txt "# Overhead") w.
Proof. apply lang_lit_occurs. Qed.

Lemma summary_re_header w :
  lang summary_re w → occurs_in (txt " Heap Summary:") w.
Proof. apply lang_cat_occurs. intros w'. apply lang_lit_occurs. Qed.

Lemma detailed_re_header w :
  lang detailed_re w → occurs_in (txt " blocks are definitely lost") w.
Proof.
  do 5 (apply lang_cat_occurs; intros ?). apply lang_lit_occurs.
Qed.

(** * Further properties of the profile parsers *)

(** X13 ([parse_cpu_profile]): a CPU report in which the text "# Overhead"
    does not occur gives a profile without hotspots, whatever its lines
    hold and whatever [float] accepts: the percentage lines are read only
    from the section that header opens. *)
Theorem cpu_report_needs_header (py_float : text → option Q) (content : text) :
  ¬ occurs_in (txt "# Overhead") content →
  parse_cpu_profile py_float (Some content) = Some {| hotspots := [] |}.
Proof.
  intros Hno. unfold parse_cpu_profile. simpl.
  destruct (re_search overhead_re content) as [m|] eqn:Hm; [|done].
  destruct Hno. eapply re_search_occurs; [|exact Hm]. apply overhead_re_header.
Qed.

Lemma not_occurs_by_search u s :
  u ≠ [] →
  re_search (lit_text u) s = None → ¬ occurs_in u s.
Proof.
  intros Hu Hs (pre & post & ->). revert Hs.
  induction pre as [|c pre IH]; simpl.
  - assert (∀ v g, rx_match (A:=match_obj) (lit_text u) (u ++ v) g
              (fun rest g => Some {| m_start := 0; m_groups := g; m_rest := rest |})
              ≠ None) as Hmatch.
    { clear. induction u as [|c u IH]; intros v g; simpl; [done|].
      rewrite decide_True by done. apply IH. }
    destruct u as [|c u]; [done|]. simpl.
    unfold re_match. specialize (Hmatch post ∅).
    destruct (rx_match _ _ _ _) eqn:E; [done|]. by destruct Hmatch.
  - destruct (re_match _ (c :: _)); [done|].
    destruct (re_search (lit_text u) (pre ++ u ++ post)) eqn:E; [done|].
    intros _. by apply IH.
Qed.

Lemma cpu_report_needs_header_witness :
  ¬ occurs_in (txt "# Overhead") headerless_cpu_report ∧
  parse_cpu_profile float_of_decimal (Some headerless_cpu_report)
  = Some {| hotspots := [] |}.
Proof.
  assert (¬ occurs_in (txt "# Overhead") headerless_cpu_report) as H.
  { apply not_occurs_by_search; [done|]. vm_compute. reflexivity. }
  split; [exact H|]. apply (cpu_report_needs_header float_of_decimal _ H).
Defined.

(** X14 ([parse_memory_profile]): the two marker texts decide what a
    memory report can give.  Without " Heap Summary:" (in this
    capitalisation) the parser returns a profile, never the failure value,
    and the profile has no heap summary; without
    " blocks are definitely lost" a returned profile has no memory
    hotspot.  With neither the detector reports nothing about memory. *)
Theorem memory_report_needs_markers (content : text) :
  (¬ occurs_in (txt " Heap Summary:") content →
   ∃ hs, parse_memory_profile (Some content)
         = Some {| heap_summary := None; memory_hotspots := hs |}) ∧
  (¬ occurs_in (txt " blocks are definitely lost") content →
   ∀ mp, parse_memory_profile (Some content) = Some mp →
         memory_hotspots mp = []) ∧
  (¬ occurs_in (txt " Heap Summary:") content →
   ¬ occurs_in (txt " blocks are definitely lost") content →
   ∀ ar cpu thr bs,
     identify_bottlenecks ar cpu (parse_memory_profile (Some content)) thr
     = inl bs →
     of_type memory_leak bs = [] ∧ of_type memory_hotspot bs = []).
Proof.
  assert (¬ occurs_in (txt " Heap Summary:") content →
          parse_heap_summary content = inl None) as Hsum.
  { intros Hno. unfold parse_heap_summary.
    destruct (re_search summary_re content) as [m|] eqn:Hm; [|done].
    destruct Hno. eapply re_search_occurs; [|exact Hm]. apply summary_re_header. }
  assert (¬ occurs_in (txt " blocks are definitely lost") content →
          leak_blocks content = []) as Hblocks.
  { intros Hno. unfold leak_blocks.
    destruct (re_search detailed_re content) as [m|] eqn:Hm; [|done].
    destruct Hno. eapply re_search_occurs; [|exact Hm]. apply detailed_re_header. }
  split; [|split].
  - intros Hno. unfold parse_memory_profile. simpl. rewrite (Hsum Hno).
    by eexists.
  - intros Hno mp. unfold parse_memory_profile. simpl.
    rewrite (Hblocks Hno). destruct (parse_heap_summary content); [|done].
    by intros [= <-].
  - intros Hno1 Hno2 ar cpu thr bs.
    assert (parse_memory_profile (Some content)
            = Some {| heap_summary := None; memory_hotspots := [] |}) as ->.
    { unfold parse_memory_profile. simpl.
      by rewrite (Hsum Hno1), (Hblocks Hno2). }
    destruct (identify_bottlenecks_of_type ar cpu
      (Some {| heap_summary := None; memory_hotspots := [] |}) thr)
      as (bs' & -> & _ & _ & _ & _ & _ & Hleak & Hmem).
    intros [= <-]. rewrite Hleak, Hmem. done.
Qed.

Lemma memory_report_needs_markers_witness :
  ¬ occurs_in (txt " Heap Summary:") uppercase_memory_report ∧
  ∃ hs, parse_memory_profile (Some uppercase_memory_report)
        = Some {| heap_summary := None; memory_hotspots := hs |}.
Proof.
  assert (¬ occurs_in (txt " Heap Summary:") uppercase_memory_report) as H.
  { apply not_occurs_by_search; [done|]. vm_compute. reflexivity. }
  split; [exact H|].
  apply (proj1 (memory_report_needs_markers uppercase_memory_report) H).
Defined.

Lemma fields_elem s :
  Forall (λ w, w ≠ [] ∧ Forall (λ c, is_space c = false) w) (fields s).
Proof.
  induction s as [|c s IH]; [constructor|]. destruct s as [|c' s].
  - simpl. destruct (is_space c) eqn:Hc; [constructor|].
    constructor; [|constructor]. split; [done|]. by constructor.
  - rewrite fields_cons_cons. destruct (is_space c) eqn:Hc; [done|].
    destruct (is_space c') eqn:Hc'.
    + constructor; [|done]. split; [done|]. by constructor.
    + destruct (fields (c' :: s)) as [|w ws] eqn:E.
      * constructor; [|constructor]. split; [done|]. by constructor.
      * inversion IH as [|? ? [Hw1 Hw2] Hws]; subst.
        constructor; [|done]. split; [done|]. by constructor.
Qed.

Lemma field_not_blank s w : w ∈ fields s → ¬ blank w.
Proof.
  intros Hin Hblank.
  pose proof (proj1 (Forall_forall _ _) (fields_elem s) w Hin) as [Hne Hw].
  destruct w as [|c w]; [done|].
  inversion Hblank as [|? ? Hc _]; inversion Hw as [|? ? Hc' _]; subst.
  congruence.
Qed.

(** X15 ([parse_cpu_profile], the loop body): the conditions of a hotspot
    line are sufficient as well.  A line that does not start with [#], has
    at least five whitespace-separated fields, and whose first field with
    the [%] signs stripped is accepted by [float], always gives a hotspot;
    its overhead is that number and its function name holds a character
    that is not whitespace. *)
Theorem cpu_line_accepted (py_float : text → option Q) (line first : text) (q : Q) :
  startswith "#" line = false →
  (5 ≤ length (fields line))%nat →
  head (fields line) = Some first →
  py_float (strip_percent first) = Some q →
  ∃ h, parse_cpu_line py_float line = Some h ∧
       overhead h = q ∧ ¬ blank (function h).
Proof.
  intros Hhash Hlen Hfirst Hfloat.
  assert (strip line ≠ []) as Hstrip.
  { intros Hnil. pose proof (fields_strip line) as Hf. rewrite Hnil in Hf.
    simpl in Hf. rewrite <- Hf in Hlen. simpl in Hlen. lia. }
  rewrite (parse_cpu_line_eq _ _ Hstrip Hhash).
  destruct (cpu_line_parts line Hstrip) as (Hhead & Hfive & Hfew & Hmany).
  set (parts := re_split spaces_re (strip line) 5) in *.
  rewrite decide_True by (apply Hfive; exact Hlen).
  rewrite Hhead, Hfirst. simpl. rewrite Hfloat.
  eexists. split; [reflexivity|]. split; [done|]. cbn [function].
  destruct (decide (length (fields line) ≤ 6)%nat) as [Hle|Hgt].
  - rewrite (Hfew Hle).
    destruct (last (fields line)) as [w|] eqn:Hlast.
    + simpl. apply (field_not_blank line).
      apply last_Some in Hlast as [l' Hl]. rewrite Hl.
      apply elem_of_app. right. by left.
    + apply last_None in Hlast. rewrite Hlast in Hlen. simpl in Hlen. lia.
  - destruct Hmany as (rest & -> & Hrest); [lia|]. simpl.
    intros Hblank. apply fields_spaces in Hblank.
    rewrite Hblank in Hrest. symmetry in Hrest.
    apply (f_equal length) in Hrest. rewrite length_drop in Hrest.
    simpl in Hrest. lia.
Qed.

Lemma cpu_line_accepted_witness :
  ∃ h, parse_cpu_line float_of_decimal headerless_cpu_report = Some h ∧
       Some (overhead h) = float_of_decimal (txt "45.00") ∧
       ¬ blank (function h).
Proof.
  edestruct (cpu_line_accepted float_of_decimal headerless_cpu_report
               (txt "45.00%")) as (h & Hparse & Hoverhead & Hname);
    [vm_compute; reflexivity | vm_compute; lia | vm_compute; reflexivity
    | vm_compute; reflexivity |].
  exists h. split; [exact Hparse|]. split; [|exact Hname].
  rewrite Hoverhead. vm_compute. reflexivity.
Defined.

(** * Properties of the charts *)

Lemma count_types_app l1 l2 :
  count_types (l1 ++ l2) =
    foldl (λ d b, count_type (type b) d) (count_types l1) l2.
Proof. unfold count_types. by rewrite foldl_app. Qed.

Lemma count_types_snoc bs b :
  count_types (bs ++ [b]) = count_type (type b) (count_types bs).
Proof. by rewrite count_types_app. Qed.

Lemma count_type_keys t d :
  (count_type t d).*1 = if decide (t ∈ d.*1) then d.*1 else d.*1 ++ [t].
Proof.
  induction d as [|[k n] d IH].
  - change (([] : list (bottleneck_type * nat)).*1) with ([] : list bottleneck_type).
    destruct (decide (t ∈ [])) as [Hin|_]; [by apply elem_of_nil in Hin|done].
  - change (((k, n) :: d).*1) with (k :: d.*1). simpl count_type.
    destruct (decide (k = t)) as [->|Hk].
    + rewrite decide_True; [done|]. by left.
    + change (((k, n) :: count_type t d).*1) with (k :: (count_type t d).*1).
      rewrite IH. destruct (decide (t ∈ d.*1)) as [Hin|Hin].
      * rewrite decide_True; [done|]. by right.
      * rewrite decide_False; [done|].
        intros [?|?]%elem_of_cons; [congruence|done].
Qed.

Lemma count_type_cons t k n d :
  count_type t ((k, n) :: d) =
    if decide (k = t) then (k, S n) :: d else (k, n) :: count_type t d.
Proof. done. Qed.

Lemma count_of_cons t k n d :
  count_of t ((k, n) :: d) = ((if decide (k = t) then n else 0) + count_of t d)%nat.
Proof.
  unfold count_of. destruct (decide (k = t)) as [Hk|Hk].
  - by rewrite filter_cons_True.
  - by rewrite filter_cons_False.
Qed.

Lemma count_type_count_of t t' d :
  count_of t' (count_type t d) =
    (count_of t' d + if decide (t = t') then 1 else 0)%nat.
Proof.
  induction d as [|[k n] d IH].
  - change (count_type t []) with [(t, 1%nat)]. rewrite count_of_cons.
    unfold count_of. rewrite filter_nil. simpl. lia.
  - rewrite count_type_cons. destruct (decide (k = t)) as [->|Hk].
    + rewrite !count_of_cons.
      destruct (decide (t = t')); lia.
    + rewrite !count_of_cons, IH.
      destruct (decide (k = t')), (decide (t = t')); lia.
Qed.

Lemma count_type_positive t d :
  Forall (λ kv, 0 < kv.2)%nat d → Forall (λ kv, 0 < kv.2)%nat (count_type t d).
Proof.
  induction 1 as [|[k n] d Hn Hd IH].
  - constructor; [simpl; lia|constructor].
  - rewrite count_type_cons. simpl in Hn.
    destruct (decide (k = t)); constructor; simpl; auto; lia.
Qed.

Lemma count_type_total t d :
  sum_list (count_type t d).*2 = S (sum_list d.*2).
Proof.
  induction d as [|[k n] d IH]; [done|].
  rewrite count_type_cons. destruct (decide (k = t)); [done|].
  rewrite !fmap_cons. simpl. rewrite IH. lia.
Qed.

Lemma count_of_NoDup t n d :
  NoDup d.*1 → (t, n) ∈ d → count_of t d = n.
Proof.
  induction d as [|[k m] d IH].
  - by intros _ ?%elem_of_nil.
  - rewrite fmap_cons, count_of_cons.
    intros [Hk Hnd]%NoDup_cons [Heq|Hin]%elem_of_cons.
    + injection Heq as <- <-. rewrite decide_True by done.
      assert (count_of t d = 0%nat) as ->; [|lia].
      unfold count_of.
      assert (filter (λ kv : bottleneck_type * nat, kv.1 = t) d = []) as ->;
        [|done].
      apply filter_none. apply Forall_forall. intros [k' m'] Hin Heq.
      simpl in Heq. subst k'.
      apply Hk. apply list_elem_of_fmap. by exists (t, m').
    + rewrite decide_False; [by apply IH|].
      simpl. intros ->. apply Hk. apply list_elem_of_fmap. by exists (t, n).
Qed.

Lemma count_of_positive t d :
  (0 < count_of t d)%nat → ∃ n, (t, n) ∈ d.
Proof.
  induction d as [|[k m] d IH]; [unfold count_of; simpl; lia|].
  rewrite count_of_cons. destruct (decide (k = t)) as [->|Hk].
  - intros _. exists m. by left.
  - intros [n Hn]%IH. exists n. by right.
Qed.

Lemma count_types_invariant bs :
  NoDup (count_types bs).*1 ∧
  Forall (λ kv, 0 < kv.2)%nat (count_types bs) ∧
  (∀ t, count_of t (count_types bs) = length (of_type t bs)) ∧
  sum_list (count_types bs).*2 = length bs.
Proof.
  induction bs as [|b bs IH] using rev_ind.
  - split; [constructor|]. split; [constructor|]. done.
  - destruct IH as (Hnd & Hpos & Hcount & Hsum).
    rewrite count_types_snoc. split; [|split; [|split]].
    + rewrite count_type_keys. case_decide as Hin; [done|].
      apply NoDup_app. split; [done|]. split; [|apply NoDup_singleton].
      intros t Ht ->%list_elem_of_singleton. done.
    + by apply count_type_positive.
    + intros t. rewrite count_type_count_of, Hcount, of_type_app, length_app.
      unfold of_type at 3. destruct (decide (type b = t)) as [Ht|Ht].
      * by rewrite filter_cons_True.
      * by rewrite filter_cons_False.
    + rewrite count_type_total, Hsum, length_app. simpl. lia.
Qed.

Lemma count_keys_segment d t seg :
  Forall (λ b, type b = t) seg →
  (foldl (λ d b, count_type (type b) d) d seg).*1 =
    match seg with
    | [] => d.*1
    | _ :: _ => if decide (t ∈ d.*1) then d.*1 else d.*1 ++ [t]
    end.
Proof.
  intros HF. destruct HF as [|b seg Hb HF]; [done|]. simpl.
  assert (∀ d', t ∈ d'.*1 →
            (foldl (λ d b, count_type (type b) d) d' seg).*1 = d'.*1) as Hrest.
  { induction HF as [|b' seg Hb' _ IH]; intros d' Hin; [done|]. simpl.
    rewrite IH; rewrite Hb', count_type_keys, decide_True; done. }
  rewrite Hrest; rewrite Hb, count_type_keys.
  - done.
  - case_decide; [done|]. apply elem_of_app. right. by left.
Qed.

(** X16 ([generate_charts], the summary chart): the dict of counts has one
    entry per type that occurs among the bottlenecks, holding the number
    of bottlenecks of that type (never zero), and the counts add up to
    the number of bottlenecks.  For the list the detector returns the
    keys, the bars of the chart from left to right, follow the order of
    the detector's blocks. *)
Theorem summary_chart_counts (bottlenecks : list bottleneck) :
  NoDup (count_types bottlenecks).*1 ∧
  (∀ t n, (t, n) ∈ count_types bottlenecks ↔
          n = length (of_type t bottlenecks) ∧ (0 < n)%nat) ∧
  sum_list (count_types bottlenecks).*2 = length bottlenecks ∧
  (∀ ar cpu mp thr,
     identify_bottlenecks ar cpu mp thr = inl bottlenecks →
     (count_types bottlenecks).*1 =
       filter (λ t, of_type t bottlenecks ≠ []) block_order).
Proof.
  destruct (count_types_invariant bottlenecks) as (Hnd & Hpos & Hcount & Hsum).
  split; [done|]. split; [|split; [done|]].
  - intros t n. split.
    + intros Hin. rewrite <- Hcount, (count_of_NoDup t n _ Hnd Hin).
      split; [done|]. by apply (proj1 (Forall_forall _ _) Hpos (t, n)).
    + intros [-> Hlen]. rewrite <- Hcount in Hlen |- *.
      destruct (count_of_positive _ _ Hlen) as [n Hn].
      by rewrite (count_of_NoDup t n _ Hnd Hn).
  - intros ar cpu mp thr. rewrite identify_bottlenecks_segments.
    intros [= <-].
    pose proof (findings_type _ _ _ _ _
      (tx_scalability_rule_findings thr (transaction_samples ar))) as H1.
    pose proof (findings_type _ _ _ _ _
      (shard_creation_rule_findings thr (creation_samples ar))) as H2.
    pose proof (findings_type _ _ _ _ _
      (cross_shard_rule_findings thr (cross_shard_samples ar))) as H3.
    pose proof (cpu_findings_type _ _ _
      (cpu_hotspot_rule_findings thr (cpu_hotspots_of cpu))) as H4.
    pose proof (leak_findings_type thr mp) as H5.
    pose proof (memory_hotspot_rule_type (memory_hotspots_of mp)) as H6.
    set (s1 := tx_scalability_rule _ _) in *.
    set (s2 := shard_creation_rule _ _) in *.
    set (s3 := cross_shard_rule _ _) in *.
    set (s4 := cpu_hotspot_rule _ _) in *.
    set (s5 := leak_findings _ _) in *.
    set (s6 := memory_hotspot_rule _) in *.
    unfold block_order.
    rewrite count_types_app, !foldl_app.
    rewrite (count_keys_segment _ _ _ H6), (count_keys_segment _ _ _ H5),
      (count_keys_segment _ _ _ H4), (count_keys_segment _ _ _ H3),
      (count_keys_segment _ _ _ H2).
    change (count_types s1) with (foldl (λ d b, count_type (type b) d) [] s1).
    rewrite (count_keys_segment _ _ _ H1).
    assert (∀ t, of_type t (s1 ++ s2 ++ s3 ++ s4 ++ s5 ++ s6) =
              (if decide (transaction_scalability = t) then s1 else []) ++
              (if decide (shard_creation_scalability = t) then s2 else []) ++
              (if decide (cross_shard_scalability = t) then s3 else []) ++
              (if decide (cpu_hotspot = t) then s4 else []) ++
              (if decide (memory_leak = t) then s5 else []) ++
              (if decide (memory_hotspot = t) then s6 else [])) as Hof.
    { intros t. rewrite !of_type_app.
      by rewrite (of_type_Forall _ t _ H1), (of_type_Forall _ t _ H2),
        (of_type_Forall _ t _ H3), (of_type_Forall _ t _ H4),
        (of_type_Forall _ t _ H5), (of_type_Forall _ t _ H6). }
    rewrite (list_filter_iff _
      (λ t, (if decide (transaction_scalability = t) then s1 else []) ++
            (if decide (shard_creation_scalability = t) then s2 else []) ++
            (if decide (cross_shard_scalability = t) then s3 else []) ++
            (if decide (cpu_hotspot = t) then s4 else []) ++
            (if decide (memory_leak = t) then s5 else []) ++
            (if decide (memory_hotspot = t) then s6 else []) ≠ []));
      [|intros t; by rewrite Hof].
    clear.
    destruct s1, s2, s3, s4, s5, s6; vm_compute; reflexivity.
Qed.

Lemma rev_app_last s1 s2 c r :
  String.rev_app s1 s2 = String c r →
  (s1 = EmptyString ∧ s2 = String c r) ∨ ∃ d, s1 = d +:+ String c EmptyString.
Proof.
  revert s2. induction s1 as [|a s1 IH]; intros s2; simpl; [by left|].
  intros [[-> [= -> ->]]|[d ->]]%IH; right.
  - by exists EmptyString.
  - by exists (String a d).
Qed.

Lemma after_last_slash_app d name :
  after_last_slash name = None →
  after_last_slash (d +:+ name) =
    (λ tail, tail +:+ name) <$> after_last_slash d.
Proof.
  intros Hname. induction d as [|c d IH]; [exact Hname|].
  change (String c d +:+ name) with (String c (d +:+ name)).
  cbn [after_last_slash]. rewrite IH.
  destruct (after_last_slash d) as [tail|]; [done|].
  by destruct (decide (c = "/"%char)).
Qed.

Lemma after_last_slash_end d :
  after_last_slash (d +:+ "/") = Some EmptyString.
Proof.
  induction d as [|c d IH]; [done|].
  change (String c d +:+ "/") with (String c (d +:+ "/")).
  cbn [after_last_slash]. by rewrite IH.
Qed.

(** The file name comes back from the joined path, whatever the
    directory. *)
Lemma basename_path_join directory name :
  after_last_slash name = None → basename (path_join directory name) = name.
Proof.
  intros Hname. unfold basename, path_join.
  destruct (String.rev directory) as [|c r] eqn:Hrev; [by rewrite Hname|].
  apply rev_app_last in Hrev as [[_ [=]]|[d ->]].
  destruct (decide (c = "/"%char)) as [->|Hc].
  - rewrite (after_last_slash_app _ name Hname), after_last_slash_end. done.
  - assert (∀ a b, a +:+ "/" +:+ b = (a +:+ "/") +:+ b) as ->.
    { clear. intros a b. induction a as [|x a IH]; [done|].
      change (String x a +:+ "/" +:+ b) with (String x (a +:+ "/" +:+ b)).
      by rewrite IH. }
    rewrite (after_last_slash_app _ name Hname), after_last_slash_end. done.
Qed.

Lemma adjacent_pairs_pairwise {I R} (size rate : I → Q)
    (mk : Q → Q → Q → Q → Q → R) (series : list I) (scal : list R) :
  adjacent_pairs size rate mk series scal →
  scal = pairwise (λ x y, mk (size x) (size y) (rate x) (rate y)
                             ((rate y / rate x) / (size y / size x))) series.
Proof.
  intros [Hlen Hadj]. apply list_eq. intros i. unfold pairwise.
  rewrite lookup_zip_with, lookup_drop. change (1 + i)%nat with (S i).
  destruct (decide (S i ≤ length series - 1)%nat) as [Hi|Hi].
  - destruct (Hadj (S i)) as (from & to & Hfrom & Hto & Hentry); [lia|].
    replace (S i - 1)%nat with i in Hfrom, Hentry by lia.
    rewrite Hentry, Hfrom, Hto. done.
  - rewrite (lookup_ge_None_2 scal i) by lia.
    rewrite (lookup_ge_None_2 series (S i)) by lia.
    by destruct (series !! i).
Qed.

Lemma fmap_pairwise {I A B} (g : A → B) (f : I → I → A) (series : list I) :
  g <$> pairwise f series = pairwise (λ x y, g (f x y)) series.
Proof.
  unfold pairwise. generalize (drop 1 series). intros k.
  revert k. induction series as [|x l IH]; intros [|y k]; simpl; [done..|].
  by rewrite IH.
Qed.

Lemma analyze_transaction_performance_shape b ta :
  analyze_transaction_performance b = inl ta →
  match tx_series_of b with
  | Some series =>
      ∃ a, ta = Some {| throughput_analysis := Some a |} ∧
           analyze_tx_series series = inl a
  | None => ta = None ∨ ta = Some {| throughput_analysis := None |}
  end.
Proof.
  unfold analyze_transaction_performance, tx_series_of.
  destruct b as [doc|]; simpl; [|intros [= <-]; by left].
  destruct (transaction_benchmark doc) as [td|]; simpl; [|intros [= <-]; by left].
  destruct (throughput td) as [series|]; simpl.
  - destruct (analyze_tx_series series) as [a|e]; simpl; [|done].
    intros [= <-]. by exists a.
  - intros [= <-]. by right.
Qed.

Lemma analyze_sharding_performance_shape b sa :
  analyze_sharding_performance b = inl sa →
  (sa = None ∧ creation_series_of b = None ∧ cross_series_of b = None) ∨
  ∃ c x,
    sa = Some {| creation_analysis := c; cross_shard_analysis := x |} ∧
    match creation_series_of b with
    | Some series => ∃ a, c = Some a ∧ analyze_creation_series series = inl a
    | None => c = None
    end ∧
    match cross_series_of b with
    | Some series => ∃ a, x = Some a ∧ analyze_tx_series series = inl a
    | None => x = None
    end.
Proof.
  unfold analyze_sharding_performance, creation_series_of, cross_series_of.
  destruct b as [doc|]; simpl; [|intros [= <-]; by left].
  destruct (sharding_benchmark doc) as [sd|]; simpl; [|intros [= <-]; by left].
  intros H. right.
  destruct (shard_creation sd) as [creation|]; simpl in *.
  - destruct (analyze_creation_series creation) as [c|e] eqn:Hc; simpl in H; [|done].
    destruct (cross_shard_transactions sd) as [cross|]; simpl in *.
    + destruct (analyze_tx_series cross) as [x|e] eqn:Hx; simpl in H; [|done].
      injection H as <-. exists (Some c), (Some x).
      split; [done|]. split; [by exists c|by exists x].
    + injection H as <-. exists (Some c), None.
      split; [done|]. split; [by exists c|done].
  - destruct (cross_shard_transactions sd) as [cross|]; simpl in *.
    + destruct (analyze_tx_series cross) as [x|e] eqn:Hx; simpl in H; [|done].
      injection H as <-. exists None, (Some x).
      split; [done|]. split; [done|by exists x].
    + injection H as <-. by exists None, None.
Qed.

Lemma tx_analysis_figures series a :
  analyze_tx_series series = inl a →
  Tx.data a = series ∧ series ≠ [] ∧
  (λ item, (Tx.tx_count_from item, Tx.tx_count_to item)) <$> Tx.scalability a
    = pairwise (λ x y, (Tx.tx_count x, Tx.tx_count y)) series ∧
  Tx.efficiency <$> Tx.scalability a
    = pairwise (λ x y, (Tx.throughput_tps y / Tx.throughput_tps x) /
                       (Tx.tx_count y / Tx.tx_count x)) series ∧
  (Tx.scalability a = [] ↔ (length series < 2)%nat).
Proof.
  intros (Hne & _ & Hdata & Hadj & _)%analyze_tx_series_inv.
  pose proof (proj1 Hadj) as Hlen.
  apply adjacent_pairs_pairwise in Hadj.
  split; [done|]. split; [done|].
  rewrite Hadj at 1 2. rewrite !fmap_pairwise. split; [done|]. split; [done|].
  destruct series as [|x series]; [done|].
  rewrite length_cons in *. split.
  - intros Hnil. rewrite Hnil in Hlen. simpl in Hlen. lia.
  - intros Hlt. apply nil_length_inv. lia.
Qed.

(** X17 ([generate_charts] after the analyzers): the figures drawn are
    those of the benchmark files.  A transaction series the analyzer
    accepted always gives the line of its throughputs against its sizes,
    followed by the bars of the efficiencies of its adjacent samples
    exactly when it has two samples or more; the shard-creation and the
    cross-shard series give their line only, never efficiency bars; the
    summary bars close the list exactly when there is a bottleneck.  The
    tests of ['data'] in the function never fail on an analysis the
    analyzers made. *)
Theorem charts_follow_the_benchmark (transaction_file sharding_file : option benchmark_results)
    (ta : option transaction_analysis_t) (sa : option sharding_analysis_t)
    (bottlenecks : list bottleneck) (output_dir : string)
    (Hta : analyze_transaction_performance transaction_file = inl ta)
    (Hsa : analyze_sharding_performance sharding_file = inl sa) :
  (generate_charts {| transaction_analysis := ta; sharding_analysis := sa |}
     bottlenecks output_dir).*2 =
    match tx_series_of transaction_file with
    | Some series =>
        tx_line series ::
        (if decide (2 ≤ length series)%nat then [tx_bars series] else [])
    | None => []
    end ++
    match creation_series_of sharding_file with
    | Some series => [shard_line series]
    | None => []
    end ++
    match cross_series_of sharding_file with
    | Some series => [tx_line series]
    | None => []
    end ++
    match bottlenecks with
    | [] => []
    | _ :: _ => [type_bars (count_types bottlenecks).*1 (count_types bottlenecks).*2]
    end.
Proof.
  unfold generate_charts. cbv zeta.
  cbn [transaction_analysis sharding_analysis]. rewrite app_nil_l.
  rewrite 2!fmap_app, <- app_assoc.
  rewrite (app_assoc (match creation_series_of sharding_file with
                      | Some series => [shard_line series] | None => [] end)).
  f_equal; [|f_equal].
  - apply analyze_transaction_performance_shape in Hta.
    destruct (tx_series_of transaction_file) as [series|].
    + destruct Hta as (a & -> & Ha). cbn [charts_if throughput_analysis].
      destruct (tx_analysis_figures series a Ha)
        as (Hdata & Hne & Hranges & Hheights & Hscal).
      rewrite Hdata. destruct series as [|x series]; [done|].
      cbn [if_nonempty]. rewrite fmap_app, fmap_cons. cbn [snd fmap list_fmap].
      unfold tx_line. f_equal.
      destruct (Tx.scalability a) as [|e scal] eqn:Hs.
      * rewrite decide_False; [done|]. apply proj1 in Hscal.
        specialize (Hscal eq_refl). lia.
      * rewrite decide_True.
        -- cbn [if_nonempty fmap list_fmap snd]. unfold tx_bars.
           by rewrite <- Hranges, <- Hheights.
        -- destruct (decide (2 ≤ length (x :: series))%nat) as [|Hn]; [done|].
           assert (e :: scal = []) as Hnil by (apply Hscal; lia). done.
    + by destruct Hta as [->| ->].
  - apply analyze_sharding_performance_shape in Hsa.
    destruct Hsa as [(-> & -> & ->)|(c & x & -> & Hc & Hx)]; [done|].
    cbn [charts_if creation_analysis cross_shard_analysis].
    rewrite fmap_app. f_equal.
    + destruct (creation_series_of sharding_file) as [series|].
      * destruct Hc as (a & -> & Ha). cbn [charts_if].
        apply analyze_creation_series_inv in Ha as (Hne & _ & Hdata & _).
        rewrite Hdata. destruct series as [|y series]; [done|]. done.
      * by rewrite Hc.
    + destruct (cross_series_of sharding_file) as [series|].
      * destruct Hx as (a & -> & Ha). cbn [charts_if].
        apply analyze_tx_series_inv in Ha as (Hne & _ & Hdata & _).
        rewrite Hdata. destruct series as [|y series]; [done|]. done.
      * by rewrite Hx.
  - destruct bottlenecks as [|b bs]; [done|]. cbn [if_nonempty].
    destruct (count_types (b :: bs)) as [|kv d] eqn:Hd; [|done].
    pose proof (count_types_invariant (b :: bs)) as (_ & _ & _ & Hsum).
    rewrite Hd in Hsum. done.
Qed.

Lemma charts_follow_the_benchmark_witness :
  ∃ ta sa,
    analyze_transaction_performance (Some (transaction_document sample_tx_series))
      = inl ta ∧
    analyze_sharding_performance None = inl sa ∧
    (generate_charts {| transaction_analysis := ta; sharding_analysis := sa |}
       [] "out").*2 = [tx_line sample_tx_series; tx_bars sample_tx_series].
Proof.
  eexists _, _. split; [reflexivity|]. split; [reflexivity|].
  exact (charts_follow_the_benchmark
           (Some (transaction_document sample_tx_series)) None _ _ [] "out"
           eq_refl eq_refl).
Defined.

Lemma count_types_cons_nonempty b bs : count_types (b :: bs) ≠ [].
Proof.
  intros Hd. pose proof (count_types_invariant (b :: bs)) as (_ & _ & _ & Hsum).
  rewrite Hd in Hsum. done.
Qed.

Lemma generate_charts_entries ar bs dir dir' :
  chart_entries (generate_charts ar bs dir).*1
    = chart_entries (generate_charts ar bs dir').*1 ∧
  path <$> chart_entries (generate_charts ar bs dir).*1 `sublist_of` chart_names.
Proof.
  unfold generate_charts, chart_names. cbv zeta.
  assert (∀ (X : list (chart * figure)),
            if_nonempty bs (if_nonempty (count_types bs) X) = if_nonempty bs X)
    as Hsummary.
  { intros X. destruct bs as [|b bs]; [done|]. cbn [if_nonempty].
    pose proof (count_types_cons_nonempty b bs).
    by destruct (count_types (b :: bs)). }
  rewrite !Hsummary. clear Hsummary.
  destruct ar as [[[[[data scal ? ? ?]|]]|] [[[[cdata ? ? ? ?]|] [[xdata ? ? ? ?]|]]|]];
    cbn -[path_join basename];
    repeat match goal with
           | |- context [if_nonempty ?l _] => is_var l; destruct l
           end;
    cbn -[path_join basename];
    rewrite ?basename_path_join by reflexivity;
    (split; [reflexivity|]);
    repeat first [ apply sublist_nil | apply sublist_skip | apply sublist_cons ].
Qed.

(** X18 ([generate_charts] and the chart entries [main] keeps): the charts
    are saved under file names taken, in this order and each at most
    once, from the five fixed names, so that no figure overwrites another
    and there are five charts at most; cut down to the file name by
    [os.path.basename], the entries kept in [analysis_results['charts']]
    do not depend on the output directory. *)
Theorem chart_file_names (ar : analysis_results_t) (bottlenecks : list bottleneck)
    (output_dir : string) :
  path <$> chart_entries (generate_charts ar bottlenecks output_dir).*1
    `sublist_of` chart_names ∧
  NoDup (path <$> (generate_charts ar bottlenecks output_dir).*1) ∧
  (length (generate_charts ar bottlenecks output_dir) ≤ 5)%nat ∧
  (∀ other_dir,
     chart_entries (generate_charts ar bottlenecks other_dir).*1 =
     chart_entries (generate_charts ar bottlenecks output_dir).*1).
Proof.
  destruct (generate_charts_entries ar bottlenecks output_dir output_dir)
    as [_ Hsub].
  assert (NoDup chart_names) as Hnames.
  { apply (bool_decide_unpack _). vm_compute. exact I. }
  split; [done|]. split; [|split].
  - apply (NoDup_fmap_1 basename).
    replace (basename <$> (path <$> (generate_charts ar bottlenecks output_dir).*1))
      with (path <$> chart_entries (generate_charts ar bottlenecks output_dir).*1).
    + by apply (sublist_NoDup _ chart_names).
    + unfold chart_entries. rewrite <- !list_fmap_compose. done.
  - apply sublist_length in Hsub.
    unfold chart_entries in Hsub. rewrite !length_fmap in Hsub. exact Hsub.
  - intros other_dir.
    by destruct (generate_charts_entries ar bottlenecks other_dir output_dir).
Qed.

(** * Properties of the report fragments *)

Lemma evaluation_good e : evaluation e = "良好" ↔ 0.9 <= e.
Proof.
  unfold evaluation. destruct (Qle_bool 0.9 e) eqn:H9.
  - apply Qle_bool_iff in H9. done.
  - split.
    + by destruct (Qle_bool 0.7 e).
    + intros H%Qle_bool_iff. congruence.
Qed.

Lemma evaluation_poor e : evaluation e = "改善が必要" ↔ e < 0.7.
Proof.
  unfold evaluation. destruct (Qle_bool 0.9 e) eqn:H9.
  - apply Qle_bool_iff in H9. split; [done|].
    intros Hlt. exfalso. apply (Qlt_not_le _ _ Hlt).
    apply Qle_trans with 0.9; [done|exact H9].
  - destruct (Qle_bool 0.7 e) eqn:H7.
    + apply Qle_bool_iff in H7. split; [done|].
      intros Hlt. by apply Qlt_not_le in Hlt.
    + split; [|done]. intros _. apply Qnot_le_lt.
      intros H%Qle_bool_iff. congruence.
Qed.

Lemma evaluation_fair e : evaluation e = "許容範囲" ↔ 0.7 <= e ∧ e < 0.9.
Proof.
  unfold evaluation. destruct (Qle_bool 0.9 e) eqn:H9.
  - apply Qle_bool_iff in H9. split; [done|].
    intros [_ Hlt]. by apply Qlt_not_le in Hlt.
  - assert (e < 0.9) as Hlt.
    { apply Qnot_le_lt. intros H%Qle_bool_iff. congruence. }
    destruct (Qle_bool 0.7 e) eqn:H7.
    + apply Qle_bool_iff in H7. done.
    + split; [done|]. intros [H%Qle_bool_iff _]. congruence.
Qed.

(** At threshold 10 the detector reports a transaction sample exactly when
    its efficiency is below 0.9. *)
Lemma reported_at_default ar cpu mp bs item :
  identify_bottlenecks ar cpu mp 10 = inl bs →
  item ∈ transaction_samples ar →
  (Tx.efficiency item < 0.9 ↔
   reported transaction_scalability
     (tx_scalability_text (Tx.tx_count_from item) (Tx.tx_count_to item)
        (Tx.efficiency item)) bs).
Proof.
  intros Hbs Hitem.
  destruct (identify_bottlenecks_of_type ar cpu mp 10)
    as (bs' & Hbs' & _ & Htx & _).
  rewrite Hbs in Hbs'. injection Hbs' as <-.
  assert (Tx.efficiency item < 0.9 ↔ Tx.efficiency item < 1.0 - 10 / 100) as ->.
  { assert (1.0 - 10 / 100 == 0.9) as -> by reflexivity. done. }
  unfold reported. split.
    + intros Hlt.
      exists {| type := transaction_scalability;
                severity := scalability_severity (Tx.efficiency item);
                description := tx_scalability_text (Tx.tx_count_from item)
                                 (Tx.tx_count_to item) (Tx.efficiency item);
                recommendation := "並列処理の最適化、バッチ処理の導入、またはリソース競合の削減を検討してください。" |}.
      split; [|split; [|reflexivity]].
      * assert (∀ b, b ∈ of_type transaction_scalability bs → b ∈ bs) as Hin.
        { intros b [_ Hb]%list_elem_of_filter. done. }
        apply Hin. rewrite Htx, tx_scalability_rule_filter.
        apply list_elem_of_fmap. exists item. split; [reflexivity|].
        by apply list_elem_of_filter.
      * done.
    + intros (b & Hb & Htype & Hdesc).
      assert (b ∈ of_type transaction_scalability bs) as Hin
        by (by apply list_elem_of_filter).
      rewrite Htx, tx_scalability_rule_filter in Hin.
      apply list_elem_of_fmap in Hin as (item' & -> & [Hlt _]%list_elem_of_filter).
      simpl in Hdesc. injection Hdesc as _ _ <-. exact Hlt.
Qed.

(** X19 (the scalability table of [generate_text_report] and
    [generate_html_report] against [identify_bottlenecks]): the rating of
    a row uses the fixed marks 0.9 and 0.7, not the threshold.  At the
    default threshold 10 the two agree: a sample of efficiency 0.9 or
    more is rated "良好" and is not reported as a transaction bottleneck,
    one from 0.7 up to 0.9 is rated "許容範囲" and reported, one below
    0.7 is rated "改善が必要" and reported; any sample of severity [high]
    is rated "改善が必要".  At a threshold of 9 or less a sample of
    efficiency 0.9 is reported as a bottleneck and rated "良好"; at a
    threshold of 11 or more a sample of efficiency 0.895 is not reported
    and is rated "許容範囲". *)
Theorem rating_against_detector :
  (∀ ar cpu mp bs item,
     identify_bottlenecks ar cpu mp 10 = inl bs →
     item ∈ transaction_samples ar →
     (0.9 <= Tx.efficiency item →
      evaluation (Tx.efficiency item) = "良好" ∧
      ¬ reported transaction_scalability
          (tx_scalability_text (Tx.tx_count_from item) (Tx.tx_count_to item)
             (Tx.efficiency item)) bs) ∧
     (0.7 <= Tx.efficiency item → Tx.efficiency item < 0.9 →
      evaluation (Tx.efficiency item) = "許容範囲" ∧
      reported transaction_scalability
        (tx_scalability_text (Tx.tx_count_from item) (Tx.tx_count_to item)
           (Tx.efficiency item)) bs) ∧
     (Tx.efficiency item < 0.7 →
      evaluation (Tx.efficiency item) = "改善が必要" ∧
      reported transaction_scalability
        (tx_scalability_text (Tx.tx_count_from item) (Tx.tx_count_to item)
           (Tx.efficiency item)) bs)) ∧
  (∀ e, scalability_severity e = high → evaluation e = "改善が必要") ∧
  (∀ thr, thr <= 9 →
     evaluation 0.9 = "良好" ∧
     ∃ b, identify_bottlenecks (transaction_only 0.9) None None thr = inl [b]) ∧
  (∀ thr, 11 <= thr →
     evaluation 0.895 = "許容範囲" ∧
     identify_bottlenecks (transaction_only 0.895) None None thr = inl []).
Proof.
  split; [|split; [|split]].
  - intros ar cpu mp bs item Hbs Hitem.
    pose proof (reported_at_default ar cpu mp bs item Hbs Hitem) as Hrep.
    split; [|split].
    + intros Hge. split; [by apply evaluation_good|].
      intros Hlt%Hrep. by apply Qlt_not_le in Hlt.
    + intros Hge Hlt. split; [by apply evaluation_fair|by apply Hrep].
    + intros Hlt. split; [by apply evaluation_poor|].
      apply Hrep. apply Qlt_trans with 0.7; [exact Hlt|reflexivity].
  - intros e He%scalability_severity_high. apply evaluation_poor.
    apply Qlt_trans with 0.5; [exact He|reflexivity].
  - intros thr Hthr. split; [reflexivity|].
    rewrite identify_bottlenecks_segments. cbn.
    destruct (Qlt_le_dec 0.9 (1.0 - thr / 100)) as [_|Hle]; [by eexists|].
    exfalso. apply (Qle_lt_false _ _ Hle).
    apply Qlt_le_trans with (1.0 - 9 / 100); [reflexivity|].
    by apply cutoff_antitone.
  - intros thr Hthr. split; [reflexivity|].
    rewrite identify_bottlenecks_segments. cbn.
    destruct (Qlt_le_dec 0.895 (1.0 - thr / 100)) as [Hlt|_]; [|done].
    exfalso. apply (Qlt_irrefl 0.895).
    apply Qlt_le_trans with (1.0 - thr / 100); [exact Hlt|].
    apply Qle_trans with (1.0 - 11 / 100); [by apply cutoff_antitone|].
    by unfold Qle.
Qed.

(** * Properties of the input files *)




(** * Properties of [main] *)

Lemma analyze_if_read_eq {A} glob parse args kind pattern
    (analyze : option benchmark_results → result (option A)) :
  analyze_if_read (read_benchmark glob parse args kind pattern) analyze =
    match analysed_file glob parse args kind pattern with
    | Some doc => a ← analyze (Some doc); ret (Some a)
    | None => ret None
    end.
Proof.
  unfold read_benchmark, analysed_file, analyze_if_read.
  destruct (decide (args_type args = kind ∨ args_type args = type_all)) as [H|H].
  - rewrite bool_decide_eq_true_2.
    + destruct (find_latest_files _) as [path|]; simpl; [|done].
      destruct (parse path) as [file|]; simpl; [|done].
      by destruct (truthy file).
    + destruct H as [-> | ->]; [by left|right; by left].
  - rewrite bool_decide_eq_false_2; [done|].
    intros [?|[?|?%elem_of_nil]%elem_of_cons]%elem_of_cons; [tauto..|done].
Qed.

Lemma main_eq glob parse read_text py_float args :
  main glob parse read_text py_float args =
    (transaction_analysis ←
       match analysed_transaction_file glob parse args with
       | Some doc => a ← analyze_transaction_performance (Some doc); ret (Some a)
       | None => ret None
       end;
     sharding_analysis ←
       match analysed_sharding_file glob parse args with
       | Some doc => a ← analyze_sharding_performance (Some doc); ret (Some a)
       | None => ret None
       end;
     let analysis_results :=
       {| transaction_analysis := mjoin transaction_analysis;
          sharding_analysis := mjoin sharding_analysis |} in
     bottlenecks ←
       identify_bottlenecks analysis_results
         (latest_cpu_profile glob read_text py_float args)
         (latest_memory_profile glob read_text args) (args_threshold args);
     let charts :=
       generate_charts analysis_results bottlenecks (args_output_dir args) in
     ret {| analysis := {| ri_transaction := transaction_analysis;
                           ri_sharding := sharding_analysis;
                           ri_bottlenecks := bottlenecks;
                           ri_charts := chart_entries charts.*1 |};
            figures := charts;
            reports := report_files args |}).
Proof.
  unfold main. cbv zeta. rewrite !analyze_if_read_eq. reflexivity.
Qed.

Lemma analyze_transaction_performance_series doc :
  analyze_transaction_performance (Some doc) =
    match tx_series_of (Some doc) with
    | Some series =>
        a ← analyze_tx_series series;
        ret (Some {| throughput_analysis := Some a |})
    | None =>
        ret (match transaction_benchmark doc with
             | Some _ => Some {| throughput_analysis := None |}
             | None => None
             end)
    end.
Proof.
  unfold analyze_transaction_performance, tx_series_of. simpl.
  destruct (transaction_benchmark doc) as [td|]; simpl; [|done].
  destruct (throughput td) as [series|]; simpl; [|done].
  by destruct (analyze_tx_series series).
Qed.

Lemma analyze_sharding_performance_returns b :
  (∃ r, analyze_sharding_performance b = inl r) ↔
  analysable Shard.shard_count Shard.throughput_sps (creation_series_of b) ∧
  analysable Tx.tx_count Tx.throughput_tps (cross_series_of b).
Proof.
  unfold analysable, analyze_sharding_performance, creation_series_of,
    cross_series_of.
  destruct b as [doc|]; simpl; [|split; [done|by eexists]].
  destruct (sharding_benchmark doc) as [sd|]; simpl; [|split; [done|by eexists]].
  destruct (shard_creation sd) as [creation|]; simpl;
    destruct (cross_shard_transactions sd) as [cross|]; simpl.
  - destruct (analyze_creation_series creation) as [c|e] eqn:Hc; simpl.
    + destruct (analyze_tx_series cross) as [x|e] eqn:Hx; simpl.
      * split; [|by eexists]. intros _. split; intros s [= <-].
        -- apply analyze_creation_series_returns. by exists c.
        -- apply analyze_tx_series_returns. by exists x.
      * split; [by intros [r Hr]|]. intros [_ H].
        destruct (proj2 (analyze_tx_series_returns cross) (H _ eq_refl)) as [a Ha].
        congruence.
    + split; [by intros [r Hr]|]. intros [H _].
      destruct (proj2 (analyze_creation_series_returns creation) (H _ eq_refl))
        as [a Ha].
      congruence.
  - destruct (analyze_creation_series creation) as [c|e] eqn:Hc; simpl.
    + split; [|by eexists]. intros _. split; [|done]. intros s [= <-].
      apply analyze_creation_series_returns. by exists c.
    + split; [by intros [r Hr]|]. intros [H _].
      destruct (proj2 (analyze_creation_series_returns creation) (H _ eq_refl))
        as [a Ha].
      congruence.
  - destruct (analyze_tx_series cross) as [x|e] eqn:Hx; simpl.
    + split; [|by eexists]. intros _. split; [done|]. intros s [= <-].
      apply analyze_tx_series_returns. by exists x.
    + split; [by intros [r Hr]|]. intros [_ H].
      destruct (proj2 (analyze_tx_series_returns cross) (H _ eq_refl)) as [a Ha].
      congruence.
  - split; [done|by eexists].
Qed.

Lemma analyze_transaction_performance_returns b :
  (∃ r, analyze_transaction_performance b = inl r) ↔
  analysable Tx.tx_count Tx.throughput_tps (tx_series_of b).
Proof.
  destruct b as [doc|]; [|split; [done|by eexists]].
  rewrite analyze_transaction_performance_series. unfold analysable.
  destruct (tx_series_of (Some doc)) as [series|]; [|split; [done|by eexists]].
  destruct (analyze_tx_series series) as [a|e] eqn:Ha; simpl.
  - split; [|by eexists]. intros _ s [= <-].
    apply analyze_tx_series_returns. by exists a.
  - split; [by intros [r Hr]|]. intros H.
    destruct (proj2 (analyze_tx_series_returns series) (H _ eq_refl)) as [a Ha'].
    congruence.
Qed.

(** X21 ([main] with the analyzers): a run that comes to its reports has
    analysed analysable series only: the transaction series of the newest
    transaction file and the two series of the newest sharding file, as
    far as the type selects them and they are present, are not empty and
    have no zero divisor.  An exception of the transaction analyzer
    leaves [main]: the run ends with it before any figure or report is
    written. *)
Theorem main_outcomes (glob : string → string → list (string * Q))
    (parse : string → option benchmark_file) (read_text : string → option text)
    (py_float : text → option Q) (args : args_t) :
  ((∃ r, main glob parse read_text py_float args = inl r) →
   analysable Tx.tx_count Tx.throughput_tps
     (tx_series_of (analysed_transaction_file glob parse args)) ∧
   analysable Shard.shard_count Shard.throughput_sps
     (creation_series_of (analysed_sharding_file glob parse args)) ∧
   analysable Tx.tx_count Tx.throughput_tps
     (cross_series_of (analysed_sharding_file glob parse args))) ∧
  (∀ series e,
     tx_series_of (analysed_transaction_file glob parse args) = Some series →
     analyze_tx_series series = inr e →
     main glob parse read_text py_float args = inr e).
Proof.
  rewrite main_eq. split.
  - rewrite <- analyze_transaction_performance_returns,
      <- analyze_sharding_performance_returns.
    destruct (analysed_transaction_file glob parse args) as [tdoc|];
      destruct (analysed_sharding_file glob parse args) as [sdoc|].
    + destruct (analyze_transaction_performance (Some tdoc)) as [ta|e].
      * destruct (analyze_sharding_performance (Some sdoc)) as [sa|e].
        -- intros _; split; by eexists.
        -- by intros [r Hr].
      * by intros [r Hr].
    + destruct (analyze_transaction_performance (Some tdoc)) as [ta|e].
      * intros _; split; by eexists.
      * by intros [r Hr].
    + destruct (analyze_sharding_performance (Some sdoc)) as [sa|e].
      * intros _; split; by eexists.
      * by intros [r Hr].
    + intros _; split; by eexists.
  - intros series e Hseries He.
    destruct (analysed_transaction_file glob parse args) as [tdoc|]; [|done].
    rewrite analyze_transaction_performance_series, Hseries, He. done.
Qed.




Lemma bottleneck_advice ar cpu mp thr bs b :
  identify_bottlenecks ar cpu mp thr = inl bs → b ∈ bs →
  recommendation b = advice (type b).
Proof.
  rewrite identify_bottlenecks_segments. intros [= <-].
  rewrite !elem_of_app,
    tx_scalability_rule_filter, shard_creation_rule_filter,
    cross_shard_rule_filter, cpu_hotspot_rule_filter, memory_hotspot_rule_map.
  rewrite !list_elem_of_fmap.
  intros [(x & -> & _)|[(x & -> & _)|[(x & -> & _)|[(x & -> & _)
         |[Hleak|(x & -> & _)]]]]]; try reflexivity.
  unfold leak_findings in Hleak.
  destruct (heap_of mp) as [heap|]; [|by apply elem_of_nil in Hleak].
  rewrite memory_leak_rule_eq in Hleak.
  case_decide as Hl; [|by apply elem_of_nil in Hleak].
  by apply list_elem_of_singleton in Hleak as ->.
Qed.

(** X23 (the recommendations of the reports and of [main] after
    [identify_bottlenecks]): the advice of a finding is fixed by its type,
    so two findings of one type carry the same text; the recommendations
    section has one line per finding, in the order of the findings and
    with the repetitions, and the single default line when there is no
    finding: it is never empty. *)
Theorem one_recommendation_per_finding ar cpu mp thr :
  ∃ bs,
    identify_bottlenecks ar cpu mp thr = inl bs ∧
    (∀ b, b ∈ bs → recommendation b = advice (type b)) ∧
    (∀ i b, bs !! i = Some b →
            recommendations bs !! i = Some (advice (type b))) ∧
    length (recommendations bs) = (length bs `max` 1)%nat.
Proof.
  destruct (identify_bottlenecks_of_type ar cpu mp thr) as (bs & Hbs & _).
  exists bs. split; [done|].
  assert (∀ b, b ∈ bs → recommendation b = advice (type b)) as Hadvice.
  { intros b Hb. by apply (bottleneck_advice ar cpu mp thr bs). }
  split; [done|]. split.
  - intros i b Hi. destruct bs as [|b0 bs']; [done|].
    unfold recommendations. rewrite list_lookup_fmap, Hi. simpl.
    f_equal. apply Hadvice. by apply list_elem_of_lookup_2 in Hi.
  - destruct bs as [|b0 bs']; [done|]. unfold recommendations.
    rewrite length_fmap, length_cons. lia.
Qed.

(** The newest transaction file of the sample directory is analysed: the
    run reports two scalability findings and the five CPU hotspots, and
    saves three figures. *)
Example sample_run :
  ∃ r,
    main sample_glob sample_parse sample_read_text float_of_decimal
      (sample_args type_all) = inl r ∧
    type <$> ri_bottlenecks (analysis r) =
      [ transaction_scalability; transaction_scalability;
        cpu_hotspot; cpu_hotspot; cpu_hotspot; cpu_hotspot; cpu_hotspot ] ∧
    path <$> ri_charts (analysis r) =
      [ "transaction_throughput.png"; "transaction_scalability.png";
        "bottleneck_summary.png" ] ∧
    reports r =
      [ ("テキスト", "target/analysis/bottleneck_analysis.txt");
        ("JSON", "target/analysis/bottleneck_analysis.json");
        ("HTML", "target/analysis/bottleneck_analysis.html") ].
Proof.
  eexists. split; [vm_compute; reflexivity|].
  split; [vm_compute; reflexivity|]. split; vm_compute; reflexivity.
Qed.

(** Once the file with the zero size is the newest, the run ends with the
    error of the analyzer, unless the type leaves the file out. *)
Example faulty_run :
  main touched_glob sample_parse sample_read_text float_of_decimal
    (sample_args type_all) = inr ZeroDivisionError ∧
  ∃ r, main touched_glob sample_parse sample_read_text float_of_decimal
         (sample_args type_sharding) = inl r ∧
       ri_bottlenecks (analysis r) = [] ∧ figures r = [].
Proof.
  split; [vm_compute; reflexivity|].
  eexists. split; [vm_compute; reflexivity|]. split; vm_compute; reflexivity.
Qed.

(** On a list that is not grouped by type the keys keep the order of the
    first occurrences. *)
Example mixed_counts :
  count_types mixed_bottlenecks =
    [ (cpu_hotspot, 2%nat); (transaction_scalability, 1%nat);
      (memory_hotspot, 1%nat) ].
Proof. reflexivity. Qed.

(** * The scalability sequence, the order of the findings and the blocks
      without a frame *)

(** C1 (as amended).  Whenever an analyzer returns, the scalability
    sequence of each series it was given, the transaction, the
    shard-creation or the cross-shard one, alone or with the others in
    the file, has one entry less than the series has samples, and its
    [i]-th entry is built from samples [i-1] and [i] with efficiency
    (throughput_i / throughput_{i-1}) / (size_i / size_{i-1}). *)
Theorem scalability_adjacent_pairs :
  (∀ file r series,
     analyze_transaction_performance file = inl r →
     tx_series_of file = Some series →
     ∃ a, r = Some {| throughput_analysis := Some a |} ∧
          adjacent_pairs Tx.tx_count Tx.throughput_tps Tx.Build_scal series
            (Tx.scalability a)) ∧
  (∀ file r series,
     analyze_sharding_performance file = inl r →
     creation_series_of file = Some series →
     ∃ ra a, r = Some ra ∧ creation_analysis ra = Some a ∧
             adjacent_pairs Shard.shard_count Shard.throughput_sps
               Shard.Build_scal series (Shard.scalability a)) ∧
  (∀ file r series,
     analyze_sharding_performance file = inl r →
     cross_series_of file = Some series →
     ∃ ra a, r = Some ra ∧ cross_shard_analysis ra = Some a ∧
             adjacent_pairs Tx.tx_count Tx.throughput_tps Tx.Build_scal series
               (Tx.scalability a)).
Proof.
  split; [|split].
  - intros file r series Hr Hseries.
    apply analyze_transaction_performance_shape in Hr. rewrite Hseries in Hr.
    destruct Hr as (a & -> & Ha). exists a. split; [done|].
    by apply analyze_tx_series_inv in Ha as (_ & _ & _ & Hadj & _).
  - intros file r series Hr Hseries.
    apply analyze_sharding_performance_shape in Hr
      as [(_ & Hnone & _)|(c & x & -> & Hc & _)]; [congruence|].
    rewrite Hseries in Hc. destruct Hc as (a & -> & Ha).
    eexists _, a. split; [done|]. split; [done|].
    by apply analyze_creation_series_inv in Ha as (_ & _ & _ & Hadj & _).
  - intros file r series Hr Hseries.
    apply analyze_sharding_performance_shape in Hr
      as [(_ & _ & Hnone)|(c & x & -> & _ & Hx)]; [congruence|].
    rewrite Hseries in Hx. destruct Hx as (a & -> & Ha).
    eexists _, a. split; [done|]. split; [done|].
    by apply analyze_tx_series_inv in Ha as (_ & _ & _ & Hadj & _).
Qed.

Lemma scalability_adjacent_pairs_witness :
  (∃ a,
     analyze_transaction_performance (Some (transaction_document sample_tx_series))
       = inl (Some {| throughput_analysis := Some a |}) ∧
     adjacent_pairs Tx.tx_count Tx.throughput_tps Tx.Build_scal sample_tx_series
       (Tx.scalability a)) ∧
  (∃ ra a,
     analyze_sharding_performance (Some (creation_document sample_shard_series))
       = inl (Some ra) ∧
     creation_analysis ra = Some a ∧
     adjacent_pairs Shard.shard_count Shard.throughput_sps Shard.Build_scal
       sample_shard_series (Shard.scalability a)).
Proof.
  split.
  - edestruct (proj1 scalability_adjacent_pairs
                 (Some (transaction_document sample_tx_series)))
      as (a & Hr & Hadj); [reflexivity|reflexivity|].
    exists a. split; [by rewrite <- Hr|exact Hadj].
  - edestruct (proj1 (proj2 scalability_adjacent_pairs)
                 (Some (creation_document sample_shard_series)))
      as (ra & a & Hr & Ha & Hadj); [reflexivity|reflexivity|].
    exists ra, a. split; [by rewrite <- Hr|]. split; [exact Ha|exact Hadj].
Defined.

(** C7.  For every combination of present and absent facet analyses and
    profiles the detector returns, and its list is six groups in the
    order [transaction_scalability], [shard_creation_scalability],
    [cross_shard_scalability], [cpu_hotspot], [memory_leak],
    [memory_hotspot].  Each group holds all the findings of its rule and
    no other: one bottleneck per scalability sample of its facet below
    the cutoff, one per hotspot among the first five above the threshold,
    the leak finding when the heap summary leaks, one per memory hotspot
    among the first five; no rule suppresses another.  An absent facet or
    profile gives an empty group and raises nothing; with both profiles
    absent the result is the scalability bottlenecks alone. *)
Theorem detection_order :
  ∀ ar cpu mp thr,
    ∃ tx creation cross cpu_found leak memory,
      identify_bottlenecks ar cpu mp thr =
        inl (tx ++ creation ++ cross ++ cpu_found ++ leak ++ memory) ∧
      scalability_findings Tx.efficiency transaction_scalability thr
        (transaction_samples ar) tx ∧
      scalability_findings Shard.efficiency shard_creation_scalability thr
        (creation_samples ar) creation ∧
      scalability_findings Tx.efficiency cross_shard_scalability thr
        (cross_shard_samples ar) cross ∧
      cpu_findings thr (cpu_hotspots_of cpu) cpu_found ∧
      leak_found thr (heap_of mp) leak ∧
      memory_findings (memory_hotspots_of mp) memory ∧
      (transaction_analysis ar = None → tx = []) ∧
      (sharding_analysis ar = None → creation = [] ∧ cross = []) ∧
      (cpu = None → cpu_found = []) ∧
      (mp = None → leak = [] ∧ memory = []) ∧
      (cpu = None → mp = None →
       identify_bottlenecks ar cpu mp thr = inl (tx ++ creation ++ cross)).
Proof.
  intros ar cpu mp thr.
  exists (tx_scalability_rule thr (transaction_samples ar)),
    (shard_creation_rule thr (creation_samples ar)),
    (cross_shard_rule thr (cross_shard_samples ar)),
    (cpu_hotspot_rule thr (cpu_hotspots_of cpu)),
    (leak_findings thr mp),
    (memory_hotspot_rule (memory_hotspots_of mp)).
  split; [apply identify_bottlenecks_segments|].
  split; [apply tx_scalability_rule_findings|].
  split; [apply shard_creation_rule_findings|].
  split; [apply cross_shard_rule_findings|].
  split; [apply cpu_hotspot_rule_findings|].
  split.
  { unfold leak_found, leak_findings.
    destruct (heap_of mp) as [heap|]; [|done].
    destruct (memory_leak_rule_ok thr heap) as (found & -> & HF & Hyes & Hno).
    split; [|done]. intros Hleak. specialize (Hyes Hleak).
    destruct found as [|b [|b' found]]; simpl in Hyes; try lia.
    exists b. split; [done|]. by apply Forall_cons_1 in HF as [[? ?] _]. }
  split.
  { unfold memory_findings. rewrite memory_hotspot_rule_map.
    apply Forall2_fmap_r, Forall2_same_length_lookup_2; [done|].
    intros i x y Hx Hy. by simplify_eq. }
  split; [by unfold transaction_samples; intros ->|].
  split; [by unfold creation_samples, cross_shard_samples; intros ->|].
  split; [by intros ->|].
  split; [by intros ->|].
  intros -> ->. rewrite identify_bottlenecks_segments. simpl.
  by rewrite !app_nil_r.
Qed.

